(** * Search, filter-state and ephemeral-delivery engine of the bot

    A shallow embedding of the search executor ([searchFiles]), the
    stateless session codec ([serializeFilters], [deserializeFilters], the
    share-link payload), the batch-range link generator ([/link]) and the
    auto-delete timers of [src/scrapper/scraper.js], with the properties
    the specification states about them.  [src/index.js] holds an older
    copy of the executor, which differs in the conditions it builds.

    Definitions come first, in the order of the source; the properties
    follow. *)

From Stdlib Require Import String Ascii NArith ZArith List Lia Bool.
From stdpp Require Import base decidable option list numbers gmap.

Local Open Scope Z_scope.

(** ** JavaScript strings and values *)

(** A JavaScript string is a sequence of UTF-16 code units.  [length] is
    the JavaScript [.length]. *)
Abbreviation jsstring := (list N).

(** A string literal of the source, for ASCII literals. *)
Definition lit (s : string) : jsstring := map N_of_ascii (list_ascii_of_string s).

(** The values a filter field and an array slot take in this program. *)
Inductive jsval :=
| JUndefined
| JNull
| JStr (s : jsstring).

#[global] Instance jsval_eq_dec : EqDecision jsval.
Proof. solve_decision. Defined.

(** ToBoolean on these values: only a non-empty string is truthy. *)
Definition truthy (v : jsval) : bool :=
  match v with
  | JStr (_ :: _) => true
  | _ => false
  end.

(** [v || d] followed by interpolation in a template literal, for a string
    default [d]. *)
Definition or_else (v : jsval) (d : jsstring) : jsstring :=
  match v with
  | JStr (c :: s) => c :: s
  | _ => d
  end.

(** [parts[i]] on an array of strings: out of range is [undefined]. *)
Definition index (parts : list jsstring) (i : nat) : jsval :=
  match parts !! i with
  | Some s => JStr s
  | None => JUndefined
  end.

(** [String.prototype.split] with a one-character separator. *)
Fixpoint split (sep : N) (s : jsstring) : list jsstring :=
  match s with
  | [] => [[]]
  | c :: s' =>
      if N.eqb c sep then [] :: split sep s'
      else match split sep s' with
           | p :: ps => (c :: p) :: ps
           | [] => [[c]]
           end
  end.

(** [Array.prototype.join]. *)
Fixpoint join (sep : jsstring) (parts : list jsstring) : jsstring :=
  match parts with
  | [] => []
  | [p] => p
  | p :: ps => p ++ sep ++ join sep ps
  end.

(** What the program can throw and catch. *)
Inductive error :=
| TypeError
| SyntaxError
| StoreError
| TransportError
| URIError.

Inductive completion (A : Type) :=
| Normal (a : A)
| Throw (e : error).
Arguments Normal {A} a.
Arguments Throw {A} e.

(** ** Numbers

    A JavaScript number is a double.  The numbers of this program are
    page numbers, message ids and counts: [NaN], the two infinities and
    the finite doubles whose value is an integer.  [Num z] is the finite
    number of value [z]; it is a number of the language when a double
    holds [z] ([representable]), as it does every integer below 2^53 in
    magnitude.  Negative zero is [Num 0]: the program prints its numbers,
    tests them for truth and compares them, which does not tell the two
    zeros apart. *)

Inductive number :=
| NaN
| Infinity (negative : bool)
| Num (z : Z).

Coercion Num : Z >-> number.

#[global] Instance number_eq_dec : EqDecision number.
Proof. solve_decision. Defined.

(** A non-negative integer rounded to 53 significant bits, a tie going
    to the even significand. *)
Definition round_magnitude (a : Z) : Z :=
  if a <? 2 ^ 53 then a
  else
    let exponent := Z.log2 a - 52 in
    let significand := a / 2 ^ exponent in
    let rest := a mod 2 ^ exponent in
    let half := 2 ^ (exponent - 1) in
    let up := (half <? rest) || ((rest =? half) && Z.odd significand) in
    (if up then significand + 1 else significand) * 2 ^ exponent.

(** The number for an integer: the nearest double, an infinity from
    2^1024 - 2^970 on. *)
Definition to_number (z : Z) : number :=
  let m := round_magnitude (Z.abs z) in
  if 2 ^ 1024 <=? m then Infinity (z <? 0)
  else Num (if z <? 0 then - m else m).

Definition representable (z : Z) : Prop := to_number z = Num z.

(** [isNaN(a)]. *)
Definition isNaN (a : number) : bool :=
  match a with
  | NaN => true
  | _ => false
  end.

(** [a + b] and [a - b]. *)
Definition num_add (a b : number) : number :=
  match a, b with
  | NaN, _ | _, NaN => NaN
  | Infinity n, Infinity m => if eqb n m then Infinity n else NaN
  | Infinity n, Num _ | Num _, Infinity n => Infinity n
  | Num x, Num y => to_number (x + y)
  end.

Definition num_sub (a b : number) : number :=
  match a, b with
  | NaN, _ | _, NaN => NaN
  | Infinity n, Infinity m => if eqb n m then NaN else Infinity n
  | Infinity n, Num _ => Infinity n
  | Num _, Infinity n => Infinity (negb n)
  | Num x, Num y => to_number (x - y)
  end.

(** [a < b]: false when either is [NaN]. *)
Definition num_lt (a b : number) : bool :=
  match a, b with
  | NaN, _ | _, NaN => false
  | Infinity n, Infinity m => n && negb m
  | Infinity n, Num _ => n
  | Num _, Infinity n => negb n
  | Num x, Num y => x <? y
  end.

(** [a <= b]. *)
Definition num_le (a b : number) : bool :=
  negb (isNaN a) && negb (isNaN b) && negb (num_lt b a).

(** [Math.min(a, b)] and [Math.max(a, b)]. *)
Definition Math_min (a b : number) : number :=
  match a, b with
  | NaN, _ | _, NaN => NaN
  | _, _ => if num_lt b a then b else a
  end.

Definition Math_max (a b : number) : number :=
  match a, b with
  | NaN, _ | _, NaN => NaN
  | _, _ => if num_lt a b then b else a
  end.

Definition digit_char (d : N) : N := (48 + d)%N.

Fixpoint digits_go (fuel : nat) (n : N) (acc : jsstring) : jsstring :=
  match fuel with
  | O => acc
  | S f =>
      let acc' := digit_char (n mod 10) :: acc in
      if (n / 10 =? 0)%N then acc' else digits_go f (n / 10)%N acc'
  end.

(** The decimal numeral of a natural number, no leading zero. *)
Definition N_to_string (n : N) : jsstring := digits_go (S (N.to_nat (N.size n))) n [].

(** The number of digits of that numeral. *)
Definition decimal_length (a : Z) : Z := Z.of_nat (length (N_to_string (Z.to_N a))).

(** Number::toString writes a finite number [x] from the integers [n],
    [k] and [s] with [k] as small as possible such that [s] has [k]
    digits and [s * 10 ^ (n - k)] is a decimal that reads back as [x];
    of several [s] the one nearest to [x].  For an integer [x] the
    exponent [j = n - k] is not negative.

    The forms [(s, j)] with a [k]-digit [s] that read back as [x]: the
    multiples of [10 ^ j] on either side of [x]. *)
Definition forms_of_length (x k : Z) : list (Z * Z) :=
  let d := decimal_length x in
  List.filter
    (fun '(s, j) => (0 <=? j) && (10 ^ (k - 1) <=? s) && (s <? 10 ^ k)
                    && bool_decide (to_number (s * 10 ^ j) = Num x))
    (flat_map (fun j => [(x / 10 ^ j, j); (x / 10 ^ j + 1, j)])
              [d - k - 1; d - k; d - k + 1]).

(** The nearer to [x] of two forms, the even [s] on a tie. *)
Definition nearer (x : Z) (a b : Z * Z) : Z * Z :=
  let da := Z.abs (a.1 * 10 ^ a.2 - x) in
  let db := Z.abs (b.1 * 10 ^ b.2 - x) in
  if da <? db then a
  else if db <? da then b
  else if Z.even a.1 then a else b.

Definition nearest (x : Z) (forms : list (Z * Z)) : option (Z * Z) :=
  match forms with
  | [] => None
  | a :: rest => Some (foldl (nearer x) a rest)
  end.

(** The shortest form: 17 digits are enough for a double. *)
Fixpoint first_form (x : Z) (lengths : list Z) : Z * Z :=
  match lengths with
  | [] => (x, 0)
  | k :: lengths' =>
      match nearest x (forms_of_length x k) with
      | Some form => form
      | None => first_form x lengths'
      end
  end.

Definition shortest_form (x : Z) : Z * Z := first_form x (seqZ 1 17).

(** Number::toString of a positive integer.  Below 2^53 no other integer
    reads back as [x], so the digits are those of [x] itself; from 10^21
    on ([n > 21]) the number is written with an exponent. *)
Definition positive_to_string (x : Z) : jsstring :=
  if x <? 2 ^ 53 then N_to_string (Z.to_N x)
  else
    let '(s, j) := shortest_form x in
    let digits := N_to_string (Z.to_N s) in
    let n := Z.of_nat (length digits) + j in
    if n <=? 21 then digits ++ repeat 48%N (Z.to_nat j)
    else
      match digits with
      | [] => []
      | d :: [] => [d] ++ lit "e+" ++ N_to_string (Z.to_N (n - 1))
      | d :: more => [d] ++ lit "." ++ more ++ lit "e+" ++ N_to_string (Z.to_N (n - 1))
      end.

(** Number::toString, as a template literal interpolates a number. *)
Definition number_to_string (x : number) : jsstring :=
  match x with
  | NaN => lit "NaN"
  | Infinity false => lit "Infinity"
  | Infinity true => lit "-Infinity"
  | Num Z0 => lit "0"
  | Num (Zpos p) => positive_to_string (Zpos p)
  | Num (Zneg p) => lit "-" ++ positive_to_string (Zpos p)
  end.

(** StrWhiteSpaceChar: WhiteSpace and LineTerminator code units. *)
Definition is_str_whitespace (c : N) : bool :=
  ((9 <=? c) && (c <=? 13) || (c =? 32) || (c =? 160) || (c =? 5760)
   || (8192 <=? c) && (c <=? 8202) || (c =? 8232) || (c =? 8233)
   || (c =? 8239) || (c =? 8287) || (c =? 12288) || (c =? 65279))%N.

Fixpoint trim_start (s : jsstring) : jsstring :=
  match s with
  | c :: s' => if is_str_whitespace c then trim_start s' else s
  | [] => []
  end.

(** The value of a code unit as a digit of the radix, if it is one. *)
Definition digit_value (radix : N) (c : N) : option N :=
  let v := if ((48 <=? c) && (c <=? 57))%N then Some (c - 48)%N
           else if ((97 <=? c) && (c <=? 122))%N then Some (c - 87)%N
           else if ((65 <=? c) && (c <=? 90))%N then Some (c - 55)%N
           else None in
  match v with
  | Some d => if (d <? radix)%N then Some d else None
  | None => None
  end.

(** The longest prefix of radix digits, read most significant first:
    the number of digits read and their value. *)
Fixpoint read_digits (radix : N) (s : jsstring) (count : nat) (acc : N) : nat * N :=
  match s with
  | c :: s' =>
      match digit_value radix c with
      | Some d => read_digits radix s' (S count) (radix * acc + d)%N
      | None => (count, acc)
      end
  | [] => (count, acc)
  end.

Definition parse_digits (radix : N) (s : jsstring) : option N :=
  match read_digits radix s O 0%N with
  | (O, _) => None
  | (S _, v) => Some v
  end.

(** A leading [-] or [+]: whether the sign is negative, and the rest. *)
Definition strip_sign (s : jsstring) : bool * jsstring :=
  match s with
  | c :: r =>
      if (c =? 45)%N then (true, r)
      else if (c =? 43)%N then (false, r)
      else (false, s)
  | [] => (false, s)
  end.

(** A leading [0x] or [0X] selects radix 16, otherwise the radix is 10. *)
Definition strip_radix_prefix (s : jsstring) : N * jsstring :=
  match s with
  | c0 :: c1 :: r =>
      if ((c0 =? 48) && ((c1 =? 120) || (c1 =? 88)))%N then (16%N, r) else (10%N, s)
  | _ => (10%N, s)
  end.

(** [parseInt(string)] with no radix argument: leading white space, a
    sign, a [0x] or [0X] prefix, then the longest run of digits, whose
    value is rounded to a number; [NaN] when there is no digit. *)
Definition parseInt (s : jsstring) : number :=
  let '(neg, s2) := strip_sign (trim_start s) in
  let '(radix, s3) := strip_radix_prefix s2 in
  match parse_digits radix s3 with
  | Some v => to_number (if neg : bool then - Z.of_N v else Z.of_N v)
  | None => NaN
  end.

(** [parseInt(x)] on an array slot: [undefined] reads as the string
    "undefined", which has no digit. *)
Definition parseInt_val (v : jsval) : number :=
  match v with
  | JStr s => parseInt s
  | _ => NaN
  end.

(** [n || 0] on a number: [NaN] and [0] are falsy. *)
Definition or_zero (n : number) : number :=
  match n with
  | NaN => 0
  | Num z => if Z.eqb z 0 then 0 else z
  | Infinity negative => Infinity negative
  end.

(** A decimal digit. *)
Definition is_digit (c : N) : Prop := (48 <= c <= 57)%N.

(** ** Stateless session codec: the compact token *)

Record SearchFilters := {
  file_lang : jsval;
  year : jsval;
  quality : jsval
}.

Record SearchState := {
  page : number;
  filters : SearchFilters
}.

Definition colon : N := 58%N.
Definition bar : N := 124%N.
Definition placeholder : jsstring := lit "-".

(** [serializeFilters(page, filters)]. *)
Definition serializeFilters (page : number) (filters : SearchFilters) : jsstring :=
  let l := or_else (file_lang filters) placeholder in
  let y := or_else (year filters) placeholder in
  let q := or_else (quality filters) placeholder in
  number_to_string page ++ [colon] ++ l ++ [colon] ++ y ++ [colon] ++ q.

(** [parts[i] === '-' ? null : parts[i]]. *)
Definition field_of_part (v : jsval) : jsval :=
  if bool_decide (v = JStr placeholder) then JNull else v.

(** [deserializeFilters(data)]. *)
Definition deserializeFilters (data : jsstring) : SearchState :=
  let parts := split colon data in
  {| page := or_zero (parseInt_val (index parts 0));
     filters := {| file_lang := field_of_part (index parts 1);
                   year := field_of_part (index parts 2);
                   quality := field_of_part (index parts 3) |} |}.

(** The enumerations the filter menus offer. *)
Definition LANGUAGES : list (jsstring * jsstring) :=
  [ (lit "EN", lit "English"); (lit "HI", lit "Hindi"); (lit "TA", lit "Tamil");
    (lit "TE", lit "Telugu"); (lit "ML", lit "Malayalam"); (lit "KN", lit "Kannada");
    (lit "BN", lit "Bengali"); (lit "MR", lit "Marathi"); (lit "MU", lit "Multi Audio") ].

Definition language_codes : list jsstring := map fst LANGUAGES.

Definition quality_menu : list jsstring :=
  [ lit "4K"; lit "1080p"; lit "720p"; lit "480p"; lit "Cam" ].

(** [YEARS]: the current year down to 2000, as strings. *)
Definition YEARS (currentYear : Z) : list jsstring :=
  map (fun k => number_to_string (currentYear - Z.of_nat k))
      (seq 0 (Z.to_nat (currentYear - 2000 + 1))).

(** A filter field of a valid search state: absent ([undefined] or
    [null]), or one of the values of its enumeration. *)
Definition valid_field (enum : list jsstring) (v : jsval) : Prop :=
  match v with
  | JStr s => s ∈ enum
  | _ => True
  end.

Definition valid_filters (currentYear : Z) (f : SearchFilters) : Prop :=
  valid_field language_codes (file_lang f) /\
  valid_field (YEARS currentYear) (year f) /\
  valid_field quality_menu (quality f).

(** The decoder writes every absent field as [null]. *)
Definition absent_as_null (v : jsval) : jsval :=
  match v with
  | JStr s => JStr s
  | _ => JNull
  end.

Definition normalize_filters (f : SearchFilters) : SearchFilters :=
  {| file_lang := absent_as_null (file_lang f);
     year := absent_as_null (year f);
     quality := absent_as_null (quality f) |}.

(** The text a field occupies in a token: its value, or the placeholder. *)
Definition wire_text (v : jsval) : jsstring :=
  match v with
  | JStr s => s
  | _ => placeholder
  end.

(** ** Stateless session codec: the share link

    The platform functions the share link goes through, on strings of
    UTF-16 code units and on bytes. *)

Definition is_high_surrogate (u : N) : bool := ((55296 <=? u) && (u <=? 56319))%N.
Definition is_low_surrogate (u : N) : bool := ((56320 <=? u) && (u <=? 57343))%N.

(** The code point of a surrogate pair. *)
Definition pair_code_point (hi lo : N) : N :=
  ((hi - 55296) * 1024 + (lo - 56320) + 65536)%N.

(** UTF16EncodeCodePoint. *)
Definition utf16_encode (cp : N) : jsstring :=
  if (cp <? 65536)%N then [cp]
  else [(55296 + (cp - 65536) / 1024)%N; (56320 + (cp - 65536) mod 1024)%N].

(** The UTF-8 octets of a code point. *)
Definition utf8_encode (cp : N) : list N :=
  if (cp <? 128)%N then [cp]
  else if (cp <? 2048)%N then [(192 + cp / 64)%N; (128 + cp mod 64)%N]
  else if (cp <? 65536)%N then
    [(224 + cp / 4096)%N; (128 + (cp / 64) mod 64)%N; (128 + cp mod 64)%N]
  else
    [(240 + cp / 262144)%N; (128 + (cp / 4096) mod 64)%N;
     (128 + (cp / 64) mod 64)%N; (128 + cp mod 64)%N].

Definition is_continuation (b : N) : bool := ((128 <=? b) && (b <=? 191))%N.

(** The code point of a UTF-8 sequence of 2 to 4 octets, when it is
    well-formed: continuation octets, shortest form, no surrogate, at most
    U+10FFFF. *)
Definition utf8_decode_seq (lead : N) (conts : list N) : option N :=
  if forallb is_continuation conts then
    match conts with
    | [b1] =>
        let cp := ((lead - 192) * 64 + (b1 - 128))%N in
        if ((192 <=? lead) && (lead <=? 223) && (128 <=? cp))%N then Some cp else None
    | [b1; b2] =>
        let cp := ((lead - 224) * 4096 + (b1 - 128) * 64 + (b2 - 128))%N in
        if ((224 <=? lead) && (lead <=? 239) && (2048 <=? cp)
            && negb ((55296 <=? cp) && (cp <=? 57343)))%N
        then Some cp else None
    | [b1; b2; b3] =>
        let cp := ((lead - 240) * 262144 + (b1 - 128) * 4096 + (b2 - 128) * 64
                   + (b3 - 128))%N in
        if ((240 <=? lead) && (lead <=? 247) && (65536 <=? cp) && (cp <=? 1114111))%N
        then Some cp else None
    | _ => None
    end
  else None.

(** The unreserved set of [encodeURIComponent]: letters, digits and
    [-_.!~*'()]. *)
Definition uri_unreserved (u : N) : bool :=
  ((97 <=? u) && (u <=? 122) || (65 <=? u) && (u <=? 90) || (48 <=? u) && (u <=? 57))%N
  || bool_decide (u ∈ lit "-_.!~*'()").

Definition percent : N := 37%N.

Definition hex_upper (d : N) : N := if (d <? 10)%N then (48 + d)%N else (55 + d)%N.

Definition percent_encode (octets : list N) : jsstring :=
  flat_map (fun b => [percent; hex_upper (b / 16); hex_upper (b mod 16)]) octets.

(** [encodeURIComponent(string)]; [None] is the URIError of a lone
    surrogate. *)
Fixpoint encodeURIComponent (str : jsstring) : option jsstring :=
  match str with
  | [] => Some []
  | u :: s1 =>
      if uri_unreserved u then cons u <$> encodeURIComponent s1
      else if is_high_surrogate u then
        match s1 with
        | v :: s2 =>
            if is_low_surrogate v
            then app (percent_encode (utf8_encode (pair_code_point u v)))
                   <$> encodeURIComponent s2
            else None
        | [] => None
        end
      else if is_low_surrogate u then None
      else app (percent_encode (utf8_encode u)) <$> encodeURIComponent s1
  end.

(** What [decodeURIComponent] reads: a character, or the octet of an
    escape [%XX]. *)
Inductive uri_item :=
| Raw (u : N)
| Octet (b : N).

Definition hex_value (u : N) : option N := digit_value 16 u.

(** [None] is the URIError of a [%] not followed by two hex digits. *)
Fixpoint unescape (str : jsstring) : option (list uri_item) :=
  match str with
  | [] => Some []
  | u :: s1 =>
      if (u =? percent)%N then
        match s1 with
        | h1 :: h2 :: s3 =>
            match hex_value h1, hex_value h2 with
            | Some d1, Some d2 => cons (Octet (16 * d1 + d2)) <$> unescape s3
            | _, _ => None
            end
        | _ => None
        end
      else cons (Raw u) <$> unescape s1
  end.

(** The number of octets a lead octet announces; 0 for an octet that
    cannot start a sequence. *)
Definition sequence_length (lead : N) : nat :=
  if (lead <? 128)%N then 1
  else if (lead <? 192)%N then 0
  else if (lead <? 224)%N then 2
  else if (lead <? 240)%N then 3
  else if (lead <? 248)%N then 4
  else 0.

(** The octets of the escapes are decoded as UTF-8, sequence by
    sequence; [None] is the URIError of an ill-formed sequence. *)
Fixpoint decode_items (items : list uri_item) : option jsstring :=
  match items with
  | [] => Some []
  | Raw u :: r1 => cons u <$> decode_items r1
  | Octet lead :: r1 =>
      match sequence_length lead with
      | 1%nat => cons lead <$> decode_items r1
      | 2%nat =>
          match r1 with
          | Octet b1 :: r2 =>
              match utf8_decode_seq lead [b1] with
              | Some cp => app (utf16_encode cp) <$> decode_items r2
              | None => None
              end
          | _ => None
          end
      | 3%nat =>
          match r1 with
          | Octet b1 :: Octet b2 :: r3 =>
              match utf8_decode_seq lead [b1; b2] with
              | Some cp => app (utf16_encode cp) <$> decode_items r3
              | None => None
              end
          | _ => None
          end
      | 4%nat =>
          match r1 with
          | Octet b1 :: Octet b2 :: Octet b3 :: r4 =>
              match utf8_decode_seq lead [b1; b2; b3] with
              | Some cp => app (utf16_encode cp) <$> decode_items r4
              | None => None
              end
          | _ => None
          end
      | _ => None
      end
  end.

(** [decodeURIComponent(string)]. *)
Definition decodeURIComponent (str : jsstring) : option jsstring :=
  unescape str ≫= decode_items.

Definition replacement : list N := [239%N; 191%N; 189%N].

(** [Buffer.from(string)]: the UTF-8 bytes of the string, a lone
    surrogate becoming U+FFFD. *)
Fixpoint Buffer_from (str : jsstring) : list N :=
  match str with
  | [] => []
  | u :: s1 =>
      if is_high_surrogate u then
        match s1 with
        | v :: s2 =>
            if is_low_surrogate v
            then utf8_encode (pair_code_point u v) ++ Buffer_from s2
            else replacement ++ Buffer_from s1
        | [] => replacement
        end
      else if is_low_surrogate u then replacement ++ Buffer_from s1
      else utf8_encode u ++ Buffer_from s1
  end.

(** The base64url alphabet: [A-Z], [a-z], [0-9], [-], [_]. *)
Definition base64url_char (v : N) : N :=
  if (v <? 26)%N then (65 + v)%N
  else if (v <? 52)%N then (71 + v)%N
  else if (v <? 62)%N then (v - 4)%N
  else if (v =? 62)%N then 45%N
  else 95%N.

(** [buffer.toString('base64url')]: no padding. *)
Fixpoint base64url_encode (bytes : list N) : jsstring :=
  match bytes with
  | b1 :: b2 :: b3 :: rest =>
      base64url_char (b1 / 4) :: base64url_char ((b1 mod 4) * 16 + b2 / 16)
      :: base64url_char ((b2 mod 16) * 4 + b3 / 64) :: base64url_char (b3 mod 64)
      :: base64url_encode rest
  | [b1; b2] =>
      [base64url_char (b1 / 4); base64url_char ((b1 mod 4) * 16 + b2 / 16);
       base64url_char ((b2 mod 16) * 4)]
  | [b1] => [base64url_char (b1 / 4); base64url_char ((b1 mod 4) * 16)]
  | [] => []
  end.

(** The value of a character of either base64 alphabet. *)
Definition unbase64 (u : N) : option N :=
  if ((65 <=? u) && (u <=? 90))%N then Some (u - 65)%N
  else if ((97 <=? u) && (u <=? 122))%N then Some (u - 71)%N
  else if ((48 <=? u) && (u <=? 57))%N then Some (u + 4)%N
  else if ((u =? 45) || (u =? 43))%N then Some 62%N
  else if ((u =? 95) || (u =? 47))%N then Some 63%N
  else None.

(** The decoder reads the low byte of each code unit; it skips a byte of
    neither alphabet and stops at [=]. *)
Fixpoint sextets (str : jsstring) : list N :=
  match str with
  | [] => []
  | u :: s1 =>
      let b := (u mod 256)%N in
      match unbase64 b with
      | Some v => v :: sextets s1
      | None => if (b =? 61)%N then [] else sextets s1
      end
  end.

Fixpoint bytes_of_sextets (vs : list N) : list N :=
  match vs with
  | v1 :: v2 :: v3 :: v4 :: rest =>
      ((v1 * 4 + v2 / 16) mod 256)%N :: ((v2 * 16 + v3 / 4) mod 256)%N
      :: ((v3 * 64 + v4) mod 256)%N :: bytes_of_sextets rest
  | [v1; v2; v3] => [((v1 * 4 + v2 / 16) mod 256)%N; ((v2 * 16 + v3 / 4) mod 256)%N]
  | [v1; v2] => [((v1 * 4 + v2 / 16) mod 256)%N]
  | _ => []
  end.

(** [Buffer.from(payload, 'base64url')]. *)
Definition Buffer_from_base64url (payload : jsstring) : list N :=
  bytes_of_sextets (sextets payload).

(** The state of the UTF-8 decoder of [buffer.toString('utf8')]: the
    code point so far, the octets still needed and the bounds of the next
    one. *)
Record utf8_state := {
  partial : N;
  needed : nat;
  seen : nat;
  lower : N;
  upper : N
}.

Definition utf8_start : utf8_state :=
  {| partial := 0; needed := 0; seen := 0; lower := 128; upper := 191 |}.

Definition fffd : N := 65533%N.

(** An octet read with no sequence pending. *)
Definition utf8_lead (b : N) : jsstring * utf8_state :=
  if (b <? 128)%N then ([b], utf8_start)
  else if ((194 <=? b) && (b <=? 223))%N then
    ([], {| partial := (b - 192)%N; needed := 1; seen := 0; lower := 128; upper := 191 |})
  else if ((224 <=? b) && (b <=? 239))%N then
    ([], {| partial := (b - 224)%N; needed := 2; seen := 0;
            lower := if (b =? 224)%N then 160%N else 128%N;
            upper := if (b =? 237)%N then 159%N else 191%N |})
  else if ((240 <=? b) && (b <=? 244))%N then
    ([], {| partial := (b - 240)%N; needed := 3; seen := 0;
            lower := if (b =? 240)%N then 144%N else 128%N;
            upper := if (b =? 244)%N then 143%N else 191%N |})
  else ([fffd], utf8_start).

Definition utf8_step (st : utf8_state) (b : N) : jsstring * utf8_state :=
  match needed st with
  | O => utf8_lead b
  | S _ =>
      if ((lower st <=? b) && (b <=? upper st))%N then
        let cp := (partial st * 64 + (b - 128))%N in
        if (S (seen st) =? needed st)%nat then (utf16_encode cp, utf8_start)
        else ([], {| partial := cp; needed := needed st; seen := S (seen st);
                     lower := 128; upper := 191 |})
      else
        let '(out, st') := utf8_lead b in (fffd :: out, st')
  end.

Fixpoint utf8_decode_from (st : utf8_state) (bytes : list N) : jsstring :=
  match bytes with
  | [] => match needed st with O => [] | S _ => [fffd] end
  | b :: rest =>
      let '(out, st') := utf8_step st b in out ++ utf8_decode_from st' rest
  end.

(** [buffer.toString('utf8')]. *)
Definition Buffer_toString (bytes : list N) : jsstring :=
  utf8_decode_from utf8_start bytes.

(** The payload the share action computes from the query, the page and
    the filters; [Throw URIError] lands in the handler's empty [catch]. *)
Definition share_payload (query : jsstring) (page : number) (filters : SearchFilters)
  : completion jsstring :=
  let l := or_else (file_lang filters) placeholder in
  let y := or_else (year filters) placeholder in
  let q := or_else (quality filters) placeholder in
  match encodeURIComponent query with
  | Some encoded =>
      Normal (base64url_encode (Buffer_from
        (encoded ++ [bar] ++ number_to_string page ++ [bar] ++ l ++ [bar] ++ y
         ++ [bar] ++ q)))
  | None => Throw URIError
  end.

Inductive share_reply :=
| QueryLost
| NoReply
| ShareLink (payload : jsstring).

(** The handler of the [s:] button, from the state token of the button
    and the query text [extractQuery] found. *)
Definition share_action (state : jsstring) (query : jsval) : share_reply :=
  let st := deserializeFilters state in
  match query with
  | JStr (ch :: rest) =>
      match share_payload (ch :: rest) (page st) (filters st) with
      | Normal payload => ShareLink payload
      | Throw _ => NoReply
      end
  | _ => QueryLost
  end.

Fixpoint decode_all (parts : list jsstring) : completion (list jsstring) :=
  match parts with
  | [] => Normal []
  | p :: ps =>
      match decodeURIComponent p with
      | Some d =>
          match decode_all ps with
          | Normal ds => Normal (d :: ds)
          | Throw err => Throw err
          end
      | None => Throw URIError
      end
  end.

Record SharedSearch := {
  shared_query : jsval;
  shared_state : SearchState
}.

(** The decoding [handleStatelessBatch] starts with: the query, the page
    and the filters it then searches with. *)
Definition handleStatelessBatch_decode (payload : jsstring) : completion SharedSearch :=
  let decoded := Buffer_toString (Buffer_from_base64url payload) in
  match decode_all (split bar decoded) with
  | Normal parts =>
      Normal {| shared_query := index parts 0;
                shared_state :=
                  {| page := or_zero (parseInt_val (index parts 1));
                     filters := {| file_lang := field_of_part (index parts 2);
                                   year := field_of_part (index parts 3);
                                   quality := field_of_part (index parts 4) |} |} |}
  | Throw err => Throw err
  end.

(** A string with no lone surrogate, of 16-bit code units. *)
Fixpoint well_formed (str : jsstring) : Prop :=
  match str with
  | [] => True
  | u :: s1 =>
      (u < 65536)%N /\
      if is_high_surrogate u then
        match s1 with
        | v :: s2 => is_low_surrogate v = true /\ well_formed s2
        | [] => False
        end
      else is_low_surrogate u = false /\ well_formed s1
  end.

(** ** Query and filter composer *)

Definition backslash : N := 92%N.

(** The character class of [escapeRegex]: [[.*+?^${}()|[\]\\]]. *)
Definition escapeRegex_class : jsstring := lit ".*+?^${}()|[]" ++ [backslash].

(** [escapeRegex(string)]: [string.replace(/[.*+?^${}()|[\]\\]/g, '\\$&')],
    a backslash before every character of the class. *)
Fixpoint escapeRegex (s : jsstring) : jsstring :=
  match s with
  | [] => []
  | c :: s' =>
      if bool_decide (c ∈ escapeRegex_class)
      then backslash :: c :: escapeRegex s'
      else c :: escapeRegex s'
  end.

Definition MULTI_KEYWORDS : list jsstring :=
  [ lit "multi"; lit "dual"; lit "dual audio"; lit "multi audio"; lit "audios";
    lit "triple"; lit "eng-hin"; lit "hin-eng" ].

(** The property names every object inherits from [Object.prototype]:
    [LANGUAGES[key]] is a function or an object for them, not a string. *)
Definition object_prototype_keys : list jsstring :=
  [ lit "constructor"; lit "__defineGetter__"; lit "__defineSetter__";
    lit "hasOwnProperty"; lit "__lookupGetter__"; lit "__lookupSetter__";
    lit "isPrototypeOf"; lit "propertyIsEnumerable"; lit "toString";
    lit "valueOf"; lit "__proto__"; lit "toLocaleString" ].

Inductive property :=
| OwnString (s : jsstring)
| Inherited
| Missing.

(** [LANGUAGES[key]]. *)
Definition LANGUAGES_get (key : jsstring) : property :=
  match list_find (fun kv => fst kv = key) LANGUAGES with
  | Some (_, (_, name)) => OwnString name
  | None => if bool_decide (key ∈ object_prototype_keys) then Inherited else Missing
  end.

Definition word_boundary : jsstring := [backslash; 98%N].

(** The source text of the language condition. *)
Definition language_pattern (code : jsstring) : completion jsstring :=
  if bool_decide (code = lit "MU") then Normal (join [bar] MULTI_KEYWORDS)
  else match LANGUAGES_get code with
       | OwnString langName =>
           Normal (escapeRegex langName ++ [bar] ++ word_boundary
                     ++ escapeRegex code ++ word_boundary)
       | Inherited => Throw TypeError
       | Missing => Normal (escapeRegex code)
       end.

(** The source texts of the conditions [searchFiles] pushes, in order:
    query, language, year, quality; a falsy field adds none. *)
Definition condition_patterns (query : jsstring) (filters : SearchFilters)
  : completion (list jsstring) :=
  let q := match query with [] => [] | _ => [escapeRegex query] end in
  let y := match year filters with
           | JStr (c :: s) => [word_boundary ++ (c :: s) ++ word_boundary]
           | _ => []
           end in
  let ql := match quality filters with
            | JStr (c :: s) => [escapeRegex (c :: s)]
            | _ => []
            end in
  match file_lang filters with
  | JStr (c :: s) =>
      match language_pattern (c :: s) with
      | Normal l => Normal (q ++ [l] ++ y ++ ql)
      | Throw e => Throw e
      end
  | _ => Normal (q ++ y ++ ql)
  end.

(** The conditions of the [searchFiles] of [src/index.js]: the language
    code escaped, the year as it is. *)
Definition condition_patterns_index (query : jsstring) (filters : SearchFilters)
  : completion (list jsstring) :=
  let q := match query with [] => [] | _ => [escapeRegex query] end in
  let l := match file_lang filters with
           | JStr (c :: s) => [escapeRegex (c :: s)]
           | _ => []
           end in
  let y := match year filters with
           | JStr (c :: s) => [c :: s]
           | _ => []
           end in
  let ql := match quality filters with
            | JStr (c :: s) => [escapeRegex (c :: s)]
            | _ => []
            end in
  Normal (q ++ l ++ y ++ ql).

(** ** Regular expressions: the fragment of the pattern language the
    composer can produce from escaped text

    A pattern is a disjunction of alternatives, an alternative a sequence
    of terms: a literal character or [.], each with an optional [*], [+]
    or [?], and the assertions [^], [$], [\b] and [\B].  Groups, classes,
    braces and the other escapes are outside the fragment.  The store
    matches a [$regex] condition with its own engine, in which the syntax
    characters are the same and a backslash before one makes it a literal
    as well. *)

Inductive token :=
| KChar (c : N)
| KDot | KStar | KPlus | KQuest | KBar | KCaret | KDollar
| KWordB | KNotWordB.

Inductive lexed :=
| Lexed (ts : list token)
| LexSyntaxError
| LexUnmodelled.

(** SyntaxCharacter of the pattern grammar. *)
Definition syntax_chars : jsstring := lit "^$" ++ [backslash] ++ lit ".*+?()[]{}|".

(** A character outside an escape. *)
Definition plain_token (c : N) : option token :=
  if (c =? 46)%N then Some KDot
  else if (c =? 42)%N then Some KStar
  else if (c =? 43)%N then Some KPlus
  else if (c =? 63)%N then Some KQuest
  else if (c =? 124)%N then Some KBar
  else if (c =? 94)%N then Some KCaret
  else if (c =? 36)%N then Some KDollar
  else if bool_decide (c ∈ syntax_chars) then None
  else Some (KChar c).

(** The character after a backslash: an identity escape of a syntax
    character or [/], or a word-boundary assertion. *)
Definition escape_token (e : N) : option token :=
  if bool_decide (e ∈ syntax_chars) || (e =? 47)%N then Some (KChar e)
  else if (e =? 98)%N then Some KWordB
  else if (e =? 66)%N then Some KNotWordB
  else None.

Definition cons_token (k : token) (l : lexed) : lexed :=
  match l with
  | Lexed ts => Lexed (k :: ts)
  | other => other
  end.

Fixpoint lex (s : jsstring) : lexed :=
  match s with
  | [] => Lexed []
  | c :: s1 =>
      if (c =? backslash)%N then
        match s1 with
        | [] => LexSyntaxError
        | e :: s2 =>
            match escape_token e with
            | Some k => cons_token k (lex s2)
            | None => LexUnmodelled
            end
        end
      else
        match plain_token c with
        | Some k => cons_token k (lex s1)
        | None => LexUnmodelled
        end
  end.

Inductive atom :=
| ALit (c : N)
| AAny.

Inductive quantifier := QOne | QStar | QPlus | QOpt.

Inductive term :=
| TAtom (a : atom) (q : quantifier)
| TBoundary (negated : bool)
| TStart
| TEnd.

Abbreviation regex := (list (list term)).

Definition atom_of (k : token) : option atom :=
  match k with
  | KChar c => Some (ALit c)
  | KDot => Some AAny
  | _ => None
  end.

Definition quantifier_of (k : token) : option quantifier :=
  match k with
  | KStar => Some QStar
  | KPlus => Some QPlus
  | KQuest => Some QOpt
  | _ => None
  end.

Definition assertion_of (k : token) : option term :=
  match k with
  | KCaret => Some TStart
  | KDollar => Some TEnd
  | KWordB => Some (TBoundary false)
  | KNotWordB => Some (TBoundary true)
  | _ => None
  end.

(** Add a term to the first alternative. *)
Definition push_term (t : term) (r : option regex) : option regex :=
  match r with
  | Some (alt :: alts) => Some ((t :: alt) :: alts)
  | _ => None
  end.

(** [None] is a syntax error: a quantifier with nothing to repeat. *)
Fixpoint parse (ts : list token) : option regex :=
  match ts with
  | [] => Some [[]]
  | KBar :: ts1 => option_map (cons []) (parse ts1)
  | k :: ts1 =>
      match atom_of k with
      | Some a =>
          match ts1 with
          | q :: ts2 =>
              match quantifier_of q with
              | Some qu =>
                  match ts2 with
                  | KQuest :: ts3 => push_term (TAtom a qu) (parse ts3)
                  | _ => push_term (TAtom a qu) (parse ts2)
                  end
              | None => push_term (TAtom a QOne) (parse ts1)
              end
          | [] => push_term (TAtom a QOne) (parse ts1)
          end
      | None =>
          match assertion_of k with
          | Some t => push_term t (parse ts1)
          | None => None
          end
      end
  end.

Inductive compiled :=
| Compiled (r : regex)
| PatternSyntaxError
| Unmodelled.

(** [new RegExp(pattern, 'i')] on the fragment. *)
Definition RegExp_i (pattern : jsstring) : compiled :=
  match lex pattern with
  | Lexed ts =>
      match parse ts with
      | Some r => Compiled r
      | None => PatternSyntaxError
      end
  | LexSyntaxError => PatternSyntaxError
  | LexUnmodelled => Unmodelled
  end.

Definition is_line_terminator (c : N) : bool :=
  ((c =? 10) || (c =? 13) || (c =? 8232) || (c =? 8233))%N.

(** IsWordChar: [A-Za-z0-9_]. *)
Definition is_word_char (c : N) : bool :=
  ((97 <=? c) && (c <=? 122) || (65 <=? c) && (c <=? 90)
   || (48 <=? c) && (c <=? 57) || (c =? 95))%N.

Definition word_before (prev : option N) : bool :=
  match prev with
  | Some c => is_word_char c
  | None => false
  end.

Definition word_after (s : jsstring) : bool :=
  match s with
  | c :: _ => is_word_char c
  | [] => false
  end.

Section Matcher.
(** Canonicalize of the [i] flag, a case folding of a code unit. *)
Variable canonicalize : N -> N.

Definition atom_matches (a : atom) (x : N) : bool :=
  match a with
  | ALit c => (canonicalize c =? canonicalize x)%N
  | AAny => negb (is_line_terminator x)
  end.

(** Whether the terms match a prefix of [s]; [prev] is the character
    before [s] in the subject, if any. *)
Fixpoint match_terms (ts : list term) : option N -> jsstring -> bool :=
  match ts with
  | [] => fun _ _ => true
  | t :: ts' =>
      let k := match_terms ts' in
      let star (a : atom) :=
        fix star (prev : option N) (s : jsstring) : bool :=
          k prev s ||
          match s with
          | x :: s' => atom_matches a x && star (Some x) s'
          | [] => false
          end in
      match t with
      | TAtom a QOne => fun _ s =>
          match s with
          | x :: s' => atom_matches a x && k (Some x) s'
          | [] => false
          end
      | TAtom a QOpt => fun prev s =>
          k prev s ||
          match s with
          | x :: s' => atom_matches a x && k (Some x) s'
          | [] => false
          end
      | TAtom a QStar => star a
      | TAtom a QPlus => fun _ s =>
          match s with
          | x :: s' => atom_matches a x && star a (Some x) s'
          | [] => false
          end
      | TBoundary negated => fun prev s =>
          xorb negated (xorb (word_before prev) (word_after s)) && k prev s
      | TStart => fun prev s =>
          match prev with None => k prev s | Some _ => false end
      | TEnd => fun prev s =>
          match s with [] => k prev s | _ :: _ => false end
      end
  end.

(** A match starting here or at a later position. *)
Fixpoint search_from (r : regex) (prev : option N) (s : jsstring) : bool :=
  existsb (fun alt => match_terms alt prev s) r ||
  match s with
  | x :: s' => search_from r (Some x) s'
  | [] => false
  end.

(** [regex.test(subject)], the match of a [$regex] condition. *)
Definition regexp_test (r : regex) (subject : jsstring) : bool :=
  search_from r None subject.
End Matcher.

(** ** Catalog store, trending counters and the search executor *)

Record ContentRecord := {
  _id : jsstring;
  file_ref : jsval;
  file_name : jsstring;
  file_size : Z;
  file_type : jsstring
}.

Record TrendingDoc := {
  count : Z;
  last_searched : Z
}.

(** The calls [searchFiles] makes to the store. *)
Inductive store_call :=
| FindPage
| FindRecent
| UpdateTrending.

(** What the executor asks of its collaborators. *)
Inductive event :=
| EvFind (call : store_call) (patterns : list jsstring) (skip limit : nat)
| EvFuseSearch (query : jsstring) (candidates : nat)
| EvTrendingUpdate (key : jsstring).

Record World := {
  filesCollection : list ContentRecord;
  trendingCollection : gmap (list N) TrendingDoc
}.

(** One run of a computation: how it completes, the store it leaves and
    the requests it made, in order. *)
Record Run (A : Type) := {
  outcome : completion A;
  final : World;
  trace : list event
}.
Arguments outcome {A} r.
Arguments final {A} r.
Arguments trace {A} r.

(** A computation that reads and updates the store and returns or
    throws. *)
Definition M (A : Type) : Type := World -> Run A.

#[global] Instance M_ret : MRet M := fun A a w =>
  {| outcome := Normal a; final := w; trace := [] |}.

#[global] Instance M_bind : MBind M := fun A B f m w =>
  match m w with
  | {| outcome := Normal a; final := w1; trace := t1 |} =>
      match f a w1 with
      | {| outcome := o; final := w2; trace := t2 |} =>
          {| outcome := o; final := w2; trace := t1 ++ t2 |}
      end
  | {| outcome := Throw e; final := w1; trace := t1 |} =>
      {| outcome := Throw e; final := w1; trace := t1 |}
  end.

Definition throw {A : Type} (e : error) : M A := fun w =>
  {| outcome := Throw e; final := w; trace := [] |}.

(** [try { m } catch (e) { h e }]. *)
Definition try_catch {A : Type} (m : M A) (h : error -> M A) : M A := fun w =>
  match m w with
  | {| outcome := Normal a; final := w1; trace := t1 |} =>
      {| outcome := Normal a; final := w1; trace := t1 |}
  | {| outcome := Throw e; final := w1; trace := t1 |} =>
      match h e w1 with
      | {| outcome := o; final := w2; trace := t2 |} =>
          {| outcome := o; final := w2; trace := t1 ++ t2 |}
      end
  end.

Definition lift {A : Type} (c : completion A) : M A := fun w =>
  {| outcome := c; final := w; trace := [] |}.

Definition emit (ev : event) : M unit := fun w =>
  {| outcome := Normal tt; final := w; trace := [ev] |}.

(** The order of [_id] strings, code unit by code unit. *)
Fixpoint str_compare (a b : jsstring) : comparison :=
  match a, b with
  | [], [] => Eq
  | [], _ :: _ => Lt
  | _ :: _, [] => Gt
  | x :: a', y :: b' =>
      match N.compare x y with
      | Eq => str_compare a' b'
      | c => c
      end
  end.

Fixpoint insert_desc (d : ContentRecord) (l : list ContentRecord) : list ContentRecord :=
  match l with
  | [] => [d]
  | x :: l' =>
      match str_compare (_id d) (_id x) with
      | Lt => x :: insert_desc d l'
      | _ => d :: l
      end
  end.

(** [.sort({ _id: -1 })]. *)
Definition sort_desc (l : list ContentRecord) : list ContentRecord :=
  foldr insert_desc [] l.

Definition RESULTS_PER_PAGE : nat := 10.
Definition AUTO_DELETE_SECONDS : Z := 3600.

Record FuseResult := {
  item : ContentRecord;
  refIndex : nat
}.

Record SearchResult := {
  files : list ContentRecord;
  hasNext : bool;
  hasPrev : bool;
  currentPage : N;
  isFuzzy : bool
}.

(** [array.slice(from, to)]. *)
Definition slice {A : Type} (from to : nat) (l : list A) : list A :=
  take (to - from) (drop from l).

(** The page of a search is a non-negative integer, as the data model
    has it. *)
Section Executor.
(** The conditions built from the query and the filters: the two copies
    of [searchFiles] differ in them only, [condition_patterns] in
    [src/scrapper/scraper.js] and [condition_patterns_index] in
    [src/index.js]. *)
Variable compose : jsstring -> SearchFilters -> completion (list jsstring).

(** The regular expression engine: [new RegExp(pattern, 'i')], which
    throws a SyntaxError ([None]) on an ill-formed pattern, and the match
    of a [$regex] condition against a string field. *)
Context {regexp : Type}.
Variable RegExp : jsstring -> option regexp.
Variable regexp_matches : regexp -> jsstring -> bool.

(** [new Fuse(list, { keys: ['file_name'], threshold: 0.4,
    includeScore: true }).search(query)], ranked best first. *)
Variable fuse_search : list ContentRecord -> jsstring -> list FuseResult.

(** [String.prototype.toLowerCase]. *)
Variable toLowerCase : jsstring -> jsstring.

(** Which store calls fail, and the time [new Date()] reads. *)
Variable fails : store_call -> bool.
Variable now : Z.

Fixpoint compile_all (patterns : list jsstring) : completion (list regexp) :=
  match patterns with
  | [] => Normal []
  | p :: ps =>
      match RegExp p with
      | Some r =>
          match compile_all ps with
          | Normal rs => Normal (r :: rs)
          | Throw e => Throw e
          end
      | None => Throw SyntaxError
      end
  end.

(** A record satisfies the conjunction of the conditions; no condition
    is the query [{}], which every record satisfies. *)
Definition satisfies (conditions : list regexp) (d : ContentRecord) : bool :=
  forallb (fun r => regexp_matches r (file_name d)) conditions.

(** [filesCollection.find(q).sort({ _id: -1 }).skip(skip).limit(limit)
    .toArray()]. *)
Definition find_sorted (call : store_call) (patterns : list jsstring)
    (conditions : list regexp) (skip limit : nat) : M (list ContentRecord) :=
  emit (EvFind call patterns skip limit);;
  if fails call then throw StoreError
  else fun w =>
    {| outcome := Normal (take limit (drop skip (sort_desc
                    (List.filter (satisfies conditions) (filesCollection w)))));
       final := w;
       trace := [] |}.

(** [trendingCollection.updateOne({ query: key }, { $inc: { count: 1 },
    $set: { last_searched: new Date() } }, { upsert: true })]. *)
Definition trending_updateOne (key : jsstring) : M unit :=
  emit (EvTrendingUpdate key);;
  if fails UpdateTrending then throw StoreError
  else fun w =>
    let old := match trendingCollection w !! key with
               | Some d => count d
               | None => 0
               end in
    {| outcome := Normal tt;
       final := {| filesCollection := filesCollection w;
                   trendingCollection :=
                     <[key := {| count := old + 1; last_searched := now |}]>
                       (trendingCollection w) |};
       trace := [] |}.

(** [trackSearch(query)]. *)
Definition trackSearch (query : jsstring) : M unit :=
  if bool_decide (query = []) || (length query <? 3)%nat then mret tt
  else try_catch (trending_updateOne (toLowerCase query)) (fun _ => mret tt).

Definition fuse (allFiles : list ContentRecord) (query : jsstring)
  : M (list FuseResult) :=
  emit (EvFuseSearch query (length allFiles));;
  mret (fuse_search allFiles query).

(** The body of [searchFiles], inside its [try]. *)
Definition searchFiles_try (query : jsstring) (page : N) (filters : SearchFilters)
  : M SearchResult :=
  let skip := (N.to_nat page * RESULTS_PER_PAGE)%nat in
  patterns ← lift (compose query filters);
  conditions ← lift (compile_all patterns);
  results ← find_sorted FindPage patterns conditions skip (RESULTS_PER_PAGE + 1);
  let hasMore := (RESULTS_PER_PAGE <? length results)%nat in
  let files := if hasMore then slice 0 RESULTS_PER_PAGE results else results in
  if (length files =? 0)%nat && negb (bool_decide (query = []))
     && negb (truthy (file_lang filters)) && negb (truthy (year filters))
  then
    allFiles ← find_sorted FindRecent [] [] 0 1000;
    fuzzyResults ← fuse allFiles query;
    let fuzzyFiles := map item (slice skip (skip + RESULTS_PER_PAGE) fuzzyResults) in
    mret {| files := fuzzyFiles;
            hasNext := (skip + RESULTS_PER_PAGE <? length fuzzyResults)%nat;
            hasPrev := (0 <? page)%N;
            currentPage := page;
            isFuzzy := true |}
  else
    (if negb (bool_decide (query = [])) && (page =? 0)%N
        && negb (truthy (file_lang filters)) && negb (truthy (year filters))
        && negb (truthy (quality filters))
     then trackSearch query else mret tt);;
    mret {| files := files;
            hasNext := hasMore;
            hasPrev := (0 <? page)%N;
            currentPage := page;
            isFuzzy := false |}.

Definition empty_result : SearchResult :=
  {| files := []; hasNext := false; hasPrev := false; currentPage := 0%N;
     isFuzzy := false |}.

(** [searchFiles(query, page, filters)]. *)
Definition searchFiles (query : jsstring) (page : N) (filters : SearchFilters)
  : M SearchResult :=
  try_catch (searchFiles_try query page filters) (fun _ => mret empty_result).
End Executor.

(** ** Batch-range links: the [/link] command *)

Record PostInfo := {
  chatId : jsstring;
  messageId : number
}.

Definition slash : N := 47%N.

(** [url.replace(/\/$/, '')]: one slash at the very end is removed. *)
Definition strip_trailing_slash (url : jsstring) : jsstring :=
  match last url with
  | Some c => if (c =? slash)%N then removelast url else url
  | None => url
  end.

(** [s.startsWith(prefix)]. *)
Fixpoint startsWith (prefix s : jsstring) : bool :=
  match prefix, s with
  | [], _ => true
  | _ :: _, [] => false
  | a :: prefix', b :: s' => (a =? b)%N && startsWith prefix' s'
  end.

(** [parsePostUrl(url)]; [None] is [null].  Only [NaN] is refused as a
    message id: an infinity passes [isNaN].  With no part left for the
    chat, [lastPart.startsWith] throws, which the function catches. *)
Definition parsePostUrl (url : jsstring) : option PostInfo :=
  match url with
  | [] => None
  | _ =>
      let parts := split slash (strip_trailing_slash url) in
      let messageId := parseInt_val (from_option JStr JUndefined (last parts)) in
      if isNaN messageId then None
      else
        let parts1 := removelast parts in
        match last parts1 with
        | None => None
        | Some lastPart =>
            let parts2 := removelast parts1 in
            let chatId :=
              if bool_decide (last parts2 = Some (lit "c")) then lit "-100" ++ lastPart
              else if startsWith (lit "@") lastPart then lastPart
              else lit "@" ++ lastPart in
            Some {| chatId := chatId; messageId := messageId |}
        end
  end.

(** The record the command serializes with [JSON.stringify] and encodes
    in base64url.  [JSON.stringify] writes a number that is not finite
    as [null]. *)
Record RangePayload := {
  c : jsstring;
  s : number;
  e : number
}.

Inductive link_reply :=
| LinkIgnored
| LinkUsage
| LinkInvalidStart
| LinkRangeTooLarge
| LinkCreated (payload : RangePayload) (count : number).

(** The handler of [/link], from the text of the message. *)
Definition link_command (isAdmin : bool) (text : jsstring) : link_reply :=
  if negb isAdmin then LinkIgnored
  else
    let args := drop 1 (split 32%N text) in
    match args with
    | [] => LinkUsage
    | arg0 :: _ =>
        match parsePostUrl arg0 with
        | None => LinkInvalidStart
        | Some startInfo =>
            let endId :=
              match args !! 1%nat with
              | Some (ch :: rest) =>
                  match parsePostUrl (ch :: rest) with
                  | Some endInfo => messageId endInfo
                  | None => messageId startInfo
                  end
              | _ => messageId startInfo
              end in
            let startId := Math_min (messageId startInfo) endId in
            let finalEndId := Math_max (messageId startInfo) endId in
            if num_lt 100 (num_sub finalEndId startId) then LinkRangeTooLarge
            else LinkCreated {| c := chatId startInfo; s := startId; e := finalEndId |}
                             (num_add (num_sub finalEndId startId) 1)
        end
    end.

(** ** Ephemeral delivery: what the auto-delete timers do *)

(** The chat transport when a timer fires: which deletions succeed, and
    the handle of the notice it sends, if the send succeeds. *)
Record Transport := {
  delete_ok : Z -> Z -> bool;
  notice_id : option Z
}.

Inductive delivery_event :=
| EvDelete (chat msg : Z) (ok : bool)
| EvNotice (chat : Z) (sent : option Z)
| EvArmDelete (delay_ms : Z) (chat msg : Z).

(** [const m = await send(...); setTimeout(() => deleteMessage(chat,
    m.message_id).catch(() => {}), delay)]: nothing is armed when the send
    fails. *)
Definition notify_and_arm (tg : Transport) (chat delay_ms : Z) : list delivery_event :=
  match notice_id tg with
  | Some n => [EvNotice chat (Some n); EvArmDelete delay_ms chat n]
  | None => [EvNotice chat None]
  end.

(** [for (const msgId of sentMessages) { try { await deleteMessage(...) }
    catch (e) { } }]. *)
Definition delete_each (tg : Transport) (chat : Z) (sentMessages : list Z)
  : list delivery_event :=
  map (fun m => EvDelete chat m (delete_ok tg chat m)) sentMessages.

(** The callback [sendFile] arms: a failed deletion skips the notice. *)
Definition sendFile_expire (tg : Transport) (chat msg : Z) : list delivery_event :=
  if delete_ok tg chat msg
  then EvDelete chat msg true :: notify_and_arm tg chat 10000
  else [EvDelete chat msg false].

(** The callback of [getall_]. *)
Definition getall_expire (tg : Transport) (user : Z) (sentMessages : list Z)
  : list delivery_event :=
  delete_each tg user sentMessages ++ notify_and_arm tg user 10000.

(** The callback of [handleStatelessBatch]. *)
Definition handleStatelessBatch_expire (tg : Transport) (user : Z)
    (sentMessages : list Z) : list delivery_event :=
  delete_each tg user sentMessages ++ notify_and_arm tg user 10000.

(** The callback of [handleDumpBatch]. *)
Definition handleDumpBatch_expire (tg : Transport) (user : Z) (sentMessages : list Z)
  : list delivery_event :=
  delete_each tg user sentMessages ++ notify_and_arm tg user 8000.

(** The callback of [gall:]. *)
Definition gall_expire (tg : Transport) (user : Z) (sentMessages : list Z)
  : list delivery_event :=
  delete_each tg user sentMessages ++ notify_and_arm tg user 5000.

Record Timer := {
  delay_ms : Z;
  callback : Transport -> list delivery_event
}.

(** What each delivery path arms once it has sent its messages. *)
Definition sendFile_timer (chat msg : Z) : option Timer :=
  Some {| delay_ms := AUTO_DELETE_SECONDS * 1000;
          callback := fun tg => sendFile_expire tg chat msg |}.

Definition getall_timer (user : Z) (sentMessages : list Z) : option Timer :=
  Some {| delay_ms := AUTO_DELETE_SECONDS * 1000;
          callback := fun tg => getall_expire tg user sentMessages |}.

Definition handleStatelessBatch_timer (user : Z) (sentMessages : list Z) : option Timer :=
  match sentMessages with
  | [] => None
  | _ => Some {| delay_ms := AUTO_DELETE_SECONDS * 1000;
                 callback := fun tg => handleStatelessBatch_expire tg user sentMessages |}
  end.

Definition handleDumpBatch_timer (user : Z) (sentMessages : list Z) : option Timer :=
  match sentMessages with
  | [] => None
  | _ => Some {| delay_ms := AUTO_DELETE_SECONDS * 1000;
                 callback := fun tg => handleDumpBatch_expire tg user sentMessages |}
  end.

Definition gall_timer (user : Z) (sentMessages : list Z) : option Timer :=
  match sentMessages with
  | [] => None
  | _ => Some {| delay_ms := AUTO_DELETE_SECONDS * 1000;
                 callback := fun tg => gall_expire tg user sentMessages |}
  end.

(** The notices a callback sent and the deletions of a notice it armed. *)
Definition notices (t : list delivery_event) : list (option Z) :=
  omap (fun ev => match ev with EvNotice _ n => Some n | _ => None end) t.

Definition armed (t : list delivery_event) : list (Z * Z) :=
  omap (fun ev => match ev with EvArmDelete d _ m => Some (d, m) | _ => None end) t.

Definition reliable (n : Z) : Transport :=
  {| delete_ok := fun _ _ => true; notice_id := Some n |}.

(** ** Vocabulary of the codecs' properties *)

(** The value of a run of decimal digits read after [a]. *)
Definition dec_value (a : N) (ds : jsstring) : N :=
  fold_left (fun acc c => (10 * acc + (c - 48))%N) ds a.

(** The characters Number::toString writes: digits, a sign, the point
    and the [e] of the exponent form, and the letters of [Infinity] and
    [NaN]. *)
Definition numeral_char (c : N) : Prop := is_digit c \/ c ∈ lit "-+.eInfityNa".

(** The integers a number holds exactly whatever the arithmetic: those
    below 2^53 in magnitude. *)
Definition safe_integer (z : Z) : Prop := - 2 ^ 53 < z < 2 ^ 53.

(** What a field value needs to survive a delimited token: it is truthy,
    it is not the placeholder, and it holds no delimiter. *)
Definition wire_safe (sep : N) (s : jsstring) : Prop :=
  s <> [] /\ s <> placeholder /\ sep ∉ s.

#[local] Instance wire_safe_dec sep s : Decision (wire_safe sep s).
Proof. unfold wire_safe. apply _. Defined.

Definition field_safe (sep : N) (v : jsval) : Prop :=
  match v with
  | JStr s => wire_safe sep s
  | _ => True
  end.

(** A Unicode scalar value: a code point that is not a surrogate. *)
Definition scalar (cp : N) : Prop := (cp < 55296 \/ 57343 < cp <= 1114111)%N.

(** What an encoded component is made of: unreserved characters and
    escapes. *)
Definition component_char (u : N) : Prop :=
  uri_unreserved u = true \/ u = percent \/ (exists d, (d < 16)%N /\ u = hex_upper d).

(** Text of ASCII characters only. *)
Definition ascii (s : jsstring) : Prop := Forall (fun u => (u < 128)%N) s.

(** What a field value needs to survive the share link: it is safe
    between bars, it is ASCII and it holds no escape. *)
Definition share_safe (s : jsstring) : Prop :=
  wire_safe bar s /\ ascii s /\ percent ∉ s.

#[local] Instance share_safe_dec s : Decision (share_safe s).
Proof. unfold share_safe, ascii. apply _. Defined.

Definition field_share_safe (v : jsval) : Prop :=
  match v with
  | JStr s => share_safe s
  | _ => True
  end.

(** ** Vocabulary of the composer's properties *)

(** Text read as itself: one literal token for each character. *)
Definition literal_tokens (s : jsstring) : list token := map KChar s.

Definition literal_terms (s : jsstring) : list term :=
  map (fun c => TAtom (ALit c) QOne) s.

Fixpoint join_tokens (parts : list (list token)) : list token :=
  match parts with
  | [] => []
  | [p] => p
  | p :: ps => p ++ [KBar] ++ join_tokens ps
  end.

(** The tokens the language condition is expected to read as. *)
Definition expected_language_tokens (code : jsstring) : list token :=
  if bool_decide (code = lit "MU") then join_tokens (map literal_tokens MULTI_KEYWORDS)
  else match LANGUAGES_get code with
       | OwnString langName =>
           literal_tokens langName ++ [KBar; KWordB] ++ literal_tokens code ++ [KWordB]
       | _ => literal_tokens code
       end.

(** The tokens of the conditions, every character of the query, of the
    language code, of the year and of the quality tag being a literal. *)
Definition expected_tokens (query : jsstring) (filters : SearchFilters)
  : list (list token) :=
  (match query with [] => [] | _ => [literal_tokens query] end)
  ++ (match file_lang filters with
      | JStr (c :: s) => [expected_language_tokens (c :: s)]
      | _ => []
      end)
  ++ (match year filters with
      | JStr (c :: s) => [[KWordB] ++ literal_tokens (c :: s) ++ [KWordB]]
      | _ => []
      end)
  ++ (match quality filters with
      | JStr (c :: s) => [literal_tokens (c :: s)]
      | _ => []
      end).

(** A year of the data model: absent, or a string of decimal digits. *)
Definition year_of_digits (v : jsval) : Prop :=
  match v with
  | JStr s => Forall is_digit s
  | _ => True
  end.

(** [subject] holds [text] as a substring, up to the case folding. *)
Definition contains_folded (canonicalize : N -> N) (subject text : jsstring) : Prop :=
  exists pre mid post,
    subject = pre ++ mid ++ post /\ map canonicalize mid = map canonicalize text.

(** Tokens read before the rest of a pattern. *)
Definition prepend (ts : list token) (l : lexed) : lexed :=
  match l with
  | Lexed ts' => Lexed (ts ++ ts')
  | other => other
  end.

(** ** Vocabulary of the executor's properties *)

Section ExecutorVocabulary.
Context {regexp : Type}.
Variable compose : jsstring -> SearchFilters -> completion (list jsstring).
Variable RegExp : jsstring -> option regexp.
Variable regexp_matches : regexp -> jsstring -> bool.

Definition page_skip (page : N) : nat := (N.to_nat page * RESULTS_PER_PAGE)%nat.

(** The records the page query returns: page size plus one at most. *)
Definition fetched (conditions : list regexp) (page : N) (w : World)
  : list ContentRecord :=
  take (RESULTS_PER_PAGE + 1) (drop (page_skip page) (sort_desc
    (List.filter (satisfies regexp_matches conditions) (filesCollection w)))).

Definition trimmed (results : list ContentRecord) : list ContentRecord :=
  if (RESULTS_PER_PAGE <? length results)%nat
  then slice 0 RESULTS_PER_PAGE results else results.

(** The working set of the fallback: the 1000 most recent records. *)
Definition recent (w : World) : list ContentRecord :=
  take 1000 (drop 0 (sort_desc
    (List.filter (satisfies regexp_matches []) (filesCollection w)))).

(** The exact (trimmed) result of a search, when the conditions are
    well-formed and the page query succeeds. *)
Definition exact_result (fails : store_call -> bool) (query : jsstring)
    (page : N) (filters : SearchFilters) (w : World)
  : option (list ContentRecord) :=
  match compose query filters with
  | Normal patterns =>
      match compile_all RegExp patterns with
      | Normal conditions =>
          if fails FindPage then None
          else Some (trimmed (fetched conditions page w))
      | Throw _ => None
      end
  | Throw _ => None
  end.
End ExecutorVocabulary.

(** The fallback was triggered: its working set was requested. *)
Definition fallback_triggered (t : list event) : Prop :=
  exists patterns skip limit, EvFind FindRecent patterns skip limit ∈ t.

(** The fuzzy matcher ran. *)
Definition matcher_ran (t : list event) : Prop :=
  exists query n, EvFuseSearch query n ∈ t.

(** How often the trending counter of [key] was asked to increment. *)
Definition trending_updates (key : jsstring) (t : list event) : nat :=
  length (List.filter (fun ev => match ev with
                                 | EvTrendingUpdate k => bool_decide (k = key)
                                 | _ => false
                                 end) t).

Definition counter (w : World) (key : jsstring) : Z :=
  match trendingCollection w !! key with
  | Some d => count d
  | None => 0
  end.

Section ExecutorPaths.
Context {regexp : Type}.
Variable regexp_matches : regexp -> jsstring -> bool.
Variable fuse_search : list ContentRecord -> jsstring -> list FuseResult.
Variable now : Z.

(** The condition of the fallback branch. *)
Definition fallback_due (q : jsstring) (f : SearchFilters)
    (files : list ContentRecord) : bool :=
  (length files =? 0)%nat && negb (bool_decide (q = []))
  && negb (truthy (file_lang f)) && negb (truthy (year f)).

(** The condition of the call to [trackSearch]. *)
Definition tracking_due (q : jsstring) (p : N) (f : SearchFilters) : bool :=
  negb (bool_decide (q = [])) && (p =? 0)%N
  && negb (truthy (file_lang f)) && negb (truthy (year f))
  && negb (truthy (quality f)).

(** The page of the ranked fuzzy matches of the working set. *)
Definition fuzzy_page (q : jsstring) (p : N) (w : World) : SearchResult :=
  let ranked := fuse_search (recent regexp_matches w) q in
  {| files := map item (slice (page_skip p) (page_skip p + RESULTS_PER_PAGE) ranked);
     hasNext := (page_skip p + RESULTS_PER_PAGE <? length ranked)%nat;
     hasPrev := (0 <? p)%N;
     currentPage := p;
     isFuzzy := true |}.

Definition exact_page (results : list ContentRecord) (p : N) : SearchResult :=
  {| files := trimmed results;
     hasNext := (RESULTS_PER_PAGE <? length results)%nat;
     hasPrev := (0 <? p)%N;
     currentPage := p;
     isFuzzy := false |}.

(** The store after one increment-and-set-timestamp of [key]. *)
Definition bump (key : jsstring) (w : World) : World :=
  {| filesCollection := filesCollection w;
     trendingCollection :=
       <[key := {| count := counter w key + 1; last_searched := now |}]>
         (trendingCollection w) |}.
End ExecutorPaths.

Section ExecutorFaults.
Context {regexp : Type}.
Variable compose : jsstring -> SearchFilters -> completion (list jsstring).
Variable RegExp : jsstring -> option regexp.
Variable regexp_matches : regexp -> jsstring -> bool.
Variable fails : store_call -> bool.

(** The search ends in its [catch]: a condition is ill-formed, the page
    query fails, or the fallback is due and its query fails. *)
Definition search_faulted (q : jsstring) (p : N) (f : SearchFilters) (w : World)
  : Prop :=
  match exact_result compose RegExp regexp_matches fails q p f w with
  | None => True
  | Some files => fallback_due q f files = true /\ fails FindRecent = true
  end.
End ExecutorFaults.

(** ** A concrete environment, for the examples *)

Definition ascii_upper (c : N) : N :=
  if ((97 <=? c) && (c <=? 122))%N then (c - 32)%N else c.

Definition ascii_lower (c : N) : N :=
  if ((65 <=? c) && (c <=? 90))%N then (c + 32)%N else c.

(** The engine of the fragment; a pattern outside it is refused. *)
Definition fragment_RegExp (pattern : jsstring) : option regex :=
  match RegExp_i pattern with
  | Compiled r => Some r
  | _ => None
  end.

(** A matcher that accepts every candidate, in the order given. *)
Definition accept_all (candidates : list ContentRecord) (query : jsstring)
  : list FuseResult :=
  imap (fun i d => {| item := d; refIndex := i |}) candidates.

Definition example_search (fails : store_call -> bool) :=
  searchFiles condition_patterns fragment_RegExp (regexp_test ascii_upper) accept_all
    (map ascii_lower) fails 1700000000.

Definition no_filters : SearchFilters :=
  {| file_lang := JUndefined; year := JUndefined; quality := JUndefined |}.

Definition example_record (id name : string) : ContentRecord :=
  {| _id := lit id; file_ref := JNull; file_name := lit name;
     file_size := 700; file_type := lit "video" |}.

Definition example_world : World :=
  {| filesCollection :=
       [ example_record "BQAC1" "Inception 2010 720p";
         example_record "BQAC3" "Interstellar 2014 1080p";
         example_record "BQAC2" "Inception.2010.4K" ];
     trendingCollection := ∅ |}.

Definition always_fails (c : store_call) : bool := true.
Definition never_fails (c : store_call) : bool := false.

(** Only the query for the working set of the fallback fails, and only
    the update of the trending counter. *)
Definition working_set_fails (c : store_call) : bool :=
  match c with
  | FindRecent => true
  | _ => false
  end.

Definition trending_fails (c : store_call) : bool :=
  match c with
  | UpdateTrending => true
  | _ => false
  end.

Definition only_4K : SearchFilters :=
  {| file_lang := JUndefined; year := JNull; quality := JStr (lit "4K") |}.


(** ** The result keyboard and the filter menus

    A button is modelled by what it is for and by the callback data or
    the URL it carries; the text of its label is presentation, and is
    kept only where it names the value the button applies.  In the
    handlers of this part and of the following ones the replies of the
    bot are taken to reach the chat; the calls whose failure the code
    handles (a copy, a store call, a forward) can fail. *)

Inductive button_kind :=
| BLanguageMenu
| BYearMenu
| BQualityMenu
| BFile (file : ContentRecord)
| BPrev
| BNext
| BGetAll
| BSharePage
| BClearFilters
| BApply (label : jsstring)
| BYearsPrev
| BYearsNext
| BBack
| BWebPrev
| BWebNext
| BClose.

Record button := {
  btn_kind : button_kind;
  btn_data : jsstring
}.

(** [isAdmin(userId)]. *)
Definition isAdmin (ADMIN_IDS : list Z) (userId : Z) : bool :=
  bool_decide (userId ∈ ADMIN_IDS).

(** [userId && isAdmin(userId)], [userId] being a number or [null]. *)
Definition admin_user (ADMIN_IDS : list Z) (userId : option Z) : bool :=
  match userId with
  | Some u => negb (u =? 0) && isAdmin ADMIN_IDS u
  | None => false
  end.

(** [generateKeyboard(files, query, page, hasNext, hasPrev, filters,
    userId)]; [username] is [bot.botInfo.username]. *)
Definition generateKeyboard (username : jsstring) (ADMIN_IDS : list Z)
    (files : list ContentRecord) (page : Z) (hasNext hasPrev : bool)
    (filters : SearchFilters) (userId : option Z) : list (list button) :=
  let state := serializeFilters page filters in
  let rest := join [colon] (drop 1 (split colon state)) in
  let paginationRow :=
    (if hasPrev
     then [ {| btn_kind := BPrev;
               btn_data := lit "p:" ++ number_to_string (page - 1) ++ [colon] ++ rest |} ]
     else [])
    ++ (if hasNext
        then [ {| btn_kind := BNext;
                  btn_data := lit "p:" ++ number_to_string (page + 1) ++ [colon] ++ rest |} ]
        else []) in
  [ [ {| btn_kind := BLanguageMenu; btn_data := lit "f:lang:" ++ state |};
      {| btn_kind := BYearMenu; btn_data := lit "f:year:" ++ state |};
      {| btn_kind := BQualityMenu; btn_data := lit "f:qual:" ++ state |} ] ]
  ++ map (fun file =>
            [ {| btn_kind := BFile file;
                 btn_data := lit "https://t.me/" ++ username ++ lit "?start=file_"
                               ++ or_else (file_ref file) (_id file) |} ]) files
  ++ (match paginationRow with [] => [] | _ => [paginationRow] end)
  ++ (match files with
      | [] => []
      | _ => [ {| btn_kind := BGetAll; btn_data := lit "gall:" ++ state |}
               :: (if admin_user ADMIN_IDS userId
                   then [ {| btn_kind := BSharePage; btn_data := lit "s:" ++ state |} ]
                   else []) ]
      end)
  ++ (if truthy (file_lang filters) || truthy (year filters) || truthy (quality filters)
      then [ [ {| btn_kind := BClearFilters; btn_data := lit "p:0:-:-:-" |} ] ]
      else []).

(** [{ ...filters, file_lang: code }] and its siblings. *)
Definition with_file_lang (filters : SearchFilters) (code : jsstring) : SearchFilters :=
  {| file_lang := JStr code; year := year filters; quality := quality filters |}.

Definition with_year (filters : SearchFilters) (y : jsstring) : SearchFilters :=
  {| file_lang := file_lang filters; year := JStr y; quality := quality filters |}.

Definition with_quality (filters : SearchFilters) (q : jsstring) : SearchFilters :=
  {| file_lang := file_lang filters; year := year filters; quality := JStr q |}.

(** A button that applies a filter: [fapl:] and the token of page 0. *)
Definition apply_button (label : jsstring) (filters : SearchFilters) : button :=
  {| btn_kind := BApply label; btn_data := lit "fapl:" ++ serializeFilters 0 filters |}.

(** [LANGUAGES[code]] as a label. *)
Definition language_label (code : jsstring) : jsstring :=
  match LANGUAGES_get code with
  | OwnString name => name
  | _ => lit "undefined"
  end.

(** The rows of the language menu: [for (i = 0; i < langCodes.length;
    i += 2)], the second button of a row when [langCodes[i + 1]] is
    truthy. *)
Fixpoint language_rows (filters : SearchFilters) (langCodes : list jsstring)
  : list (list button) :=
  match langCodes with
  | [] => []
  | code :: rest =>
      let first := apply_button (language_label code) (with_file_lang filters code) in
      match rest with
      | [] => [[first]]
      | code' :: rest' =>
          (first :: if truthy (JStr code')
                    then [apply_button (language_label code') (with_file_lang filters code')]
                    else [])
          :: language_rows filters rest'
      end
  end.

Definition quality_rows (filters : SearchFilters) : list (list button) :=
  map (fun q => [apply_button q (with_quality filters q)]) quality_menu.

Definition back_row (state : jsstring) : list button :=
  [ {| btn_kind := BBack; btn_data := lit "p:" ++ state |} ].

(** The rows of a page of the year menu: [for (i = 0; i <
    yearSlice.length; i += 3)]. *)
Fixpoint year_rows (filters : SearchFilters) (yearSlice : list jsstring)
  : list (list button) :=
  match yearSlice with
  | [] => []
  | y0 :: rest0 =>
      let b0 := apply_button y0 (with_year filters y0) in
      match rest0 with
      | [] => [[b0]]
      | y1 :: rest1 =>
          let b1 := if truthy (JStr y1) then [apply_button y1 (with_year filters y1)]
                    else [] in
          match rest1 with
          | [] => [b0 :: b1]
          | y2 :: rest2 =>
              (b0 :: b1 ++ (if truthy (JStr y2)
                            then [apply_button y2 (with_year filters y2)]
                            else []))
              :: year_rows filters rest2
          end
      end
  end.

(** [showYearMenu(ctx, yrPage, state)]: the keyboard it sends. *)
Definition showYearMenu (currentYear : Z) (yrPage : nat) (state : jsstring)
  : list (list button) :=
  let filters := filters (deserializeFilters state) in
  let yearsPerPage := 12%nat in
  let startIdx := (yrPage * yearsPerPage)%nat in
  let yearSlice := slice startIdx (startIdx + yearsPerPage) (YEARS currentYear) in
  let navRow :=
    (if (0 <? yrPage)%nat
     then [ {| btn_kind := BYearsPrev;
               btn_data := lit "yrm:" ++ number_to_string (Z.of_nat yrPage - 1)
                             ++ [colon] ++ state |} ]
     else [])
    ++ (if (startIdx + yearsPerPage <? length (YEARS currentYear))%nat
        then [ {| btn_kind := BYearsNext;
                  btn_data := lit "yrm:" ++ number_to_string (Z.of_nat yrPage + 1)
                                ++ [colon] ++ state |} ]
        else []) in
  year_rows filters yearSlice
  ++ (match navRow with [] => [] | _ => [navRow] end)
  ++ [back_row state].

Inductive menu_type := MenuLang | MenuYear | MenuQual.

(** The handler of the [f:] buttons: the keyboard of the menu it opens,
    from the type and the state token of the button. *)
Definition filter_menu (currentYear : Z) (type : menu_type) (state : jsstring)
  : list (list button) :=
  let filters := filters (deserializeFilters state) in
  match type with
  | MenuLang => language_rows filters language_codes ++ [back_row state]
  | MenuYear => showYearMenu currentYear 0 state
  | MenuQual => quality_rows filters ++ [back_row state]
  end.

(** ** Text helpers *)

(** The character class of [escapeMarkdown]:
    [[_*[\]()~`>#+\-=|{}.!]]. *)
Definition escapeMarkdown_class : jsstring := lit "_*[]()~`>#+-=|{}.!".

Fixpoint escapeMarkdown_text (text : jsstring) : jsstring :=
  match text with
  | [] => []
  | ch :: text' =>
      if bool_decide (ch ∈ escapeMarkdown_class)
      then backslash :: ch :: escapeMarkdown_text text'
      else ch :: escapeMarkdown_text text'
  end.

(** [escapeMarkdown(text)]: the empty string for a falsy argument. *)
Definition escapeMarkdown (text : jsval) : jsstring :=
  match text with
  | JStr (ch :: text') => escapeMarkdown_text (ch :: text')
  | _ => []
  end.

(** [getUptime()], from the two clock readings. *)
Definition uptime_days (uptimeMs : Z) : Z := uptimeMs / (1000 * 60 * 60 * 24).

Definition uptime_hours (uptimeMs : Z) : Z :=
  Z.rem uptimeMs (1000 * 60 * 60 * 24) / (1000 * 60 * 60).

Definition uptime_minutes (uptimeMs : Z) : Z :=
  Z.rem uptimeMs (1000 * 60 * 60) / (1000 * 60).

Definition getUptime (now BOT_START_TIME : Z) : jsstring :=
  let uptimeMs := now - BOT_START_TIME in
  number_to_string (uptime_days uptimeMs) ++ lit "d "
  ++ number_to_string (uptime_hours uptimeMs) ++ lit "h "
  ++ number_to_string (uptime_minutes uptimeMs) ++ lit "m".

(** [s.replace(/c/g, by)] for a single character [c]. *)
Definition replace_char (ch : N) (by_ : jsstring) (text : jsstring) : jsstring :=
  flat_map (fun u => if (u =? ch)%N then by_ else [u]) text.

(** The escaping [sendWebResults] applies to a title and to a label. *)
Definition html_safe (text : jsstring) : jsstring :=
  replace_char 62 (lit "&gt;") (replace_char 60 (lit "&lt;")
    (replace_char 38 (lit "&amp;") text)).

(** The navigation of [sendWebResults(ctx, searchId, page)] over
    [totalPages] cached topics: [None] when the page is out of range and
    nothing is sent. *)
Definition sendWebResults_buttons (searchId : jsstring) (page totalPages : Z)
  : option (list (list button)) :=
  if (page <? 0) || (totalPages <=? page) then None
  else
    let navRow :=
      (if 0 <? page
       then [ {| btn_kind := BWebPrev;
                 btn_data := lit "wsrp:" ++ searchId ++ [colon]
                               ++ number_to_string (page - 1) |} ]
       else [])
      ++ (if page <? totalPages - 1
          then [ {| btn_kind := BWebNext;
                    btn_data := lit "wsrp:" ++ searchId ++ [colon]
                                  ++ number_to_string (page + 1) |} ]
          else []) in
    Some ((match navRow with [] => [] | _ => [navRow] end)
          ++ [ [ {| btn_kind := BClose; btn_data := lit "close_search" |} ] ]).

(** ** Vocabulary of the keyboard's properties *)

(** A falsy filter value reads as absent. *)
Definition falsy_as_null (v : jsval) : jsval := if truthy v then v else JNull.

Definition present_filters (f : SearchFilters) : SearchFilters :=
  {| file_lang := falsy_as_null (file_lang f);
     year := falsy_as_null (year f);
     quality := falsy_as_null (quality f) |}.

Definition is_pagination (b : button) : bool :=
  match btn_kind b with
  | BPrev | BNext => true
  | _ => false
  end.

Definition is_apply (b : button) : bool :=
  match btn_kind b with
  | BApply _ => true
  | _ => false
  end.

Definition is_web_nav (b : button) : bool :=
  match btn_kind b with
  | BWebPrev | BWebNext => true
  | _ => false
  end.

(** The three replacements of [html_safe], as one pass over the text. *)
Definition html_entity (u : N) : jsstring :=
  if (u =? 38)%N then lit "&amp;"
  else if (u =? 60)%N then lit "&lt;"
  else if (u =? 62)%N then lit "&gt;"
  else [u].

(** What a field of a decoded state is: never the placeholder, and free
    of colons. *)
Definition decoded_field (v : jsval) : Prop :=
  v <> JStr placeholder /\ forall str, v = JStr str -> colon ∉ str.

(** ** Delivery of a batch-range link: [handleDumpBatch] *)

(** The values [JSON.parse] returns.  A number with a fractional part is
    given by the string Number::toString writes for it, and the members
    of an object hold each key once. *)
#[warnings="-register-all"]
Inductive json :=
| JsonNull
| JsonBool (b : bool)
| JsonNumber (x : number)
| JsonFraction (written : jsstring)
| JsonString (text : jsstring)
| JsonArray (items : list json)
| JsonObject (members : list (jsstring * json)).

(** ToString of such a value, which [parseInt] applies to its argument:
    an array is its elements joined with commas, a [null] among them as
    the empty string. *)
Fixpoint json_to_string (v : json) : jsstring :=
  match v with
  | JsonNull => lit "null"
  | JsonBool b => if b then lit "true" else lit "false"
  | JsonNumber x => number_to_string x
  | JsonFraction written => written
  | JsonString text => text
  | JsonArray items =>
      join (lit ",")
        (map (fun item => match item with
                          | JsonNull => []
                          | _ => json_to_string item
                          end) items)
  | JsonObject _ => lit "[object Object]"
  end.

(** [data.key] for the keys [c], [s] and [e], which only an object can
    hold; [None] is [undefined].  On [null] the access throws. *)
Definition get_member (data : json) (key : jsstring) : completion (option json) :=
  match data with
  | JsonNull => Throw TypeError
  | JsonObject members =>
      Normal (snd <$> List.find (fun m => bool_decide (m.1 = key)) members)
  | _ => Normal None
  end.

(** [parseInt(data.s)]: [undefined] reads as the string "undefined". *)
Definition parseInt_member (m : option json) : number :=
  parseInt (from_option json_to_string (lit "undefined") m).

(** What the handler finds around it: whether its first reply goes
    through, whether the user follows the sponsor channel and that
    channel is configured, whether the sponsor post is to be forwarded,
    what [isPremium] answers ([None] when the store fails), and what
    [copyMessage] gives for each message id of the chat of the payload.
    The forward of the sponsor post has its own [try] and its own timer,
    and changes nothing of what follows. *)
Record DumpEnv := {
  env_replied : bool;
  env_subscribed : bool;
  env_fsub : bool;
  env_monetized : bool;
  env_premium : option bool;
  env_copy : number -> option Z
}.

Inductive dump_outcome :=
| DumpCorrupted
| DumpRestricted
| DumpNothing (attempts : list (number * option Z))
| DumpDelivered (attempts : list (number * option Z)) (sentMessages : list Z)
    (timer : option Timer).

(** [for (let mid = start; mid <= end; mid++)]: each message id the loop
    reaches with what [copyMessage] gave for it; [None] when the loop is
    still running after [fuel] rounds. *)
Fixpoint copy_attempts (fuel : nat) (copyMessage : number -> option Z)
    (mid end_ : number) : option (list (number * option Z)) :=
  match fuel with
  | O => None
  | S fuel' =>
      if num_le mid end_ then
        match copy_attempts fuel' copyMessage (num_add mid 1) end_ with
        | Some attempts => Some ((mid, copyMessage mid) :: attempts)
        | None => None
        end
      else Some []
  end.

(** [handleDumpBatch(ctx, payload)] from what [JSON.parse] makes of the
    decoded payload, a [Throw] when it is no JSON text; [None] when the
    copy loop is still running after [fuel] rounds. *)
Definition handleDumpBatch_deliver (fuel : nat) (user : Z) (parsed : completion json)
    (env : DumpEnv) : option dump_outcome :=
  match parsed with
  | Throw _ => Some DumpCorrupted
  | Normal data =>
      match get_member data (lit "c"), get_member data (lit "s"),
            get_member data (lit "e") with
      | Normal chatId, Normal data_s, Normal data_e =>
          let start := parseInt_member data_s in
          let end_ := parseInt_member data_e in
          if isNaN start || isNaN end_ then Some DumpCorrupted
          else if negb (env_replied env) then Some DumpCorrupted
          else if negb (env_subscribed env) && env_fsub env then Some DumpRestricted
          else
            match (if env_monetized env then env_premium env else Some true) with
            | None => Some DumpCorrupted
            | Some _ =>
                match copy_attempts fuel (env_copy env) start end_ with
                | None => None
                | Some attempts =>
                    let sentMessages := omap snd attempts in
                    match sentMessages with
                    | [] => Some (DumpNothing attempts)
                    | _ => Some (DumpDelivered attempts sentMessages
                                   (handleDumpBatch_timer user sentMessages))
                    end
                end
            end
      | _, _, _ => Some DumpCorrupted
      end
  end.

(** [JSON.stringify] writes a number that is not finite as [null]. *)
Definition json_of_number (x : number) : json :=
  match x with
  | Num z => JsonNumber z
  | _ => JsonNull
  end.

(** What the payload of [/link] parses to: [JSON.parse] of
    [JSON.stringify] of a record of a string and two numbers. *)
Definition dump_data_of (payload : RangePayload) : completion json :=
  Normal (JsonObject [ (lit "c", JsonString (c payload));
                       (lit "s", json_of_number (s payload));
                       (lit "e", json_of_number (e payload)) ]).

(** The two ids [handleDumpBatch] reads from what the payload parsed
    to. *)
Definition dump_ids (data : json) : number * number :=
  match get_member data (lit "s"), get_member data (lit "e") with
  | Normal data_s, Normal data_e => (parseInt_member data_s, parseInt_member data_e)
  | _, _ => (NaN, NaN)
  end.

(** ** Sending a page of results: [sendSearchResults] *)

(** [s.includes(sub)]. *)
Fixpoint includes (text sub : jsstring) : bool :=
  startsWith sub text ||
  match text with
  | [] => false
  | _ :: text' => includes text' sub
  end.

(** What [sendSearchResults] sends: nothing, the "no results" reply, or
    the results message, new or edited in place, with its keyboard. *)
Inductive search_reply :=
| ReplyNothing
| ReplyNoResults
| ReplyResults (isEdit fuzzy : bool) (keyboard : list (list button)).

Section Handlers.
Variable compose : jsstring -> SearchFilters -> completion (list jsstring).
Context {regexp : Type}.
Variable RegExp : jsstring -> option regexp.
Variable regexp_matches : regexp -> jsstring -> bool.
Variable fuse_search : list ContentRecord -> jsstring -> list FuseResult.
Variable toLowerCase : jsstring -> jsstring.
Variable fails : store_call -> bool.
Variable now : Z.
Variable username : jsstring.
Variable ADMIN_IDS : list Z.

(** [sendSearchResults(ctx, query, page, filters, isEdit)], for a user
    [userId] in a chat that is private or not. *)
Definition sendSearchResults (private : bool) (userId : Z) (query : jsstring)
    (page : N) (filters : SearchFilters) (isEdit : bool) : M search_reply :=
  searchResult ← searchFiles compose RegExp regexp_matches fuse_search toLowerCase
                   fails now query page filters;
  let keyboard :=
    generateKeyboard username ADMIN_IDS (files searchResult) (Z.of_N page)
      (hasNext searchResult) (hasPrev searchResult) filters (Some userId) in
  if (length (files searchResult) =? 0)%nat && negb isEdit then
    if private || includes query (lit "movie") || includes query (lit "film")
    then mret ReplyNoResults
    else mret ReplyNothing
  else mret (ReplyResults isEdit (isFuzzy searchResult) keyboard).
End Handlers.

(** ** The catalog: indexing, lookup and deletion

    The natural order of the collection is the order of the list.  A
    stored record carries a [mime_type] and a [caption] as well, which
    no function of the program reads. *)

(** What [indexFile] is given. *)
Record FileData := {
  file_id : jsstring;
  file_unique_id : jsval;
  data_file_name : jsval;
  data_file_size : Z;
  data_file_type : jsval;
  data_caption : jsval
}.

(** The calls of the handlers to the catalog. *)
Inductive catalog_call :=
| CallFindOne
| CallInsertOne
| CallDeleteOne
| CallFind.

Inductive index_result :=
| IndexedOk
| AlreadyIndexed
| IndexFailed.

(** [{ _id: id }]. *)
Definition same_id (id : jsstring) (d : ContentRecord) : bool :=
  bool_decide (_id d = id).

(** [{ $or: [{ _id: fileId }, { file_ref: fileId }] }]. *)
Definition by_id_or_ref (fileId : jsstring) (d : ContentRecord) : bool :=
  bool_decide (_id d = fileId) || bool_decide (file_ref d = JStr fileId).

(** [deleteOne(q)]: the first record that matches goes. *)
Fixpoint remove_first (q : ContentRecord -> bool) (l : list ContentRecord)
  : list ContentRecord :=
  match l with
  | [] => []
  | d :: l' => if q d then l' else d :: remove_first q l'
  end.

Definition with_files (w : World) (l : list ContentRecord) : World :=
  {| filesCollection := l; trendingCollection := trendingCollection w |}.

Inductive send_kind := AsVideo | AsAudio | AsDocument.

(** What [sendFile] does: the "not found" reply, nothing but the log of
    its [catch], or the send of a record as a video, an audio or a
    document, after an attempt to forward the sponsor post when
    [sponsored]. *)
Inductive sendFile_reply :=
| FileNotFound
| FileFaulted
| FileSent (sponsored : bool) (file : ContentRecord) (kind : send_kind).

Inductive delete_reply :=
| DeleteIgnored
| DeleteFaulted
| DeleteMissing
| DeleteDone (file : ContentRecord).

(** The media of a post in the delete channel. *)
Record Media := {
  media_file_id : jsstring;
  media_file_unique_id : jsstring;
  media_file_name : jsval;
  media_file_size : Z
}.

Inductive channel_delete_reply :=
| ChannelFaulted
| ChannelDeletedById (file : ContentRecord)
| ChannelDeletedByName (file : ContentRecord)
| ChannelDeletedBySize (file : ContentRecord)
| ChannelAmbiguous (sameSize : nat)
| ChannelNoMatch.

Section Catalog.
(** Which calls to the catalog fail. *)
Variable cfails : catalog_call -> bool.

Definition findOne (q : ContentRecord -> bool) (w : World)
  : completion (option ContentRecord) :=
  if cfails CallFindOne then Throw StoreError
  else Normal (List.find q (filesCollection w)).

(** [insertOne(document)]: the [_id] of a collection is unique. *)
Definition insertOne (document : ContentRecord) (w : World) : completion World :=
  if cfails CallInsertOne || existsb (same_id (_id document)) (filesCollection w)
  then Throw StoreError
  else Normal (with_files w (filesCollection w ++ [document])).

Definition deleteOne (q : ContentRecord -> bool) (w : World) : completion World :=
  if cfails CallDeleteOne then Throw StoreError
  else Normal (with_files w (remove_first q (filesCollection w))).

(** The document [indexFile] builds. *)
Definition index_document (fileData : FileData) : ContentRecord :=
  {| _id := file_id fileData;
     file_ref := file_unique_id fileData;
     file_name := or_else (data_file_name fileData)
                    (or_else (data_caption fileData) (lit "Untitled Media"));
     file_size := data_file_size fileData;
     file_type := or_else (data_file_type fileData) (lit "document") |}.

(** [indexFile(fileData)]: its answer and the catalog it leaves. *)
Definition indexFile (fileData : FileData) (w : World) : index_result * World :=
  let document := index_document fileData in
  match findOne (same_id (_id document)) w with
  | Throw _ => (IndexFailed, w)
  | Normal (Some _) => (AlreadyIndexed, w)
  | Normal None =>
      match insertOne document w with
      | Throw _ => (IndexFailed, w)
      | Normal w' => (IndexedOk, w')
      end
  end.

(** [sendFile(ctx, fileId)]: the record it delivers and as what, after
    the sponsor post when that is due.  [monetized] is [IS_GROWTH_LOCK]
    with a sponsor channel and a last sponsor post, [premium] what
    [isPremium] answers, [None] when its lookup of the user fails: that
    failure ends in the [catch] of [sendFile], which sends nothing.  The
    forward of the sponsor post has its own [try]. *)
Definition sendFile (monetized : bool) (premium : option bool) (fileId : jsstring)
    (w : World) : sendFile_reply :=
  match findOne (by_id_or_ref fileId) w with
  | Throw _ => FileFaulted
  | Normal None => FileNotFound
  | Normal (Some file) =>
      let kind := if bool_decide (file_type file = lit "video") then AsVideo
                  else if bool_decide (file_type file = lit "audio") then AsAudio
                  else AsDocument in
      if monetized then
        match premium with
        | None => FileFaulted
        | Some userIsPremium => FileSent (negb userIsPremium) file kind
        end
      else FileSent false file kind
  end.

(** The handler of [delete_execute_<fileId>]. *)
Definition delete_execute (admin : bool) (fileId : jsstring) (w : World)
  : delete_reply * World :=
  if negb admin then (DeleteIgnored, w)
  else
    match findOne (by_id_or_ref fileId) w with
    | Throw _ => (DeleteFaulted, w)
    | Normal None => (DeleteMissing, w)
    | Normal (Some file) =>
        match deleteOne (same_id (_id file)) w with
        | Throw _ => (DeleteFaulted, w)
        | Normal w' => (DeleteDone file, w')
        end
    end.

(** The deletion a post in the delete channel asks for; [name_matches
    searchName] is the condition [{ $regex: new RegExp('^' +
    escapeRegex(searchName) + '$', 'i') }] on a file name. *)
Definition channel_delete (name_matches : jsstring -> jsstring -> bool)
    (media : Media) (caption : jsval) (w : World) : channel_delete_reply * World :=
  let fileId := media_file_id media in
  let fileRef := media_file_unique_id media in
  match findOne (fun d => by_id_or_ref fileId d || by_id_or_ref fileRef d) w with
  | Throw _ => (ChannelFaulted, w)
  | Normal (Some file) =>
      match deleteOne (same_id (_id file)) w with
      | Throw _ => (ChannelFaulted, w)
      | Normal w' => (ChannelDeletedById file, w')
      end
  | Normal None =>
      let searchName := or_else (media_file_name media) (or_else caption []) in
      match findOne (fun d => (file_size d =? media_file_size media)
                              && name_matches searchName (file_name d)) w with
      | Throw _ => (ChannelFaulted, w)
      | Normal (Some fallbackFile) =>
          match deleteOne (same_id (_id fallbackFile)) w with
          | Throw _ => (ChannelFaulted, w)
          | Normal w' => (ChannelDeletedByName fallbackFile, w')
          end
      | Normal None =>
          if cfails CallFind then (ChannelFaulted, w)
          else
            let sameSizeFiles :=
              List.filter (fun d => file_size d =? media_file_size media)
                (filesCollection w) in
            match sameSizeFiles with
            | [target] =>
                match deleteOne (same_id (_id target)) w with
                | Throw _ => (ChannelFaulted, w)
                | Normal w' => (ChannelDeletedBySize target, w')
                end
            | [] => (ChannelNoMatch, w)
            | _ => (ChannelAmbiguous (length sameSizeFiles), w)
            end
      end
  end.
End Catalog.

(** ** Deep links: the [/start] payload *)

(** [s.replace(pattern, '')] for a string pattern: its first occurrence
    is taken out. *)
Fixpoint remove_first_occurrence (pattern text : jsstring) : jsstring :=
  if startsWith pattern text then drop (length pattern) text
  else match text with
       | [] => []
       | ch :: text' => ch :: remove_first_occurrence pattern text'
       end.

(** What [bot.start] finds: what [checkUser] gives (it answers [false]
    in maintenance and to a banned user, and throws when its lookup or
    its reply fails), whether the user follows the sponsor channel and
    whether that channel is configured. *)
Record StartEnv := {
  start_checked : completion bool;
  start_subscribed : bool;
  start_fsub : bool
}.

Inductive start_route :=
| RouteStopped
| RouteJoinSponsor
| RouteFile (fileId : jsstring)
| RouteDump (payload : jsstring)
| RouteWelcome.

(** Where [bot.start] takes the user, from [ctx.startPayload].  Between
    the two gates [saveUser] runs, which catches its own failures. *)
Definition bot_start (env : StartEnv) (startPayload : jsval) : start_route :=
  match start_checked env with
  | Normal true =>
      if negb (start_subscribed env) && start_fsub env then RouteJoinSponsor
      else
        match startPayload with
        | JStr (ch :: rest) =>
            let payload := ch :: rest in
            if startsWith (lit "file_") payload
            then RouteFile (remove_first_occurrence (lit "file_") payload)
            else if startsWith (lit "get_") payload
            then RouteDump (remove_first_occurrence (lit "get_") payload)
            else RouteWelcome
        | _ => RouteWelcome
        end
  | _ => RouteStopped
  end.

(** The user is let through both gates of [bot.start]. *)
Definition start_admitted (env : StartEnv) : Prop :=
  start_checked env = Normal true /\
  (start_subscribed env = true \/ start_fsub env = false).

(** The referrer [bot.start] hands to [saveUser]; [None] is [null]. *)
Definition start_referrer (startPayload : jsval) : option number :=
  match startPayload with
  | JStr (ch :: rest) =>
      if startsWith (lit "ref_") (ch :: rest)
      then Some (parseInt (remove_first_occurrence (lit "ref_") (ch :: rest)))
      else None
  | _ => None
  end.

(** The deep link of a file button, and the link of the share
    handlers. *)
Definition link_id (file : ContentRecord) : jsstring :=
  or_else (file_ref file) (_id file).

Definition share_start_payload (payload : jsstring) : jsstring :=
  lit "search_" ++ payload.

(** The payload of the [share_page_] handler: the query and the page. *)
Definition legacy_share_payload (query : jsstring) (page : number) : completion jsstring :=
  match encodeURIComponent query with
  | Some encoded =>
      Normal (base64url_encode (Buffer_from (encoded ++ [bar] ++ number_to_string page)))
  | None => Throw URIError
  end.

(** ** Users and referrals: [saveUser] *)

Record UserDoc := {
  first_name : jsval;
  username_of : jsval;
  last_seen : Z;
  joined_at : option Z;
  referrals : option Z;
  referred_by : option Z;
  isPremium : bool;
  isBanned : bool
}.

Inductive users_call :=
| UsersFindOne
| UsersIncrement
| UsersUpsert.

Section Users.
Variable ufails : users_call -> bool.
Variable now : Z.

(** [updateOne({ user_id: referredBy }, { $inc: { referrals: 1 } })]: no
    document is made for a referrer who is not there. *)
Definition credit_referrer (referrer : Z) (users : gmap Z UserDoc) : gmap Z UserDoc :=
  match users !! referrer with
  | Some doc =>
      <[referrer := {| first_name := first_name doc; username_of := username_of doc;
                       last_seen := last_seen doc; joined_at := joined_at doc;
                       referrals := Some (default 0 (referrals doc) + 1);
                       referred_by := referred_by doc;
                       isPremium := isPremium doc; isBanned := isBanned doc |}]> users
  | None => users
  end.

(** [saveUser(user, referredBy)]: the users it leaves. *)
Definition saveUser (user_id : Z) (name uname : jsval) (referredBy : option Z)
    (users : gmap Z UserDoc) : gmap Z UserDoc :=
  if ufails UsersFindOne then users
  else
    match users !! user_id with
    | Some doc =>
        if ufails UsersUpsert then users
        else <[user_id := {| first_name := name; username_of := uname; last_seen := now;
                             joined_at := joined_at doc; referrals := referrals doc;
                             referred_by := referred_by doc;
                             isPremium := isPremium doc; isBanned := isBanned doc |}]> users
    | None =>
        let referrer :=
          match referredBy with
          | Some r => if negb (r =? 0) && negb (r =? user_id) then Some r else None
          | None => None
          end in
        let fresh := {| first_name := name; username_of := uname; last_seen := now;
                        joined_at := Some now; referrals := Some 0;
                        referred_by := referrer;
                        isPremium := false; isBanned := false |} in
        match referrer with
        | Some r =>
            if ufails UsersIncrement then users
            else if ufails UsersUpsert then credit_referrer r users
            else <[user_id := fresh]> (credit_referrer r users)
        | None =>
            if ufails UsersUpsert then users else <[user_id := fresh]> users
        end
    end.
End Users.

(** ** Vocabulary of the catalog's properties *)

(** No two records of the catalog share an [_id]. *)
Definition ids_unique (w : World) : Prop := NoDup (map _id (filesCollection w)).

Definition referral_count (users : gmap Z UserDoc) (uid : Z) : Z :=
  match users !! uid with
  | Some doc => default 0 (referrals doc)
  | None => 0
  end.

(** ** Batch indexing: [batchIndexFromChannel] *)

(** What a call to the transport gives: a result, an error whose
    [response.error_code] is 400, or another error. *)
Inductive transport_result (A : Type) :=
| TDone (a : A)
| TBadRequest
| TFailed.
Arguments TDone {A} a.
Arguments TBadRequest {A}.
Arguments TFailed {A}.

(** A forwarded message: its handle, and the data of its document,
    video or audio, if it has one, as [indexFile] is given them. *)
Record ChannelMessage := {
  message_id : Z;
  message_media : option FileData
}.

Record BatchCounts := {
  indexed : nat;
  duplicates : nat;
  errors : nat
}.

Definition count_indexed (n : BatchCounts) : BatchCounts :=
  {| indexed := S (indexed n); duplicates := duplicates n; errors := errors n |}.

Definition count_duplicate (n : BatchCounts) : BatchCounts :=
  {| indexed := indexed n; duplicates := S (duplicates n); errors := errors n |}.

Definition count_error (n : BatchCounts) : BatchCounts :=
  {| indexed := indexed n; duplicates := duplicates n; errors := S (errors n) |}.

(** A run of the loop: the counts, the catalog it leaves, and the
    message ids it asked the transport for, in order. *)
Record BatchRun := {
  batch_counts : BatchCounts;
  batch_world : World;
  batch_examined : list Z
}.

Definition examined_first (mid : Z) (r : BatchRun) : BatchRun :=
  {| batch_counts := batch_counts r; batch_world := batch_world r;
     batch_examined := mid :: batch_examined r |}.

Section BatchIndex.
Variable cfails : catalog_call -> bool.
Variable forwardMessage : Z -> transport_result ChannelMessage.
Variable deleteMessage : Z -> transport_result unit.
(** Whether building the progress update raises: it reads
    [ctx.message.message_id], and [ctx.message] is set for a message
    update only. *)
Variable progress_throws : bool.

(** The loop [for (let i = 0; i < 1000; i++)], [fuel] iterations being
    left. *)
Fixpoint batch_loop (fuel : nat) (currentMessageId : Z) (counts : BatchCounts)
    (w : World) : BatchRun :=
  match fuel with
  | O => {| batch_counts := counts; batch_world := w; batch_examined := [] |}
  | S fuel' =>
      let stop := {| batch_counts := counts; batch_world := w;
                     batch_examined := [currentMessageId] |} in
      match forwardMessage currentMessageId with
      | TBadRequest => stop
      | TFailed =>
          examined_first currentMessageId
            (batch_loop fuel' (currentMessageId - 1) (count_error counts) w)
      | TDone message =>
          match deleteMessage (message_id message) with
          | TBadRequest => stop
          | TFailed =>
              examined_first currentMessageId
                (batch_loop fuel' (currentMessageId - 1) (count_error counts) w)
          | TDone _ =>
              let '(counts1, w1) :=
                match message_media message with
                | Some fileData =>
                    match indexFile cfails fileData w with
                    | (IndexedOk, w') => (count_indexed counts, w')
                    | (AlreadyIndexed, _) => (count_duplicate counts, w)
                    | (IndexFailed, _) => (counts, w)
                    end
                | None => (counts, w)
                end in
              if ((indexed counts1 + duplicates counts1) mod 10 =? 0)%nat
                 && progress_throws
              then examined_first currentMessageId
                     (batch_loop fuel' (currentMessageId - 1 - 1) (count_error counts1) w1)
              else examined_first currentMessageId
                     (batch_loop fuel' (currentMessageId - 1) counts1 w1)
          end
      end
  end.

(** [batchIndexFromChannel(channelId, fromMessageId, ctx)]: the counts
    it returns, the catalog it leaves and the messages it asked for. *)
Definition batchIndexFromChannel (fromMessageId : Z) (w : World) : BatchRun :=
  batch_loop 1000 fromMessageId {| indexed := 0; duplicates := 0; errors := 0 |} w.
End BatchIndex.

(** Each id of the list is the one before it less [1] or less [2]:
    less [1] only, when [strict]. *)
Fixpoint descends (strict : bool) (ids : list Z) : Prop :=
  match ids with
  | a :: ((b :: _) as rest) =>
      (b = a - 1 \/ (strict = false /\ b = a - 2)) /\ descends strict rest
  | _ => True
  end.

(** ** A concrete file, for the examples *)

Definition example_file : FileData :=
  {| file_id := lit "BQAC9"; file_unique_id := JStr (lit "AgAD9");
     data_file_name := JUndefined; data_file_size := 900;
     data_file_type := JStr (lit "video"); data_caption := JStr (lit "Dune 2021") |}.

(** A catalog of 25 episodes: three pages of results. *)
Definition example_episode (n : nat) : ContentRecord :=
  {| _id := lit "EP" ++ N_to_string (N.of_nat (100 + n)); file_ref := JNull;
     file_name := lit "Episode " ++ N_to_string (N.of_nat n);
     file_size := 700; file_type := lit "video" |}.

Definition example_series : World :=
  {| filesCollection := map example_episode (seq 1 25); trendingCollection := ∅ |}.

(** * Properties *)

(** ** Strings and numbers *)

(** [lia] with the equations of Euclidean division. *)
Ltac Zify.zify_post_hook ::= Z.to_euclidean_division_equations.

Section split_facts.
Variable sep : N.

Lemma split_not_nil (s : jsstring) : split sep s <> [].
Proof. destruct s as [|c s]; simpl; [done|]. destruct (N.eqb c sep); [done|]. by destruct (split sep s). Qed.

Lemma split_no_sep (s : jsstring) : sep ∉ s -> split sep s = [s].
Proof.
  induction s as [|c s IH]; intros Hs; simpl; [done|].
  apply not_elem_of_cons in Hs as [Hc Hs].
  destruct (N.eqb_spec c sep) as [->|_]; [done|]. by rewrite IH.
Qed.

Lemma split_app (a b : jsstring) :
  sep ∉ a -> split sep (a ++ sep :: b) = a :: split sep b.
Proof.
  induction a as [|c a IH]; intros Ha; simpl.
  - by rewrite N.eqb_refl.
  - apply not_elem_of_cons in Ha as [Hc Ha].
    destruct (N.eqb_spec c sep) as [->|_]; [done|]. by rewrite IH.
Qed.
End split_facts.

(** The digits [digits_go] writes: their value, and no leading zero. *)
Lemma digits_go_spec (fuel : nat) : forall (n : N) (acc : jsstring),
  fuel <> O -> (n < 2 ^ N.of_nat fuel)%N ->
  exists ds, digits_go fuel n acc = ds ++ acc /\ Forall is_digit ds /\ ds <> [] /\
             (forall a, dec_value a ds = (a * 10 ^ N.of_nat (length ds) + n)%N) /\
             (n <> 0%N -> (10 ^ N.of_nat (length ds) <= 10 * n)%N).
Proof.
  induction fuel as [|f IH]; intros n acc Hf Hn; [done|]. simpl digits_go.
  assert (Hd : is_digit (digit_char (n mod 10))).
  { unfold is_digit, digit_char. lia. }
  destruct (N.eqb_spec (n / 10) 0) as [Hz|Hnz].
  - exists [digit_char (n mod 10)]. split; [done|]. split; [by constructor|].
    split; [done|]. split.
    + intros a. unfold dec_value, digit_char. cbn [fold_left length].
      change (N.of_nat 1) with 1%N. rewrite N.pow_1_r. lia.
    + intros Hn0. cbn [length]. change (N.of_nat 1) with 1%N. rewrite N.pow_1_r. lia.
  - assert (Hlt : (n / 10 < 2 ^ N.of_nat f)%N).
    { apply N.Div0.div_lt_upper_bound.
      replace (N.of_nat (S f)) with (N.succ (N.of_nat f)) in Hn by lia.
      rewrite N.pow_succ_r' in Hn. lia. }
    assert (Hf' : f <> O).
    { intros ->. simpl in Hlt. lia. }
    destruct (IH (n / 10)%N (digit_char (n mod 10) :: acc) Hf' Hlt)
      as (ds & Heq & Hall & _ & Hval & Hlead).
    exists (ds ++ [digit_char (n mod 10)]). split; [by rewrite Heq, <- app_assoc|].
    split; [apply Forall_app; split; [done|by constructor]|].
    split; [by destruct ds|]. split.
    + intros a. unfold dec_value in *. rewrite fold_left_app, Hval. cbn [fold_left].
      rewrite length_app. cbn [length].
      replace (N.of_nat (length ds + 1)) with (N.succ (N.of_nat (length ds))) by lia.
      rewrite N.pow_succ_r'. unfold digit_char. lia.
    + intros _. specialize (Hlead Hnz). rewrite length_app. cbn [length].
      replace (N.of_nat (length ds + 1)) with (N.succ (N.of_nat (length ds))) by lia.
      rewrite N.pow_succ_r'. lia.
Qed.

Lemma N_to_string_spec (n : N) :
  Forall is_digit (N_to_string n) /\ N_to_string n <> [] /\
  dec_value 0 (N_to_string n) = n.
Proof.
  unfold N_to_string.
  destruct (digits_go_spec (S (N.to_nat (N.size n))) n []) as (ds & Heq & Hall & Hne & Hval & _).
  - done.
  - pose proof (N.size_gt n) as Hs.
    eapply N.lt_le_trans; [exact Hs|]. apply N.pow_le_mono_r; lia.
  - rewrite Heq, app_nil_r. repeat split; [done..|]. rewrite Hval. lia.
Qed.

(** The numeral of a positive number has no leading zero. *)
Lemma N_to_string_length (n : N) :
  n <> 0%N -> (10 ^ N.of_nat (length (N_to_string n)) <= 10 * n)%N.
Proof.
  unfold N_to_string.
  destruct (digits_go_spec (S (N.to_nat (N.size n))) n []) as (ds & Heq & _ & _ & _ & Hlead).
  - done.
  - pose proof (N.size_gt n) as Hs.
    eapply N.lt_le_trans; [exact Hs|]. apply N.pow_le_mono_r; lia.
  - by rewrite Heq, app_nil_r.
Qed.

Lemma digit_value_dec (c : N) : is_digit c -> digit_value 10 c = Some (c - 48)%N.
Proof.
  unfold is_digit, digit_value. intros Hc.
  destruct (N.leb_spec 48 c); [|lia]. destruct (N.leb_spec c 57); [|lia].
  cbn [andb]. destruct (N.ltb_spec (c - 48) 10); [done|lia].
Qed.

Lemma digit_not_whitespace (c : N) : is_digit c -> is_str_whitespace c = false.
Proof.
  unfold is_digit, is_str_whitespace. intros Hc.
  repeat match goal with
         | |- context [N.leb ?a ?b] => destruct (N.leb_spec a b); try lia
         | |- context [N.eqb ?a ?b] => destruct (N.eqb_spec a b); try lia
         end; reflexivity.
Qed.

Lemma read_digits_all (ds : jsstring) : forall count a,
  Forall is_digit ds ->
  read_digits 10 ds count a = ((count + length ds)%nat, dec_value a ds).
Proof.
  induction ds as [|c ds IH]; intros count a Hall; simpl.
  - by rewrite Nat.add_0_r.
  - apply Forall_cons in Hall as [Hc Hall].
    rewrite (digit_value_dec c Hc), IH by done. f_equal. lia.
Qed.

Lemma parse_digits_dec (ds : jsstring) :
  Forall is_digit ds -> ds <> [] -> parse_digits 10 ds = Some (dec_value 0 ds).
Proof.
  intros Hall Hne. unfold parse_digits. rewrite read_digits_all by done.
  destruct ds; [done|]. reflexivity.
Qed.

(** On a non-empty run of decimal digits no white space, sign or radix
    prefix is found. *)
Lemma parseInt_prelude_digits (ds : jsstring) :
  Forall is_digit ds -> ds <> [] ->
  trim_start ds = ds /\ strip_sign ds = (false, ds) /\ strip_radix_prefix ds = (10%N, ds).
Proof.
  intros Hall Hne. destruct ds as [|c ds]; [done|].
  apply Forall_cons in Hall as [Hc Hall]. repeat split.
  - simpl. by rewrite digit_not_whitespace.
  - unfold strip_sign. unfold is_digit in Hc.
    destruct (N.eqb_spec c 45); [lia|]. destruct (N.eqb_spec c 43); [lia|]. done.
  - unfold strip_radix_prefix. destruct ds as [|c1 ds]; [done|].
    apply Forall_cons in Hall as [Hc1 _]. unfold is_digit in Hc1.
    destruct (N.eqb_spec c1 120); [lia|]. destruct (N.eqb_spec c1 88); [lia|].
    by rewrite andb_false_r.
Qed.

(** A run of decimal digits is read as the number nearest to its value. *)
Lemma parseInt_digits (ds : jsstring) :
  Forall is_digit ds -> ds <> [] -> parseInt ds = to_number (Z.of_N (dec_value 0 ds)).
Proof.
  intros Hall Hne. unfold parseInt.
  destruct (parseInt_prelude_digits ds Hall Hne) as (-> & -> & ->).
  by rewrite parse_digits_dec.
Qed.

Lemma parseInt_minus_digits (ds : jsstring) :
  Forall is_digit ds -> ds <> [] ->
  parseInt (lit "-" ++ ds) = to_number (- Z.of_N (dec_value 0 ds)).
Proof.
  intros Hall Hne. unfold parseInt.
  destruct (parseInt_prelude_digits ds Hall Hne) as (_ & _ & Hr).
  change (trim_start (lit "-" ++ ds)) with (45%N :: ds).
  change (strip_sign (45%N :: ds)) with (true, ds). cbv beta iota.
  rewrite Hr. by rewrite parse_digits_dec.
Qed.

(** *** Rounding *)

Lemma round_magnitude_safe (a : Z) : a < 2 ^ 53 -> round_magnitude a = a.
Proof. intros Ha. unfold round_magnitude. by destruct (Z.ltb_spec a (2 ^ 53)); [|lia]. Qed.

(** A safe integer is a number. *)
Lemma safe_integer_representable (z : Z) : safe_integer z -> representable z.
Proof.
  unfold safe_integer, representable, to_number. intros Hz.
  rewrite round_magnitude_safe by lia.
  destruct (Z.leb_spec (2 ^ 1024) (Z.abs z)) as [Hbig|_].
  - assert (2 ^ 53 <= 2 ^ 1024) by (apply Z.pow_le_mono_r; lia). lia.
  - destruct (Z.ltb_spec z 0); f_equal; lia.
Qed.

(** The magnitude and the sign of a number are rounded apart. *)
Lemma to_number_opp (z : Z) (x : Z) :
  to_number z = Num x -> to_number (- z) = Num (- x).
Proof.
  unfold to_number. rewrite Z.abs_opp.
  destruct (Z.leb_spec (2 ^ 1024) (round_magnitude (Z.abs z))); [done|].
  intros [= <-]. destruct (Z.ltb_spec z 0), (Z.ltb_spec (- z) 0); f_equal; try lia.
  assert (z = 0) as -> by lia. reflexivity.
Qed.

Lemma to_number_positive (v x : Z) :
  0 <= v -> to_number v = Num x -> x = round_magnitude v.
Proof.
  unfold to_number. intros Hv. rewrite Z.abs_eq by done.
  destruct (Z.leb_spec (2 ^ 1024) (round_magnitude v)); [done|].
  destruct (Z.ltb_spec v 0); [lia|]. by intros [= <-].
Qed.

(** Rounding does not take an integer from 10^21 on below 10^21, which is
    a number itself. *)
Lemma round_magnitude_large (v : Z) : 10 ^ 21 <= v -> 10 ^ 21 <= round_magnitude v.
Proof.
  intros Hv. unfold round_magnitude.
  destruct (Z.ltb_spec v (2 ^ 53)) as [Hs|_]; [lia|].
  assert (Hpos : 0 < v) by lia.
  pose proof (Z.log2_spec v Hpos) as [Hlo Hhi].
  assert (H69 : 69 <= Z.log2 v).
  { apply Z.log2_le_pow2; [done|]. lia. }
  set (ex := Z.log2 v - 52) in *.
  set (q := v / 2 ^ ex).
  assert (Hq : 10 ^ 21 <= q * 2 ^ ex).
  { destruct (Z.le_gt_cases ex 21) as [Hsmall|Hbig].
    - assert (Hcases : ex = 17 \/ ex = 18 \/ ex = 19 \/ ex = 20 \/ ex = 21) by lia.
      subst q. destruct Hcases as [-> | [-> | [-> | [-> | ->]]]]; lia.
    - assert (H2 : 2 ^ 52 * 2 ^ ex <= v).
      { rewrite <- Z.pow_add_r by lia. replace (52 + ex) with (Z.log2 v) by lia. done. }
      assert (Hex : 0 < 2 ^ ex) by (apply Z.pow_pos_nonneg; lia).
      assert (Hq52 : 2 ^ 52 <= q).
      { subst q. apply Z.div_le_lower_bound; lia. }
      assert (H22 : 2 ^ 22 <= 2 ^ ex) by (apply Z.pow_le_mono_r; lia).
      nia. }
  assert (Hex : 0 < 2 ^ ex) by (apply Z.pow_pos_nonneg; lia).
  destruct (_ || _); nia.
Qed.

(** *** Number::toString *)

Lemma nearest_elem (x : Z) (forms : list (Z * Z)) (form : Z * Z) :
  nearest x forms = Some form -> form ∈ forms.
Proof.
  destruct forms as [|a rest]; [done|]. intros [= <-].
  revert a. induction rest as [|b rest IH]; intros a; [left|].
  cbn [foldl]. specialize (IH (nearer x a b)).
  apply elem_of_cons in IH as [-> | IH].
  - unfold nearer. repeat case_match; [left|right; left..|left|right; left].
  - right. by right.
Qed.

Lemma forms_of_length_reads_back (x k s j : Z) :
  (s, j) ∈ forms_of_length x k -> 0 <= j /\ 0 <= s /\ to_number (s * 10 ^ j) = Num x.
Proof.
  unfold forms_of_length. intros Hin.
  apply list_elem_of_In, List.filter_In in Hin as [_ Hin].
  apply andb_prop in Hin as [Hin Hx]. apply andb_prop in Hin as [Hin _].
  apply andb_prop in Hin as [Hj Hs].
  apply Z.leb_le in Hj, Hs. apply bool_decide_eq_true in Hx.
  split; [done|]. split; [|done].
  pose proof (Z.pow_nonneg 10 (k - 1)). lia.
Qed.

(** The shortest form of a number reads back as that number. *)
Lemma shortest_form_reads_back (x : Z) :
  representable x -> 0 <= x ->
  0 <= (shortest_form x).2 /\ 0 <= (shortest_form x).1 /\
  to_number ((shortest_form x).1 * 10 ^ (shortest_form x).2) = Num x.
Proof.
  intros Hx Hpos. unfold shortest_form. generalize (seqZ 1 17).
  induction l as [|k l IH]; cbn [first_form].
  - cbn [fst snd]. by rewrite Z.pow_0_r, Z.mul_1_r.
  - destruct (nearest x (forms_of_length x k)) as [[s j]|] eqn:Hn; [|done].
    apply nearest_elem, forms_of_length_reads_back in Hn. done.
Qed.

Lemma dec_value_zeros (j : nat) (a : N) :
  dec_value a (repeat 48%N j) = (a * 10 ^ N.of_nat j)%N.
Proof.
  revert a. induction j as [|j IH]; intros a.
  - simpl. lia.
  - cbn [repeat]. unfold dec_value in *. cbn [fold_left]. rewrite IH.
    replace (N.of_nat (S j)) with (N.succ (N.of_nat j)) by lia.
    rewrite N.pow_succ_r'. lia.
Qed.

Lemma dec_value_app (a : N) (ds zs : jsstring) :
  dec_value a (ds ++ zs) = dec_value (dec_value a ds) zs.
Proof. unfold dec_value. apply fold_left_app. Qed.

Lemma repeat_zero_digits (j : nat) : Forall is_digit (repeat 48%N j).
Proof. apply Forall_forall. intros c Hc%list_elem_of_In%repeat_spec. subst. unfold is_digit. lia. Qed.

(** Below 10^21 a positive number is written as a run of digits whose
    value reads back as the number. *)
Lemma positive_to_string_plain (x : Z) :
  representable x -> 0 < x < 10 ^ 21 ->
  Forall is_digit (positive_to_string x) /\ positive_to_string x <> [] /\
  to_number (Z.of_N (dec_value 0 (positive_to_string x))) = Num x.
Proof.
  intros Hx Hr. unfold positive_to_string.
  destruct (Z.ltb_spec x (2 ^ 53)) as [Hs|Hl].
  - destruct (N_to_string_spec (Z.to_N x)) as (Hall & Hne & Hval).
    split; [done|]. split; [done|]. rewrite Hval, Z2N.id by lia. done.
  - destruct (shortest_form_reads_back x Hx) as (Hj & Hs & Hback); [lia|].
    destruct (shortest_form x) as [s j]. cbn [fst snd] in *.
    destruct (N_to_string_spec (Z.to_N s)) as (Hall & Hne & Hval).
    assert (Hs0 : s <> 0).
    { intros ->. rewrite Z.mul_0_l in Hback. vm_compute in Hback. injection Hback as <-. lia. }
    assert (Hpow : 0 < 10 ^ j) by (apply Z.pow_pos_nonneg; lia).
    assert (Hv : s * 10 ^ j < 10 ^ 21).
    { destruct (Z.lt_ge_cases (s * 10 ^ j) (10 ^ 21)) as [|Hge]; [done|].
      apply to_number_positive in Hback; [|nia].
      pose proof (round_magnitude_large _ Hge). lia. }
    pose proof (N_to_string_length (Z.to_N s) ltac:(lia)) as Hlen.
    set (ds := N_to_string (Z.to_N s)) in *.
    assert (Hn : Z.of_nat (length ds) + j <= 21).
    { destruct (Z.le_gt_cases (Z.of_nat (length ds) + j) 21) as [|Hgt]; [done|].
      exfalso.
      assert (H1 : 10 ^ Z.of_nat (length ds) <= 10 * s).
      { apply N2Z.inj_le in Hlen. rewrite N2Z.inj_pow, N2Z.inj_mul, Z2N.id in Hlen by lia.
        rewrite nat_N_Z in Hlen. exact Hlen. }
      assert (H2 : 10 ^ 22 <= 10 ^ (Z.of_nat (length ds) + j)) by (apply Z.pow_le_mono_r; lia).
      rewrite Z.pow_add_r in H2 by lia. nia. }
    destruct (Z.leb_spec (Z.of_nat (length ds) + j) 21) as [_|]; [|lia].
    split; [apply Forall_app; split; [done|apply repeat_zero_digits]|].
    split; [by destruct ds|].
    rewrite dec_value_app, dec_value_zeros, Hval.
    rewrite N2Z.inj_mul, N2Z.inj_pow, !Z2N.id, nat_N_Z, Z2Nat.id by lia. done.
Qed.

(** A positive number is written with a digit first, in digits, a point,
    an [e] and a [+]. *)
Lemma positive_to_string_chars (x : Z) :
  Forall (fun c => is_digit c \/ c ∈ lit ".e+") (positive_to_string x) /\
  exists d rest, positive_to_string x = d :: rest /\ is_digit d.
Proof.
  assert (Hdigits : forall n, Forall (fun c => is_digit c \/ c ∈ lit ".e+") (N_to_string n)).
  { intros n. destruct (N_to_string_spec n) as (Hall & _).
    eapply Forall_impl; [exact Hall|]. by left. }
  assert (Hlit : Forall (fun c => is_digit c \/ c ∈ lit ".e+") (lit ".e+")).
  { apply Forall_forall. by right. }
  assert (Hhead : forall n, exists d rest, N_to_string n = d :: rest /\ is_digit d).
  { intros n. destruct (N_to_string_spec n) as (Hall & Hne & _).
    destruct (N_to_string n) as [|d rest]; [done|].
    apply Forall_cons in Hall as [Hd _]. by exists d, rest. }
  unfold positive_to_string. destruct (x <? 2 ^ 53); [by split|].
  destruct (shortest_form x) as [s j].
  destruct (Hhead (Z.to_N s)) as (d & rest & Heq & Hd). pose proof (Hdigits (Z.to_N s)) as Hall.
  rewrite Heq in *. apply Forall_cons in Hall as [_ Hrest].
  destruct (_ <=? 21).
  - split; [|by exists d, (rest ++ repeat 48%N (Z.to_nat j))].
    constructor; [by left|]. apply Forall_app. split; [done|].
    eapply Forall_impl; [apply repeat_zero_digits|]. by left.
  - assert (Hsub : forall t, Forall (fun c => bool_decide (c ∈ lit ".e+") = true) t ->
                             Forall (fun c => is_digit c \/ c ∈ lit ".e+") t).
    { intros t Ht. eapply Forall_impl; [exact Ht|].
      intros c Hc. right. by apply bool_decide_eq_true in Hc. }
    destruct rest as [|d' rest].
    + split; [|by eexists _, _].
      repeat (apply Forall_app; split);
        [constructor; [by left|constructor]| |apply Hdigits].
      apply Hsub. by repeat constructor.
    + split; [|by eexists _, _].
      repeat (apply Forall_app; split);
        [constructor; [by left|constructor]| |done| |apply Hdigits];
        apply Hsub; by repeat constructor.
Qed.

Lemma number_to_string_chars (x : number) : Forall numeral_char (number_to_string x).
Proof.
  assert (Hlit : forall s, Forall (fun c => bool_decide (c ∈ lit "-+.eInfityNa") = true) s ->
                           Forall numeral_char s).
  { intros s Hs. eapply Forall_impl; [exact Hs|].
    intros c Hc. right. by apply bool_decide_eq_true in Hc. }
  assert (Hpos : forall p, Forall numeral_char (positive_to_string p)).
  { intros p. destruct (positive_to_string_chars p) as [Hall _].
    eapply Forall_impl; [exact Hall|]. intros c [Hc|Hc]; [by left|right].
    apply list_elem_of_In in Hc. apply list_elem_of_In. simpl in *. tauto. }
  destruct x as [|[]|[|p|p]]; cbn [number_to_string].
  - apply Hlit. by repeat constructor.
  - apply Hlit. by repeat constructor.
  - apply Hlit. by repeat constructor.
  - constructor; [|done]. left. unfold is_digit. simpl. lia.
  - apply Hpos.
  - constructor; [|apply Hpos]. right. apply (bool_decide_unpack _). reflexivity.
Qed.

Lemma number_to_string_not_elem (x : number) (c : N) :
  ~ numeral_char c -> c ∉ number_to_string x.
Proof.
  intros Hc Hin. pose proof (number_to_string_chars x) as Hall.
  rewrite Forall_forall in Hall. by apply Hc, Hall.
Qed.

Lemma number_to_string_wire (x : number) :
  number_to_string x <> [] /\ number_to_string x <> lit "-".
Proof.
  destruct x as [|[]|[|p|p]]; cbn [number_to_string]; try done.
  - destruct (positive_to_string_chars (Z.pos p)) as (_ & d & rest & -> & Hd).
    split; [done|]. intros [= -> _]. unfold is_digit in Hd. lia.
  - destruct (positive_to_string_chars (Z.pos p)) as (_ & d & rest & -> & Hd). done.
Qed.

(** [parseInt] reads back the numeral of every number below 10^21 in
    magnitude. *)
Lemma parseInt_number_to_string (z : Z) :
  representable z -> - 10 ^ 21 < z < 10 ^ 21 -> parseInt (number_to_string z) = Num z.
Proof.
  intros Hz Hr. destruct z as [|p|p]; cbn [number_to_string]; [reflexivity| |].
  - destruct (positive_to_string_plain (Z.pos p)) as (Hall & Hne & Hval); [done|lia|].
    by rewrite parseInt_digits.
  - assert (Hp : representable (Z.pos p)).
    { apply (to_number_opp (Z.neg p) (Z.neg p)), Hz. }
    destruct (positive_to_string_plain (Z.pos p)) as (Hall & Hne & Hval); [done|lia|].
    rewrite parseInt_minus_digits by done. by apply (to_number_opp _ (Z.pos p)).
Qed.

(** The numeral of a number from 0 to below 10^21 is a run of digits. *)
Lemma number_to_string_digits (z : Z) :
  representable z -> 0 <= z < 10 ^ 21 -> Forall is_digit (number_to_string z).
Proof.
  intros Hz Hr. destruct z as [|p|p]; cbn [number_to_string].
  - constructor; [|done]. unfold is_digit. simpl. lia.
  - apply positive_to_string_plain; [done|lia].
  - lia.
Qed.

Lemma or_zero_Num (z : Z) : or_zero (Num z) = Num z.
Proof. unfold or_zero. destruct (Z.eqb_spec z 0); congruence. Qed.

(** ** The compact token *)

Lemma or_else_wire (sep : N) (v : jsval) :
  sep <> 45%N -> field_safe sep v ->
  or_else v placeholder = wire_text v /\ (sep ∉ wire_text v) /\
  field_of_part (JStr (wire_text v)) = absent_as_null v.
Proof.
  intros Hsep Hv. destruct v as [| |s]; simpl.
  1,2: split; [done|]; split; [|done];
    apply not_elem_of_cons; split; [done|apply not_elem_of_nil].
  destruct Hv as (Hne & Hph & Hs). repeat split; [by destruct s|done|].
  unfold field_of_part. rewrite bool_decide_eq_false_2; [done|congruence].
Qed.

(** What Number::toString writes is ASCII and holds no delimiter of a
    token, of a link or of a percent escape. *)
Lemma numeral_char_plain (c : N) :
  numeral_char c ->
  (c < 128)%N /\ c <> colon /\ c <> 124%N /\ c <> 47%N /\ c <> 37%N.
Proof.
  unfold colon. intros [Hd|Hin]; [unfold is_digit in Hd; lia|].
  apply list_elem_of_In in Hin. vm_compute in Hin.
  repeat (destruct Hin as [<-|Hin]; [lia|]). done.
Qed.

Lemma numeral_sep (c : N) : c = colon \/ c = 124%N -> ~ numeral_char c.
Proof. intros Hc Hn%numeral_char_plain. unfold colon in *. lia. Qed.

(** The token splits into exactly four fields. *)
Lemma serializeFilters_split (page : number) (fs : SearchFilters) :
  field_safe colon (file_lang fs) -> field_safe colon (year fs) ->
  field_safe colon (quality fs) ->
  split colon (serializeFilters page fs) =
    [number_to_string page; wire_text (file_lang fs); wire_text (year fs);
     wire_text (quality fs)].
Proof.
  intros Hl Hy Hq. unfold serializeFilters.
  destruct (or_else_wire colon (file_lang fs)) as (-> & Hl' & _); [done..|].
  destruct (or_else_wire colon (year fs)) as (-> & Hy' & _); [done..|].
  destruct (or_else_wire colon (quality fs)) as (-> & Hq' & _); [done..|].
  cbn [app].
  rewrite split_app by (apply number_to_string_not_elem, numeral_sep; by left).
  rewrite split_app by done. rewrite split_app by done.
  by rewrite split_no_sep.
Qed.

Lemma compact_roundtrip_safe (page : Z) (fs : SearchFilters) :
  representable page -> - 10 ^ 21 < page < 10 ^ 21 ->
  field_safe colon (file_lang fs) -> field_safe colon (year fs) ->
  field_safe colon (quality fs) ->
  deserializeFilters (serializeFilters page fs) =
    {| page := page; filters := normalize_filters fs |}.
Proof.
  intros Hp Hr Hl Hy Hq. unfold deserializeFilters.
  rewrite serializeFilters_split by done. unfold index. cbn [lookup list_lookup].
  cbn [parseInt_val]. rewrite parseInt_number_to_string, or_zero_Num by done.
  unfold normalize_filters. f_equal. f_equal.
  - by destruct (or_else_wire colon (file_lang fs)) as (_ & _ & ->).
  - by destruct (or_else_wire colon (year fs)) as (_ & _ & ->).
  - by destruct (or_else_wire colon (quality fs)) as (_ & _ & ->).
Qed.

(** Every value the filter menus offer is safe in both tokens. *)
Lemma language_codes_safe (sep : N) :
  sep = colon \/ sep = 124%N -> Forall (wire_safe sep) language_codes.
Proof. intros [-> | ->]; by apply (bool_decide_unpack _). Qed.

Lemma quality_menu_safe (sep : N) :
  sep = colon \/ sep = 124%N -> Forall (wire_safe sep) quality_menu.
Proof. intros [-> | ->]; by apply (bool_decide_unpack _). Qed.

Lemma YEARS_safe (sep : N) (currentYear : Z) :
  sep = colon \/ sep = 124%N -> Forall (wire_safe sep) (YEARS currentYear).
Proof.
  intros Hsep. unfold YEARS. apply Forall_map, Forall_forall. intros k _. cbv beta.
  destruct (number_to_string_wire (currentYear - Z.of_nat k)) as [Hne Hph].
  repeat split; [done..|]. by apply number_to_string_not_elem, numeral_sep.
Qed.

Lemma valid_field_safe (sep : N) (enum : list jsstring) (v : jsval) :
  Forall (wire_safe sep) enum -> valid_field enum v -> field_safe sep v.
Proof.
  intros Henum Hv. destruct v as [| |s]; [done..|]. simpl in *.
  rewrite Forall_forall in Henum. by apply Henum.
Qed.

Lemma valid_filters_safe (sep : N) (currentYear : Z) (fs : SearchFilters) :
  sep = colon \/ sep = 124%N -> valid_filters currentYear fs ->
  field_safe sep (file_lang fs) /\ field_safe sep (year fs) /\ field_safe sep (quality fs).
Proof.
  intros Hsep (Hl & Hy & Hq). repeat split.
  - eapply valid_field_safe; [by apply language_codes_safe|done].
  - eapply valid_field_safe; [by apply YEARS_safe|done].
  - eapply valid_field_safe; [by apply quality_menu_safe|done].
Qed.

(** C1 (as amended).  Decoding the compact token of a valid search state
    whose page is a number below 10^21 gives the state back: the page
    number is read back exactly, every present filter value is returned
    unchanged and every absent filter comes back absent (as [null]); the
    token has exactly four colon-delimited fields, an absent filter being
    the single character [-]. *)
Theorem compact_token_roundtrip (currentYear page : Z) (fs : SearchFilters) :
  representable page ->
  0 <= page < 10 ^ 21 ->
  valid_filters currentYear fs ->
  deserializeFilters (serializeFilters page fs) =
    {| page := page; filters := normalize_filters fs |} /\
  split colon (serializeFilters page fs) =
    [number_to_string page; wire_text (file_lang fs); wire_text (year fs);
     wire_text (quality fs)] /\
  (forall v, truthy v = false ->
     or_else v placeholder = lit "-" /\ field_of_part (JStr (lit "-")) = JNull).
Proof.
  intros Hp Hr Hfs.
  destruct (valid_filters_safe colon currentYear fs) as (Hl & Hy & Hq); [by left|done|].
  split; [apply compact_roundtrip_safe; [done|lia|done..]|].
  split; [by apply serializeFilters_split|].
  intros v Hv. by destruct v as [| |[|c s]].
Qed.

Lemma compact_token_roundtrip_witness :
  deserializeFilters
    (serializeFilters 2 {| file_lang := JStr (lit "HI"); year := JUndefined;
                           quality := JStr (lit "720p") |}) =
  {| page := 2;
     filters := {| file_lang := JStr (lit "HI"); year := JNull;
                   quality := JStr (lit "720p") |} |}.
Proof.
  refine (proj1 (compact_token_roundtrip 2026 2
    {| file_lang := JStr (lit "HI"); year := JUndefined; quality := JStr (lit "720p") |}
    _ _ _)).
  - reflexivity.
  - lia.
  - repeat split; simpl; repeat constructor.
Defined.

(** C1, the claim as stated fails: the page 10^21 is a non-negative
    integer and a number, the template literal writes it [1e+21], and
    [parseInt] reads the page 1 back. *)
Lemma compact_token_large_page_counterexample :
  representable (10 ^ 21) /\ valid_filters 2026 no_filters /\
  serializeFilters (10 ^ 21) no_filters = lit "1e+21:-:-:-" /\
  deserializeFilters (serializeFilters (10 ^ 21) no_filters) =
    {| page := 1; filters := normalize_filters no_filters |} /\
  deserializeFilters (serializeFilters (10 ^ 21) no_filters) <>
    {| page := 10 ^ 21; filters := normalize_filters no_filters |}.
Proof.
  split; [by vm_compute|]. split; [by repeat split|].
  split; [by vm_compute|]. split; [by vm_compute|]. by vm_compute.
Qed.

(** The pages the round trip holds for reach far beyond the safe
    integers: 2^60 is written by its shortest digits, which read back as
    2^60. *)
Example compact_token_beyond_safe_integers :
  serializeFilters (2 ^ 60) no_filters = lit "1152921504606847000:-:-:-" /\
  page (deserializeFilters (serializeFilters (2 ^ 60) no_filters)) = Num (2 ^ 60).
Proof. split; by vm_compute. Qed.

(** The tokens of the specification's scenarios. *)
Example decode_filtered_token :
  deserializeFilters (lit "2:HI:2021:720p") =
  {| page := 2;
     filters := {| file_lang := JStr (lit "HI"); year := JStr (lit "2021");
                   quality := JStr (lit "720p") |} |}.
Proof. reflexivity. Qed.

Example decode_clear_filters_token :
  deserializeFilters (lit "0:-:-:-") =
  {| page := 0; filters := {| file_lang := JNull; year := JNull; quality := JNull |} |}.
Proof. reflexivity. Qed.

(** A token cut short decodes without failing: the missing fields are
    [undefined] and the page defaults to 0. *)
Example decode_truncated_token :
  deserializeFilters (lit "x:EN") =
  {| page := 0;
     filters := {| file_lang := JStr (lit "EN"); year := JUndefined;
                   quality := JUndefined |} |}.
Proof. reflexivity. Qed.

(** A value with a colon in it does not survive the token: the validity
    of the state is needed. *)
Example colon_breaks_token :
  deserializeFilters
    (serializeFilters 0 {| file_lang := JNull; year := JStr (lit "20:21");
                           quality := JNull |}) =
  {| page := 0;
     filters := {| file_lang := JNull; year := JStr (lit "20");
                   quality := JStr (lit "21") |} |}.
Proof. reflexivity. Qed.

(** ** The share link *)

(** *** Percent escapes *)

Lemma hex_value_upper (d : N) : (d < 16)%N -> hex_value (hex_upper d) = Some d.
Proof.
  intros Hd. destruct d as [|p]; [reflexivity|].
  do 4 (destruct p as [p|p|]; try reflexivity; try (exfalso; lia)).
Qed.

Lemma unescape_percent_encode (octets : list N) (rest : jsstring) :
  Forall (fun b => (b < 256)%N) octets ->
  unescape (percent_encode octets ++ rest) = app (map Octet octets) <$> unescape rest.
Proof.
  induction 1 as [|b octets Hb _ IH]; [cbn; by destruct (unescape rest)|].
  cbn [percent_encode flat_map app unescape]. fold (percent_encode octets).
  rewrite N.eqb_refl, !hex_value_upper by lia. rewrite IH.
  destruct (unescape rest) as [items|]; [|done]. cbn.
  do 3 f_equal. lia.
Qed.

Lemma unreserved_not_percent (u : N) : uri_unreserved u = true -> u <> percent.
Proof. intros Hu ->. by vm_compute in Hu. Qed.

(** *** UTF-8 sequences *)

Lemma utf8_encode_octets (cp : N) :
  (cp <= 1114111)%N -> Forall (fun b => (b < 256)%N) (utf8_encode cp).
Proof.
  intros Hcp. unfold utf8_encode.
  destruct (N.ltb_spec cp 128); [|destruct (N.ltb_spec cp 2048);
    [|destruct (N.ltb_spec cp 65536)]]; repeat constructor; lia.
Qed.

Ltac case_ltb :=
  repeat match goal with
         | |- context [N.ltb ?a ?b] => destruct (N.ltb_spec a b); try lia
         | |- context [N.leb ?a ?b] => destruct (N.leb_spec a b); try lia
         end.

Lemma decode_items_utf8 (cp : N) (rest : list uri_item) :
  scalar cp ->
  decode_items (map Octet (utf8_encode cp) ++ rest) = app (utf16_encode cp) <$> decode_items rest.
Proof.
  intros Hcp. unfold utf8_encode.
  destruct (N.ltb_spec cp 128) as [H1|H1];
    [|destruct (N.ltb_spec cp 2048) as [H2|H2];
      [|destruct (N.ltb_spec cp 65536) as [H3|H3]]];
    cbn [map app decode_items].
  - assert (Hlen : sequence_length cp = 1%nat) by (unfold sequence_length; case_ltb; done).
    rewrite Hlen. unfold utf16_encode. by destruct (N.ltb_spec cp 65536); [|lia].
  - assert (Hlen : sequence_length (192 + cp / 64) = 2%nat)
      by (unfold sequence_length; case_ltb; done).
    rewrite Hlen.
    assert (Hseq : utf8_decode_seq (192 + cp / 64) [(128 + cp mod 64)%N] = Some cp).
    { unfold utf8_decode_seq, is_continuation. cbn [forallb]. case_ltb. cbn.
      f_equal. lia. }
    by rewrite Hseq.
  - assert (Hlen : sequence_length (224 + cp / 4096) = 3%nat)
      by (unfold sequence_length; case_ltb; done).
    rewrite Hlen.
    assert (Hseq : utf8_decode_seq (224 + cp / 4096)
                     [(128 + (cp / 64) mod 64)%N; (128 + cp mod 64)%N] = Some cp).
    { unfold utf8_decode_seq, is_continuation, scalar in *. cbn [forallb]. case_ltb; cbn;
        try (f_equal; lia). }
    by rewrite Hseq.
  - assert (Hlen : sequence_length (240 + cp / 262144) = 4%nat)
      by (unfold sequence_length, scalar in *; case_ltb; done).
    rewrite Hlen.
    assert (Hseq : utf8_decode_seq (240 + cp / 262144)
                     [(128 + (cp / 4096) mod 64)%N; (128 + (cp / 64) mod 64)%N;
                      (128 + cp mod 64)%N] = Some cp).
    { unfold utf8_decode_seq, is_continuation, scalar in *. cbn [forallb]. case_ltb; cbn;
        try (f_equal; lia). }
    by rewrite Hseq.
Qed.

Lemma utf16_encode_unit (u : N) : (u < 65536)%N -> utf16_encode u = [u].
Proof. intros Hu. unfold utf16_encode. by destruct (N.ltb_spec u 65536); [|lia]. Qed.

Lemma surrogate_pair (hi lo : N) :
  is_high_surrogate hi = true -> is_low_surrogate lo = true ->
  scalar (pair_code_point hi lo) /\ utf16_encode (pair_code_point hi lo) = [hi; lo].
Proof.
  unfold is_high_surrogate, is_low_surrogate, pair_code_point, scalar, utf16_encode.
  rewrite !andb_true_iff, !N.leb_le. intros [? ?] [? ?]. split; [lia|].
  destruct (N.ltb_spec ((hi - 55296) * 1024 + (lo - 56320) + 65536) 65536); [lia|].
  f_equal; [|f_equal]; lia.
Qed.

Lemma percent_encode_chars (octets : list N) :
  Forall (fun b => (b < 256)%N) octets -> Forall component_char (percent_encode octets).
Proof.
  induction 1 as [|b octets Hb _ IH]; [constructor|].
  cbn [percent_encode flat_map app]. fold (percent_encode octets).
  constructor; [right; by left|].
  constructor; [right; right; exists (b / 16)%N; split; [lia|done]|].
  constructor; [right; right; exists (b mod 16)%N; split; [lia|done]|].
  exact IH.
Qed.

(** The escapes of an encoded component decode to the string it was
    made from. *)
Lemma encodeURIComponent_roundtrip (n : nat) : forall str : jsstring,
  (length str <= n)%nat -> well_formed str ->
  exists encoded items,
    encodeURIComponent str = Some encoded /\ Forall component_char encoded /\
    unescape encoded = Some items /\ decode_items items = Some str.
Proof.
  induction n as [|n IH]; intros str Hlen Hwf.
  { destruct str; [|simpl in Hlen; lia]. by exists [], []. }
  destruct str as [|u s1]; [by exists [], []|].
  cbn [well_formed] in Hwf. destruct Hwf as [Hu Hwf]. cbn [encodeURIComponent].
  destruct (uri_unreserved u) eqn:Hunres.
  - assert (Hs1 : well_formed s1).
    { destruct (is_high_surrogate u) eqn:Hhi; [|tauto].
      exfalso. revert Hunres Hhi. unfold uri_unreserved, is_high_surrogate.
      rewrite orb_true_iff, bool_decide_eq_true, !andb_true_iff, !N.leb_le.
      intros [Hr|Hr] ?.
      - rewrite !orb_true_iff, !andb_true_iff, !N.leb_le in Hr. lia.
      - revert Hr. unfold lit. cbn. rewrite !elem_of_cons, elem_of_nil. lia. }
    destruct (IH s1) as (enc & items & Henc & Hchars & Hun & Hdec);
      [simpl in Hlen; lia|done|].
    exists (u :: enc), (Raw u :: items). rewrite Henc. repeat split.
    + constructor; [by left|done].
    + cbn [unescape]. destruct (N.eqb_spec u percent) as [->|_]; [done|]. by rewrite Hun.
    + cbn [decode_items]. by rewrite Hdec.
  - destruct (is_high_surrogate u) eqn:Hhi.
    + destruct s1 as [|v s2]; [done|]. destruct Hwf as [Hlo Hwf]. rewrite Hlo.
      destruct (surrogate_pair u v Hhi Hlo) as [Hsc H16].
      destruct (IH s2) as (enc & items & Henc & Hchars & Hun & Hdec);
        [simpl in Hlen; lia|done|].
      assert (Hoct : Forall (fun b => (b < 256)%N) (utf8_encode (pair_code_point u v))).
      { apply utf8_encode_octets. unfold scalar in Hsc. lia. }
      eexists _, (map Octet (utf8_encode (pair_code_point u v)) ++ items).
      rewrite Henc. repeat split.
      * apply Forall_app. split; [by apply percent_encode_chars|done].
      * by rewrite unescape_percent_encode, Hun.
      * by rewrite decode_items_utf8, Hdec, H16.
    + destruct Hwf as [Hlo Hwf]. rewrite Hlo.
      destruct (IH s1) as (enc & items & Henc & Hchars & Hun & Hdec);
        [simpl in Hlen; lia|done|].
      assert (Hsc : scalar u).
      { revert Hhi Hlo. unfold is_high_surrogate, is_low_surrogate, scalar.
        rewrite !andb_false_iff, !N.leb_gt. lia. }
      assert (Hoct : Forall (fun b => (b < 256)%N) (utf8_encode u)).
      { apply utf8_encode_octets. lia. }
      eexists _, (map Octet (utf8_encode u) ++ items).
      rewrite Henc. repeat split.
      * apply Forall_app. split; [by apply percent_encode_chars|done].
      * by rewrite unescape_percent_encode, Hun.
      * by rewrite decode_items_utf8, Hdec, utf16_encode_unit.
Qed.

(** *** base64url *)

Lemma unbase64_char (v : N) : (v < 64)%N -> unbase64 (base64url_char v) = Some v.
Proof.
  intros Hv. unfold base64url_char.
  destruct (N.ltb_spec v 26); [|destruct (N.ltb_spec v 52); [|destruct (N.ltb_spec v 62);
    [|destruct (N.eqb_spec v 62)]]]; unfold unbase64.
  - case_ltb. cbn. f_equal. lia.
  - case_ltb; cbn; f_equal; lia.
  - case_ltb; cbn; f_equal; lia.
  - subst. reflexivity.
  - assert (v = 63%N) as -> by lia. reflexivity.
Qed.

Lemma sextets_char (v : N) (rest : jsstring) :
  (v < 64)%N -> sextets (base64url_char v :: rest) = v :: sextets rest.
Proof.
  intros Hv. cbn [sextets].
  assert (Hb : (base64url_char v mod 256 = base64url_char v)%N).
  { apply N.mod_small. unfold base64url_char. repeat case_match; lia. }
  by rewrite Hb, unbase64_char.
Qed.

Lemma base64url_roundtrip (n : nat) : forall bytes : list N,
  (length bytes <= n)%nat -> Forall (fun b => (b < 256)%N) bytes ->
  Buffer_from_base64url (base64url_encode bytes) = bytes.
Proof.
  unfold Buffer_from_base64url.
  induction n as [|n IH]; intros bytes Hlen Hall.
  { destruct bytes; [done|simpl in Hlen; lia]. }
  destruct bytes as [|b1 [|b2 [|b3 rest]]]; [done|..].
  - apply Forall_cons in Hall as [H1 _]. cbn [base64url_encode].
    rewrite !sextets_char by lia. cbn [sextets bytes_of_sextets]. f_equal. lia.
  - apply Forall_cons in Hall as [H1 [H2 _]%Forall_cons]. cbn [base64url_encode].
    rewrite !sextets_char by lia. cbn [sextets bytes_of_sextets].
    f_equal; [|f_equal]; lia.
  - apply Forall_cons in Hall as [H1 [H2 [H3 Hall]%Forall_cons]%Forall_cons].
    cbn [base64url_encode]. rewrite !sextets_char by lia. cbn [bytes_of_sextets].
    rewrite IH by (simpl in Hlen; done || lia).
    f_equal; [|f_equal; [|f_equal]]; lia.
Qed.

(** *** ASCII text through a buffer *)

Lemma Buffer_from_ascii (s : jsstring) : ascii s -> Buffer_from s = s.
Proof.
  induction 1 as [|u s Hu _ IH]; [done|]. cbn [Buffer_from].
  assert (Hhi : is_high_surrogate u = false)
    by (unfold is_high_surrogate; case_ltb; done).
  assert (Hlo : is_low_surrogate u = false)
    by (unfold is_low_surrogate; case_ltb; done).
  rewrite Hhi, Hlo, IH. unfold utf8_encode. by destruct (N.ltb_spec u 128); [|lia].
Qed.

Lemma Buffer_toString_ascii (bytes : list N) : ascii bytes -> Buffer_toString bytes = bytes.
Proof.
  unfold Buffer_toString.
  induction 1 as [|b bytes Hb _ IH]; [done|]. cbn [utf8_decode_from utf8_step utf8_start needed].
  unfold utf8_lead. destruct (N.ltb_spec b 128); [|lia]. cbn. by rewrite IH.
Qed.

Lemma ascii_octets (s : jsstring) : ascii s -> Forall (fun b => (b < 256)%N) s.
Proof. intros Ha. eapply Forall_impl; [exact Ha|]. intros b Hb. simpl in Hb. lia. Qed.

(** ASCII text written to a buffer, shown in base64url, read back from
    it and shown as UTF-8 is the same text. *)
Lemma transport_roundtrip (text : jsstring) :
  ascii text ->
  Buffer_toString (Buffer_from_base64url (base64url_encode (Buffer_from text))) = text.
Proof.
  intros Ha. rewrite Buffer_from_ascii by done.
  rewrite (base64url_roundtrip (length text)) by (done || by apply ascii_octets).
  by apply Buffer_toString_ascii.
Qed.

(** *** The payload of the share link *)

Lemma component_char_plain (u : N) : component_char u -> (u < 128)%N /\ u <> bar.
Proof.
  intros [Hu|[->|(d & Hd & ->)]].
  - revert Hu. unfold uri_unreserved, bar.
    rewrite orb_true_iff, bool_decide_eq_true, !orb_true_iff, !andb_true_iff, !N.leb_le.
    unfold lit. cbn. rewrite !elem_of_cons, elem_of_nil. lia.
  - by vm_compute.
  - unfold hex_upper, bar. destruct (N.ltb_spec d 10); lia.
Qed.

Lemma unescape_plain (s : jsstring) : percent ∉ s -> decodeURIComponent s = Some s.
Proof.
  intros Hs. unfold decodeURIComponent.
  assert (Hun : unescape s = Some (map Raw s)).
  { induction s as [|u s IH]; [done|]. apply not_elem_of_cons in Hs as [Hu Hs].
    cbn [unescape]. destruct (N.eqb_spec u percent); [done|]. by rewrite IH. }
  rewrite Hun. cbn. induction s as [|u s IH]; [done|].
  apply not_elem_of_cons in Hs as [Hu Hs]. cbn [map decode_items].
  rewrite IH; [done|done|]. clear -Hs. induction s as [|v s IH]; [done|].
  apply not_elem_of_cons in Hs as [Hv Hs]. cbn [unescape].
  destruct (N.eqb_spec v percent); [done|]. by rewrite IH.
Qed.

Lemma numeral_plain (x : number) :
  ascii (number_to_string x) /\ (percent ∉ number_to_string x) /\
  (bar ∉ number_to_string x).
Proof.
  pose proof (number_to_string_chars x) as Hall. split; [|split].
  - eapply Forall_impl; [exact Hall|]. intros c Hc%numeral_char_plain. cbv beta. lia.
  - apply number_to_string_not_elem. intros Hc%numeral_char_plain. unfold percent in Hc. lia.
  - apply number_to_string_not_elem. intros Hc%numeral_char_plain. unfold bar in Hc. lia.
Qed.

Lemma valid_filters_share_safe (currentYear : Z) (fs : SearchFilters) :
  valid_filters currentYear fs ->
  field_share_safe (file_lang fs) /\ field_share_safe (year fs) /\
  field_share_safe (quality fs).
Proof.
  assert (Hlang : Forall share_safe language_codes) by (by apply (bool_decide_unpack _)).
  assert (Hqual : Forall share_safe quality_menu) by (by apply (bool_decide_unpack _)).
  assert (Hyears : Forall share_safe (YEARS currentYear)).
  { unfold YEARS. apply Forall_map, Forall_forall. intros k _. cbn.
    destruct (number_to_string_wire (currentYear - Z.of_nat k)) as [Hne Hph].
    destruct (numeral_plain (currentYear - Z.of_nat k)) as (Ha & Hp & Hb).
    by repeat split. }
  intros (Hl & Hy & Hq). rewrite Forall_forall in Hlang, Hqual, Hyears.
  repeat split.
  - destruct (file_lang fs); try done. by apply Hlang.
  - destruct (year fs); try done. by apply Hyears.
  - destruct (quality fs); try done. by apply Hqual.
Qed.

Lemma wire_text_share (v : jsval) :
  field_share_safe v ->
  field_safe bar v /\ ascii (wire_text v) /\ (percent ∉ wire_text v).
Proof.
  assert (Hph : ascii placeholder /\ (percent ∉ placeholder)).
  { unfold ascii. split; by apply (bool_decide_unpack _). }
  destruct v as [| |s]; [by intros _..|]. by intros (? & ? & ?).
Qed.

Lemma or_else_normalized (v : jsval) (d : jsstring) :
  or_else (absent_as_null v) d = or_else v d.
Proof. by destruct v. Qed.

Lemma share_payload_normalized (query : jsstring) (page : number) (fs : SearchFilters) :
  share_payload query page (normalize_filters fs) = share_payload query page fs.
Proof. unfold share_payload, normalize_filters. cbn. by rewrite !or_else_normalized. Qed.

(** C2 (as amended).  The share link of a valid search state whose page
    is a number below 10^21 and of a well-formed query text decodes to
    that query text, that page and those filters, an absent filter coming
    back absent; the handler of the share button produces this link from
    the state token of its button. *)
Theorem share_link_roundtrip
    (currentYear p : Z) (query : jsstring) (fs : SearchFilters) :
  well_formed query ->
  representable p ->
  0 <= p < 10 ^ 21 ->
  valid_filters currentYear fs ->
  exists payload,
    share_payload query p fs = Normal payload /\
    handleStatelessBatch_decode payload =
      Normal {| shared_query := JStr query;
                shared_state := {| page := p; filters := normalize_filters fs |} |} /\
    (query <> [] ->
     share_action (serializeFilters p fs) (JStr query) = ShareLink payload).
Proof.
  intros Hwf Hrep Hrange Hvalid.
  destruct (encodeURIComponent_roundtrip (length query) query) as
    (enc & items & Henc & Hchars & Hun & Hdec); [done..|].
  destruct (valid_filters_share_safe _ _ Hvalid) as (Hl & Hy & Hq).
  destruct (wire_text_share _ Hl) as (Hl1 & Hl2 & Hl3).
  destruct (wire_text_share _ Hy) as (Hy1 & Hy2 & Hy3).
  destruct (wire_text_share _ Hq) as (Hq1 & Hq2 & Hq3).
  destruct (or_else_wire bar (file_lang fs)) as (Hle & Hlb & Hlf); [done..|].
  destruct (or_else_wire bar (year fs)) as (Hye & Hyb & Hyf); [done..|].
  destruct (or_else_wire bar (quality fs)) as (Hqe & Hqb & Hqf); [done..|].
  destruct (numeral_plain p) as (Hn1 & Hn2 & Hn3).
  assert (Henc_plain : ascii enc /\ (bar ∉ enc)).
  { split.
    - eapply Forall_impl; [exact Hchars|]. intros u Hu. by apply component_char_plain.
    - intros Hin. rewrite Forall_forall in Hchars.
      by destruct (component_char_plain bar (Hchars _ Hin)). }
  destruct Henc_plain as [Hea Heb].
  set (text := enc ++ [bar] ++ number_to_string p ++ [bar] ++ wire_text (file_lang fs)
               ++ [bar] ++ wire_text (year fs) ++ [bar] ++ wire_text (quality fs)).
  assert (Hpayload : share_payload query p fs
                     = Normal (base64url_encode (Buffer_from text))).
  { unfold share_payload. by rewrite Henc, Hle, Hye, Hqe. }
  assert (Htext : ascii text).
  { unfold text, ascii. rewrite !Forall_app. repeat split; try done;
      repeat constructor; unfold bar; lia. }
  assert (Hsplit : split bar text =
                   [enc; number_to_string p; wire_text (file_lang fs);
                    wire_text (year fs); wire_text (quality fs)]).
  { unfold text. cbn [app]. rewrite !split_app by done. by rewrite split_no_sep. }
  assert (Hparts : decode_all [enc; number_to_string p; wire_text (file_lang fs);
                               wire_text (year fs); wire_text (quality fs)]
                   = Normal [query; number_to_string p; wire_text (file_lang fs);
                             wire_text (year fs); wire_text (quality fs)]).
  { cbn [decode_all].
    rewrite (unescape_plain (number_to_string p)) by done.
    rewrite (unescape_plain (wire_text (file_lang fs))) by done.
    rewrite (unescape_plain (wire_text (year fs))) by done.
    rewrite (unescape_plain (wire_text (quality fs))) by done.
    unfold decodeURIComponent. rewrite Hun. cbn. by rewrite Hdec. }
  exists (base64url_encode (Buffer_from text)). split; [done|]. split.
  - unfold handleStatelessBatch_decode. rewrite transport_roundtrip by done.
    rewrite Hsplit, Hparts. unfold index. cbn [lookup list_lookup parseInt_val].
    rewrite parseInt_number_to_string, or_zero_Num, Hlf, Hyf, Hqf by (done || lia). done.
  - intros Hne. unfold share_action.
    destruct (valid_filters_safe colon currentYear fs) as (? & ? & ?); [by left|done|].
    rewrite compact_roundtrip_safe by (done || lia). cbn [page filters].
    destruct query as [|ch rest]; [done|].
    by rewrite share_payload_normalized, Hpayload.
Qed.

Lemma share_link_roundtrip_witness :
  exists payload,
    share_payload (lit "dark|knight 100%" ++ [55357%N; 56832%N]) 3 only_4K = Normal payload /\
    handleStatelessBatch_decode payload =
      Normal {| shared_query := JStr (lit "dark|knight 100%" ++ [55357%N; 56832%N]);
                shared_state :=
                  {| page := 3;
                     filters := {| file_lang := JNull; year := JNull;
                                   quality := JStr (lit "4K") |} |} |}.
Proof.
  destruct (share_link_roundtrip 2026 3 (lit "dark|knight 100%" ++ [55357%N; 56832%N])
              only_4K) as (payload & Hp & Hd & _).
  - vm_compute. repeat split; lia.
  - reflexivity.
  - lia.
  - repeat split; simpl; repeat constructor.
  - exists payload. split; [exact Hp|exact Hd].
Defined.

(** C2, the claim as stated fails: the share link of the page 10^21, a
    non-negative integer and a number, carries [1e+21] and decodes to the
    page 1. *)
Lemma share_link_large_page_counterexample :
  well_formed (lit "dune") /\ representable (10 ^ 21) /\ valid_filters 2026 no_filters /\
  exists payload,
    share_payload (lit "dune") (10 ^ 21) no_filters = Normal payload /\
    Buffer_toString (Buffer_from_base64url payload) = lit "dune|1e+21|-|-|-" /\
    handleStatelessBatch_decode payload =
      Normal {| shared_query := JStr (lit "dune");
                shared_state := {| page := 1; filters := normalize_filters no_filters |} |} /\
    handleStatelessBatch_decode payload <>
      Normal {| shared_query := JStr (lit "dune");
                shared_state :=
                  {| page := 10 ^ 21; filters := normalize_filters no_filters |} |}.
Proof.
  split; [by vm_compute|]. split; [by vm_compute|]. split; [by repeat split|].
  eexists. split; [by vm_compute|]. split; [by vm_compute|].
  split; [by vm_compute|]. by vm_compute.
Qed.


(** A query with a lone surrogate has no share link: [encodeURIComponent]
    throws and the handler answers nothing. *)
Example lone_surrogate_has_no_link :
  share_payload [55357%N] 0 no_filters = Throw URIError /\
  share_action (lit "0:-:-:-") (JStr [55357%N]) = NoReply.
Proof. by vm_compute. Qed.

(** Without a query text the share button answers "Query Lost". *)
Example share_without_query :
  share_action (lit "0:-:-:-") JNull = QueryLost.
Proof. reflexivity. Qed.

(** The base64url decoder reads the low byte of a code unit: U+0154,
    whose low byte is that of [T], stands for [T]. *)
Example base64url_reads_low_byte :
  Buffer_from_base64url [340%N; 81%N] = Buffer_from_base64url (lit "TQ") /\
  Buffer_from_base64url (lit "TQ") = [77%N].
Proof. by vm_compute. Qed.

(** ** The composer and the pattern language *)

(** [escapeRegex] escapes exactly the syntax characters of the pattern
    grammar. *)
Lemma class_is_syntax (c : N) : c ∈ escapeRegex_class <-> c ∈ syntax_chars.
Proof.
  unfold escapeRegex_class, syntax_chars, backslash, lit. cbn.
  rewrite !elem_of_cons, !elem_of_nil. tauto.
Qed.

Lemma plain_token_literal (c : N) : c ∉ syntax_chars -> plain_token c = Some (KChar c) /\ c <> backslash.
Proof.
  intros Hc. unfold plain_token.
  rewrite (bool_decide_eq_false_2 _ Hc).
  revert Hc. unfold syntax_chars, backslash, lit. cbn.
  rewrite !not_elem_of_cons. intros Hc.
  repeat match goal with
         | |- context [N.eqb c ?k] => destruct (N.eqb_spec c k); [exfalso; tauto|]
         end.
  split; [done|tauto].
Qed.

Lemma escape_token_literal (c : N) : c ∈ syntax_chars -> escape_token c = Some (KChar c).
Proof. intros Hc. unfold escape_token. by rewrite (bool_decide_eq_true_2 _ Hc). Qed.

Lemma prepend_cons k ts l : cons_token k (prepend ts l) = prepend (k :: ts) l.
Proof. by destruct l. Qed.

(** Escaped text reads as literals, whatever follows it. *)
Lemma lex_escapeRegex_app (s rest : jsstring) :
  lex (escapeRegex s ++ rest) = prepend (literal_tokens s) (lex rest).
Proof.
  induction s as [|c s IH]; [cbn; by destruct (lex rest)|].
  cbn [escapeRegex]. case_bool_decide as Hc.
  - apply class_is_syntax in Hc. cbn [app lex]. unfold backslash at 1.
    rewrite N.eqb_refl, (escape_token_literal c Hc), IH. apply prepend_cons.
  - rewrite class_is_syntax in Hc. destruct (plain_token_literal c Hc) as [Hp Hb].
    cbn [app lex]. destruct (N.eqb_spec c backslash); [done|].
    rewrite Hp, IH. apply prepend_cons.
Qed.

Lemma lex_escapeRegex (s : jsstring) : lex (escapeRegex s) = Lexed (literal_tokens s).
Proof.
  rewrite <- (app_nil_r (escapeRegex s)), lex_escapeRegex_app. cbn.
  by rewrite app_nil_r.
Qed.

Lemma digit_not_syntax (c : N) : is_digit c -> c ∉ syntax_chars.
Proof.
  unfold is_digit, syntax_chars, backslash, lit. cbn.
  rewrite !not_elem_of_cons. intros Hc. repeat split; try lia. apply not_elem_of_nil.
Qed.

(** Text without syntax characters reads as literals too. *)
Lemma lex_plain_app (s rest : jsstring) :
  Forall (fun c => c ∉ syntax_chars) s ->
  lex (s ++ rest) = prepend (literal_tokens s) (lex rest).
Proof.
  induction 1 as [|c s Hc Hs IH]; [cbn; by destruct (lex rest)|].
  destruct (plain_token_literal c Hc) as [Hp Hb].
  cbn [app lex]. destruct (N.eqb_spec c backslash); [done|].
  rewrite Hp, IH. apply prepend_cons.
Qed.

Lemma lex_word_boundary_app (rest : jsstring) :
  lex (word_boundary ++ rest) = prepend [KWordB] (lex rest).
Proof. cbn. by destruct (lex rest). Qed.

Lemma lex_bar_app (rest : jsstring) : lex ([bar] ++ rest) = prepend [KBar] (lex rest).
Proof. cbn. by destruct (lex rest). Qed.

Lemma prepend_prepend a b l : prepend a (prepend b l) = prepend (a ++ b) l.
Proof. destruct l; cbn; [|done..]. by rewrite app_assoc. Qed.

Lemma Normal_inj {A : Type} (a b : A) : Normal a = Normal b -> a = b.
Proof. by intros [= ->]. Qed.

Lemma lex_language_pattern (code pattern : jsstring) :
  language_pattern code = Normal pattern ->
  lex pattern = Lexed (expected_language_tokens code).
Proof.
  unfold language_pattern, expected_language_tokens.
  case_bool_decide as Hmu.
  - intros <-%Normal_inj. by vm_compute.
  - destruct (LANGUAGES_get code) as [name| |]; [|done|]; intros <-%Normal_inj.
    + rewrite lex_escapeRegex_app.
      rewrite lex_bar_app, lex_word_boundary_app, lex_escapeRegex_app.
      replace (lex word_boundary) with (Lexed [KWordB]) by reflexivity.
      cbn. done.
    + apply lex_escapeRegex.
Qed.

Lemma lex_year_pattern (y : jsstring) :
  Forall is_digit y ->
  lex (word_boundary ++ y ++ word_boundary) = Lexed ([KWordB] ++ literal_tokens y ++ [KWordB]).
Proof.
  intros Hy.
  rewrite lex_word_boundary_app, lex_plain_app.
  - by replace (lex word_boundary) with (Lexed [KWordB]) by reflexivity.
  - eapply Forall_impl; [exact Hy|]. apply digit_not_syntax.
Qed.

(** Every condition reads as the expected tokens. *)
Lemma lex_condition_patterns (q : jsstring) (f : SearchFilters) (pats : list jsstring) :
  year_of_digits (year f) ->
  condition_patterns q f = Normal pats ->
  map lex pats = map Lexed (expected_tokens q f).
Proof.
  intros Hy. unfold condition_patterns, expected_tokens.
  assert (Hq : map lex (match q with [] => [] | _ => [escapeRegex q] end)
               = map Lexed (match q with [] => [] | _ => [literal_tokens q] end)).
  { destruct q; [done|]. cbn [map]. by rewrite lex_escapeRegex. }
  assert (Hyear : map lex (match year f with
                           | JStr (c :: s) => [word_boundary ++ (c :: s) ++ word_boundary]
                           | _ => [] end)
                  = map Lexed (match year f with
                               | JStr (c :: s) => [[KWordB] ++ literal_tokens (c :: s) ++ [KWordB]]
                               | _ => [] end)).
  { destruct (year f) as [| |[|c s]]; try done. cbn [map]. by rewrite lex_year_pattern. }
  assert (Hql : map lex (match quality f with
                         | JStr (c :: s) => [escapeRegex (c :: s)]
                         | _ => [] end)
                = map Lexed (match quality f with
                             | JStr (c :: s) => [literal_tokens (c :: s)]
                             | _ => [] end)).
  { destruct (quality f) as [| |[|c s]]; try done. cbn [map]. by rewrite lex_escapeRegex. }
  destruct (file_lang f) as [| |[|c s]].
  1-3: intros <-%Normal_inj; rewrite !map_app, Hq, Hyear, Hql; by rewrite ?app_nil_l.
  destruct (language_pattern (c :: s)) as [l|] eqn:Hl; [|done].
  intros <-%Normal_inj. rewrite !map_app, Hq, Hyear, Hql. cbn [map].
  by rewrite (lex_language_pattern _ _ Hl).
Qed.

Lemma parse_literal (s : jsstring) : parse (literal_tokens s) = Some [literal_terms s].
Proof.
  induction s as [|c s IH]; [done|].
  change (literal_tokens (c :: s)) with (KChar c :: literal_tokens s).
  change (literal_terms (c :: s)) with (TAtom (ALit c) QOne :: literal_terms s).
  cbn [parse atom_of]. destruct s as [|c' s].
  - reflexivity.
  - change (literal_tokens (c' :: s)) with (KChar c' :: literal_tokens s) in *.
    cbn [quantifier_of]. by rewrite IH.
Qed.

(** The escaped text compiles to the sequence of its own characters. *)
Lemma RegExp_i_escaped (s : jsstring) : RegExp_i (escapeRegex s) = Compiled [literal_terms s].
Proof. unfold RegExp_i. by rewrite lex_escapeRegex, parse_literal. Qed.

Section literal_match.
Variable canonicalize : N -> N.

Lemma match_literal (s : jsstring) : forall (prev : option N) (subject : jsstring),
  match_terms canonicalize (literal_terms s) prev subject = true <->
  exists mid post, subject = mid ++ post /\ map canonicalize mid = map canonicalize s.
Proof.
  induction s as [|c s IH]; intros prev subject.
  - split; [|done]. intros _. by exists [], subject.
  - change (literal_terms (c :: s)) with (TAtom (ALit c) QOne :: literal_terms s).
    cbn [match_terms]. destruct subject as [|x subject].
    + split; [done|]. intros (mid & post & Heq & Hmap).
      destruct mid; [done|]. done.
    + rewrite andb_true_iff, IH. cbn [atom_matches]. rewrite N.eqb_eq. split.
      * intros (Hc & mid & post & -> & Hmap). exists (x :: mid), post.
        split; [done|]. cbn [map]. by rewrite Hc, Hmap.
      * intros (mid & post & Heq & Hmap). destruct mid as [|y mid]; [done|].
        cbn [map] in Hmap. injection Hmap as Hy Hmap. injection Heq as -> ->.
        split; [done|]. by exists mid, post.
Qed.

Lemma search_literal (s : jsstring) : forall (prev : option N) (subject : jsstring),
  search_from canonicalize [literal_terms s] prev subject = true <->
  contains_folded canonicalize subject s.
Proof.
  intros prev subject. revert prev.
  induction subject as [|x subject IH]; intros prev; cbn [search_from existsb];
    rewrite !orb_true_iff, match_literal.
  - split.
    + intros [[(mid & post & Heq & Hmap)|?]|?]; [|done..]. by exists [], mid, post.
    + intros (pre & mid & post & Heq & Hmap). left. left.
      symmetry in Heq. apply app_eq_nil in Heq as [-> Heq]. by exists mid, post.
  - rewrite IH. split.
    + intros [[(mid & post & Heq & Hmap)|?]|(pre & mid & post & Heq & Hmap)].
      * by exists [], mid, post.
      * done.
      * exists (x :: pre), mid, post. split; [|done]. by rewrite Heq.
    + intros (pre & mid & post & Heq & Hmap). destruct pre as [|y pre].
      * left. left. by exists mid, post.
      * right. injection Heq as -> ->. by exists pre, mid, post.
Qed.
End literal_match.

(** X30.  Whatever the query, the language code and the quality tag, and
    for a year that is absent or a string of digits, every condition the
    composer builds reads user text as literal characters only: the tokens
    of each pattern are the expected ones, in which the query, the
    language code, the year and the quality tag occur as literals; the
    condition of the query, and that of the quality tag, matches exactly
    the names that hold the text itself, up to case. *)
Theorem composer_reads_user_text_literally
    (canonicalize : N -> N) (q : jsstring) (f : SearchFilters) (pats : list jsstring) :
  year_of_digits (year f) ->
  condition_patterns q f = Normal pats ->
  map lex pats = map Lexed (expected_tokens q f) /\
  (q <> [] ->
   head pats = Some (escapeRegex q) /\
   exists r, RegExp_i (escapeRegex q) = Compiled r /\
     forall name, regexp_test canonicalize r name = true <->
                  contains_folded canonicalize name q) /\
  (forall tag rest, quality f = JStr (tag :: rest) ->
   last pats = Some (escapeRegex (tag :: rest)) /\
   exists r, RegExp_i (escapeRegex (tag :: rest)) = Compiled r /\
     forall name, regexp_test canonicalize r name = true <->
                  contains_folded canonicalize name (tag :: rest)).
Proof.
  intros Hy Hpats. split; [by apply lex_condition_patterns|]. split.
  - intros Hq. split.
    + revert Hpats. unfold condition_patterns. destruct q as [|c q]; [done|].
      destruct (file_lang f) as [| |[|c' s']]; try by intros <-%Normal_inj.
      destruct (language_pattern (c' :: s')); [|done]. by intros <-%Normal_inj.
    + exists [literal_terms q]. split; [apply RegExp_i_escaped|].
      intros name. apply search_literal.
  - intros tag rest Hql. split.
    + revert Hpats. unfold condition_patterns. rewrite Hql.
      destruct (file_lang f) as [| |[|c' s']];
        try (intros <-%Normal_inj; by rewrite !app_assoc, last_snoc).
      destruct (language_pattern (c' :: s')); [|done].
      intros <-%Normal_inj. by rewrite !app_assoc, last_snoc.
    + exists [literal_terms (tag :: rest)]. split; [apply RegExp_i_escaped|].
      intros name. apply search_literal.
Qed.

Lemma ascii_upper_dot_star (mid : jsstring) :
  map ascii_upper mid = map ascii_upper (lit ".*") -> mid = lit ".*".
Proof.
  assert (Hinj : forall u k, (k < 65)%N -> ascii_upper u = k -> u = k).
  { intros u k Hk. unfold ascii_upper.
    destruct (N.leb_spec 97 u); destruct (N.leb_spec u 122); cbn; lia. }
  change (map ascii_upper (lit ".*")) with [46%N; 42%N].
  destruct mid as [|a [|b [|? ?]]]; try done. cbn [map]. intros [= Ha Hb].
  apply Hinj in Ha; [|lia]. apply Hinj in Hb; [|lia]. by subst.
Qed.

Lemma composer_reads_user_text_literally_witness :
  exists r, RegExp_i (escapeRegex (lit ".*")) = Compiled r /\
    (forall name, regexp_test ascii_upper r name = true <->
                  exists pre post, name = pre ++ lit ".*" ++ post) /\
    regexp_test ascii_upper r (lit "Inception 2010") = false /\
    regexp_test ascii_upper r (lit "Up.*Down") = true.
Proof.
  destruct (composer_reads_user_text_literally ascii_upper (lit ".*")
    {| file_lang := JStr (lit "HI"); year := JStr (lit "2021");
       quality := JStr (lit "4K") |}
    [escapeRegex (lit ".*");
     escapeRegex (lit "Hindi") ++ [bar] ++ word_boundary ++ escapeRegex (lit "HI")
       ++ word_boundary;
     word_boundary ++ lit "2021" ++ word_boundary;
     escapeRegex (lit "4K")]) as (_ & Hq & _).
  - cbn. repeat (constructor; [unfold is_digit; lia|]). constructor.
  - reflexivity.
  - destruct Hq as (_ & r & Hr & Hm); [done|].
    exists r. split; [exact Hr|]. split.
    + intros name. rewrite Hm. split.
      * intros (pre & mid & post & -> & Hmid). apply ascii_upper_dot_star in Hmid as ->.
        by exists pre, post.
      * intros (pre & post & ->). by exists pre, (lit ".*"), post.
    + rewrite RegExp_i_escaped in Hr. injection Hr as <-. by vm_compute.
Defined.

(** Left unescaped, the same text is a pattern that matches any name. *)
Lemma unescaped_dot_star_is_a_pattern :
  RegExp_i (lit ".*") = Compiled [[TAtom AAny QStar]] /\
  regexp_test ascii_upper [[TAtom AAny QStar]] (lit "Inception 2010") = true.
Proof. by vm_compute. Qed.

(** The year is interpolated as it is: only a year of digits reads as
    literals. *)
Lemma year_is_not_escaped :
  condition_patterns [] {| file_lang := JNull; year := JStr (lit ".*"); quality := JNull |}
    = Normal [word_boundary ++ lit ".*" ++ word_boundary] /\
  lex (word_boundary ++ lit ".*" ++ word_boundary) = Lexed [KWordB; KDot; KStar; KWordB].
Proof. by vm_compute. Qed.

(** C5.  The year filter is read as a pattern: the composer puts the year
    [20.4] between two word boundaries as it is, its dot lexes as the
    any-character token, and the search returns the record named
    [Interstellar 2014 1080p], which does not hold the text [20.4]. *)
Theorem year_filter_is_read_as_a_pattern :
  let f := {| file_lang := JNull; year := JStr (lit "20.4"); quality := JNull |} in
  condition_patterns [] f = Normal [word_boundary ++ lit "20.4" ++ word_boundary] /\
  lex (word_boundary ++ lit "20.4" ++ word_boundary) =
    Lexed [KWordB; KChar 50%N; KChar 48%N; KDot; KChar 52%N; KWordB] /\
  map file_name (filesCollection example_world) =
    [lit "Inception 2010 720p"; lit "Interstellar 2014 1080p"; lit "Inception.2010.4K"] /\
  (exists r, outcome (example_search never_fails [] 0%N f example_world) = Normal r /\
             map file_name (files r) = [lit "Interstellar 2014 1080p"]) /\
  ~ contains_folded ascii_upper (lit "Interstellar 2014 1080p") (lit "20.4").
Proof.
  split; [by vm_compute|]. split; [by vm_compute|]. split; [by vm_compute|].
  split; [eexists; split; by vm_compute|].
  intros (pre & mid & post & Hname & Hmid).
  assert (Hinj : forall u k, (k < 65)%N -> ascii_upper u = k -> u = k).
  { intros u k Hk. unfold ascii_upper.
    destruct (N.leb_spec 97 u); destruct (N.leb_spec u 122); cbn; lia. }
  change (map ascii_upper (lit "20.4")) with [50%N; 48%N; 46%N; 52%N] in Hmid.
  destruct mid as [|a [|b [|c0 [|d [|? ?]]]]]; try done. cbn [map] in Hmid.
  injection Hmid as Ha Hb Hc Hd.
  apply Hinj in Ha, Hb, Hc, Hd; try lia. subst.
  assert (Hdot : 46%N ∈ lit "Interstellar 2014 1080p").
  { rewrite Hname. apply elem_of_app. right. cbn. set_solver. }
  revert Hdot. by apply (bool_decide_unpack _).
Qed.

(** ** The search executor *)

Section ExecutorFacts.
Context {regexp : Type}.
Variable compose : jsstring -> SearchFilters -> completion (list jsstring).
Variable RegExp : jsstring -> option regexp.
Variable regexp_matches : regexp -> jsstring -> bool.
Variable fuse_search : list ContentRecord -> jsstring -> list FuseResult.
Variable toLowerCase : jsstring -> jsstring.
Variable fails : store_call -> bool.
Variable now : Z.

Local Abbreviation search :=
  (searchFiles compose RegExp regexp_matches fuse_search toLowerCase fails now).

Ltac exec :=
  unfold searchFiles, try_catch, searchFiles_try, trackSearch, find_sorted,
    trending_updateOne, fuse, emit, lift, throw, mbind, M_bind, mret, M_ret;
  cbn [outcome final trace].

Lemma searchFiles_run (q : jsstring) (p : N) (f : SearchFilters) (w : World) :
  search q p f w =
  match compose q f with
  | Throw _ => {| outcome := Normal empty_result; final := w; trace := [] |}
  | Normal pats =>
      match compile_all RegExp pats with
      | Throw _ => {| outcome := Normal empty_result; final := w; trace := [] |}
      | Normal conds =>
          let find1 := EvFind FindPage pats (page_skip p) (RESULTS_PER_PAGE + 1) in
          let find2 := EvFind FindRecent [] 0 1000 in
          let results := fetched regexp_matches conds p w in
          if fails FindPage
          then {| outcome := Normal empty_result; final := w; trace := [find1] |}
          else if fallback_due q f (trimmed results) then
            if fails FindRecent
            then {| outcome := Normal empty_result; final := w; trace := [find1; find2] |}
            else {| outcome := Normal (fuzzy_page regexp_matches fuse_search q p w); final := w;
                    trace := [find1; find2;
                              EvFuseSearch q (length (recent regexp_matches w))] |}
          else if tracking_due q p f && negb (length q <? 3)%nat then
            {| outcome := Normal (exact_page results p);
               final := if fails UpdateTrending then w else bump now (toLowerCase q) w;
               trace := [find1; EvTrendingUpdate (toLowerCase q)] |}
          else {| outcome := Normal (exact_page results p); final := w;
                  trace := [find1] |}
      end
  end.
Proof.
  exec.
  destruct (compose q f) as [pats|e]; [|reflexivity].
  destruct (compile_all RegExp pats) as [conds|e]; [|reflexivity].
  unfold fallback_due, tracking_due, fuzzy_page, exact_page, bump, counter,
    recent, trimmed, fetched, page_skip.
  cbv zeta.
  destruct (fails FindPage); [reflexivity|].
  set (results := take (RESULTS_PER_PAGE + 1) _).
  set (files := if (RESULTS_PER_PAGE <? length results)%nat then _ else _).
  set (allFiles := take 1000 _).
  destruct (length files =? 0)%nat; destruct (bool_decide (q = []));
    destruct (truthy (file_lang f)); destruct (truthy (year f));
    cbn [andb orb negb]; try reflexivity;
    try (destruct (fails FindRecent); reflexivity);
    destruct (truthy (quality f)); destruct (p =? 0)%N;
    destruct (length q <? 3)%nat; cbn [andb orb negb]; try reflexivity;
    destruct (fails UpdateTrending); reflexivity.
Qed.

Lemma no_conditions_all (l : list ContentRecord) :
  List.filter (satisfies regexp_matches []) l = l.
Proof. induction l as [|d l IH]; simpl; [done|]. by rewrite IH. Qed.

(** The working set is the 1000 most recent records of the catalog. *)
Lemma recent_all (w : World) :
  recent regexp_matches w = take 1000 (sort_desc (filesCollection w)).
Proof. unfold recent. by rewrite no_conditions_all. Qed.

Lemma exact_result_Some q p f w files :
  exact_result compose RegExp regexp_matches fails q p f w = Some files ->
  exists pats conds,
    compose q f = Normal pats /\ compile_all RegExp pats = Normal conds /\
    fails FindPage = false /\ files = trimmed (fetched regexp_matches conds p w).
Proof.
  unfold exact_result. intros H.
  destruct (compose q f) as [pats|]; [|done].
  destruct (compile_all RegExp pats) as [conds|] eqn:Hc; [|done].
  destruct (fails FindPage); [done|]. exists pats, conds.
  injection H as <-. by repeat split.
Qed.

Lemma exact_result_None q p f w :
  exact_result compose RegExp regexp_matches fails q p f w = None ->
  outcome (search q p f w) = Normal empty_result /\ final (search q p f w) = w.
Proof.
  unfold exact_result. rewrite searchFiles_run. intros H.
  destruct (compose q f) as [pats|]; [|done].
  destruct (compile_all RegExp pats) as [conds|]; [|done].
  cbv zeta. by destruct (fails FindPage).
Qed.

Lemma fallback_due_spec q f files :
  fallback_due q f files = true <->
  files = [] /\ q <> [] /\ truthy (file_lang f) = false /\ truthy (year f) = false.
Proof.
  unfold fallback_due. rewrite !andb_true_iff, !negb_true_iff, Nat.eqb_eq.
  rewrite bool_decide_eq_false, length_zero_iff_nil. tauto.
Qed.

(** The trace of a run whose exact result exists. *)
Lemma search_trace_cases q p f w :
  let run := search q p f w in
  (~ fallback_triggered (trace run) /\ ~ matcher_ran (trace run) /\
   (exact_result compose RegExp regexp_matches fails q p f w = None \/
    exists files, exact_result compose RegExp regexp_matches fails q p f w = Some files /\
                  fallback_due q f files = false /\
                  exists hasMore, outcome run =
                    Normal {| files := files; hasNext := hasMore; hasPrev := (0 <? p)%N;
                              currentPage := p; isFuzzy := false |})) \/
  (fallback_triggered (trace run) /\
   exact_result compose RegExp regexp_matches fails q p f w = Some [] /\
   fallback_due q f [] = true /\
   ((fails FindRecent = true /\ ~ matcher_ran (trace run) /\
     outcome run = Normal empty_result) \/
    (fails FindRecent = false /\ matcher_ran (trace run) /\
     outcome run = Normal (fuzzy_page regexp_matches fuse_search q p w)))).
Proof.
  cbv zeta. unfold exact_result. rewrite searchFiles_run.
  assert (Hnil : ~ fallback_triggered [] /\ ~ matcher_ran []).
  { split; [intros (?&?&?&H%elem_of_nil)|intros (?&?&H%elem_of_nil)]; done. }
  destruct (compose q f) as [pats|];
    [|left; split; [apply Hnil|split; [apply Hnil|by left]]].
  destruct (compile_all RegExp pats) as [conds|];
    [|left; split; [apply Hnil|split; [apply Hnil|by left]]].
  cbv zeta. destruct (fails FindPage).
  { left. split; [|split; [|by left]].
    - intros (?&?&?&H%list_elem_of_singleton). done.
    - intros (?&?&H%list_elem_of_singleton). done. }
  destruct (fallback_due q f _) eqn:Hdue.
  - right. pose proof Hdue as Hdue'. apply fallback_due_spec in Hdue' as (Hfiles & _).
    rewrite Hfiles in Hdue |- *.
    assert (Htrig : forall l, fallback_triggered
              (EvFind FindPage pats (page_skip p) (RESULTS_PER_PAGE + 1)
               :: EvFind FindRecent [] 0 1000 :: l)).
    { intros l. exists [], 0%nat, 1000%nat. apply list_elem_of_further, list_elem_of_here. }
    destruct (fails FindRecent); cbn [outcome trace]; split; try apply Htrig;
      split; try done; split; try done; [left|right]; split; try done; split; try done.
    + intros (?&?&H). repeat (apply elem_of_cons in H as [H|H]; [done|]).
      by apply elem_of_nil in H.
    + eexists _, _. do 2 apply list_elem_of_further. apply list_elem_of_here.
  - left.
    assert (Hno : forall l, (forall ev, ev ∈ l -> exists k, ev = EvTrendingUpdate k) ->
              ~ fallback_triggered (EvFind FindPage pats (page_skip p) (RESULTS_PER_PAGE + 1) :: l) /\
              ~ matcher_ran (EvFind FindPage pats (page_skip p) (RESULTS_PER_PAGE + 1) :: l)).
    { intros l Hl. split.
      - intros (?&?&?&[H|H]%elem_of_cons); [done|]. by destruct (Hl _ H).
      - intros (?&?&[H|H]%elem_of_cons); [done|]. by destruct (Hl _ H). }
    destruct (tracking_due q p f && negb (length q <? 3)%nat); cbn [outcome trace].
    + destruct (Hno [EvTrendingUpdate (toLowerCase q)]) as [H1 H2].
      { intros ev ->%list_elem_of_singleton. eauto. }
      split; [done|]. split; [done|]. right. eexists. split; [done|]. split; [done|].
      by eexists.
    + destruct (Hno []) as [H1 H2]. { by intros ev ?%elem_of_nil. }
      split; [done|]. split; [done|]. right. eexists. split; [done|]. split; [done|].
      by eexists.
Qed.

(** C9 (amended).  For every page [p], when the search does not end in
    its error handler, [hasPrev] is [p > 0]. *)
Theorem hasPrev_unless_faulted (q : jsstring) (p : N) (f : SearchFilters) (w : World) :
  ~ search_faulted compose RegExp regexp_matches fails q p f w ->
  exists r, outcome (search q p f w) = Normal r /\ hasPrev r = (0 <? p)%N.
Proof.
  unfold search_faulted. intros Hok.
  destruct (search_trace_cases q p f w) as
    [(_ & _ & [Hnone|(files & Hex & Hdue & hasMore & Hout)])
    |(_ & Hex & Hdue & [(Hf & _)|(_ & _ & Hout)])].
  - by rewrite Hnone in Hok.
  - rewrite Hout. by eexists.
  - rewrite Hex in Hok. by destruct Hok.
  - rewrite Hout. by eexists.
Qed.

(** In its error handler the search returns the empty result, whose
    [hasPrev] is false whatever the page. *)
Lemma hasPrev_faulted (q : jsstring) (p : N) (f : SearchFilters) (w : World) :
  search_faulted compose RegExp regexp_matches fails q p f w ->
  outcome (search q p f w) = Normal empty_result.
Proof.
  unfold search_faulted. intros Hbad.
  destruct (search_trace_cases q p f w) as
    [(_ & _ & [Hnone|(files & Hex & Hdue & hasMore & Hout)])
    |(_ & Hex & Hdue & [(Hf & _ & Hout)|(Hf & _)])].
  - by apply exact_result_None.
  - rewrite Hex in Hbad. destruct Hbad as [Hd _]. congruence.
  - done.
  - rewrite Hex in Hbad. destruct Hbad as [_ Hd]. congruence.
Qed.

(** C3 (as amended).  The fuzzy matcher runs exactly when the exact
    (trimmed) result is empty, the query text is non-empty, neither a
    language nor a year filter is active, whatever the quality filter,
    and the query for the working set of the fallback succeeds.  The
    fallback is entered, that query being issued, exactly under the first
    four conditions; the result carries [isFuzzy = true] exactly when the
    matcher ran, and when the query for the working set fails the search
    returns the empty result of its error handler. *)
Theorem fallback_iff (q : jsstring) (p : N) (f : SearchFilters) (w : World) :
  let run := search q p f w in
  (matcher_ran (trace run) <->
     exact_result compose RegExp regexp_matches fails q p f w = Some [] /\ q <> [] /\
     truthy (file_lang f) = false /\ truthy (year f) = false /\
     fails FindRecent = false) /\
  (fallback_triggered (trace run) <->
     exact_result compose RegExp regexp_matches fails q p f w = Some [] /\ q <> [] /\
     truthy (file_lang f) = false /\ truthy (year f) = false) /\
  (matcher_ran (trace run) <->
     exists r, outcome run = Normal r /\ isFuzzy r = true) /\
  (fallback_triggered (trace run) -> fails FindRecent = true ->
     outcome run = Normal empty_result).
Proof.
  cbv zeta.
  assert (Htrig : fallback_triggered (trace (search q p f w)) <->
            exact_result compose RegExp regexp_matches fails q p f w = Some [] /\ q <> [] /\
            truthy (file_lang f) = false /\ truthy (year f) = false).
  { destruct (search_trace_cases q p f w) as
      [(Hnt & Hnr & Hcase)|(Htrig & Hex & Hdue & Hcase)].
    - split; [done|]. intros (Hex & Hq & Hl & Hy). exfalso.
      destruct Hcase as [Hnone|(files & Hex' & Hdue & _)]; [congruence|].
      rewrite Hex in Hex'. injection Hex' as <-.
      assert (fallback_due q f [] = true) by (by apply fallback_due_spec).
      congruence.
    - apply fallback_due_spec in Hdue as (_ & Hq & Hl & Hy). by split. }
  assert (Hran : matcher_ran (trace (search q p f w)) <->
            fallback_triggered (trace (search q p f w)) /\ fails FindRecent = false).
  { destruct (search_trace_cases q p f w) as
      [(Hnt & Hnr & Hcase)|(Htr & Hex & Hdue & Hcase)].
    - split; [done|]. by intros [? _].
    - destruct Hcase as [(Hf & Hnr & _)|(Hf & Hr & _)]; split; try done.
      intros [_ ?]. congruence. }
  split; [|split; [done|split]].
  - rewrite Hran, Htrig. tauto.
  - destruct (search_trace_cases q p f w) as
      [(Hnt & Hnr & Hcase)|(Htr & Hex & Hdue & Hcase)].
    + split; [done|]. intros (r & Hout & Hfz). exfalso.
      destruct Hcase as [Hnone|(files & _ & _ & hasMore & Hout')].
      * apply exact_result_None in Hnone as [Hout' _].
        rewrite Hout' in Hout. injection Hout as <-. done.
      * rewrite Hout' in Hout. injection Hout as <-. done.
    + destruct Hcase as [(Hf & Hnr & Hout)|(Hf & Hr & Hout)]; split; try done.
      * intros (r & Hout' & Hfz). rewrite Hout in Hout'. injection Hout' as <-. done.
      * intros _. rewrite Hout. by eexists.
  - intros Htr Hfail.
    destruct (search_trace_cases q p f w) as
      [(Hnt & _)|(_ & _ & _ & [(_ & _ & Hout)|(Hf & _)])]; [done|done|congruence].
Qed.


Lemma tracking_due_spec q p f :
  tracking_due q p f && negb (length q <? 3)%nat = true <->
  (3 <= length q)%nat /\ p = 0%N /\ truthy (file_lang f) = false /\
  truthy (year f) = false /\ truthy (quality f) = false.
Proof.
  unfold tracking_due. rewrite !andb_true_iff, !negb_true_iff, N.eqb_eq, Nat.ltb_ge.
  rewrite bool_decide_eq_false. split; [tauto|].
  intros (Hlen & ? & ? & ? & ?). repeat split; try done.
  intros ->. simpl in Hlen. lia.
Qed.

Lemma counter_bump (key : jsstring) (w : World) :
  counter (bump now key w) key = counter w key + 1 /\
  last_searched <$> trendingCollection (bump now key w) !! key = Some now /\
  (forall k, k <> key -> trendingCollection (bump now key w) !! k = trendingCollection w !! k).
Proof.
  unfold counter, bump. cbn [trendingCollection]. rewrite lookup_insert_eq.
  repeat split; [done..|]. intros k Hk. by rewrite lookup_insert_ne.
Qed.

(** C4 (amended).  An unfiltered page-0 search with a query of at least
    3 characters whose exact search returns at least one record asks for
    exactly one increment of the counter keyed by the lowercased query,
    and when that update succeeds the count goes up by one and the
    timestamp is set; a search with any filter active, a later page or a
    shorter query leaves the counters alone. *)
Theorem trending_tracked_on_exact_hit (q : jsstring) (p : N) (f : SearchFilters) (w : World) :
  let run := search q p f w in
  let key := toLowerCase q in
  ((3 <= length q)%nat -> p = 0%N -> truthy (file_lang f) = false ->
   truthy (year f) = false -> truthy (quality f) = false ->
   (exists d rest, exact_result compose RegExp regexp_matches fails q p f w = Some (d :: rest)) ->
   trending_updates key (trace run) = 1%nat /\
   (forall k, k <> key -> trending_updates k (trace run) = 0%nat) /\
   (fails UpdateTrending = false ->
    final run = bump now key w /\ counter (final run) key = counter w key + 1 /\
    last_searched <$> trendingCollection (final run) !! key = Some now)) /\
  ((truthy (file_lang f) = true \/ truthy (year f) = true \/ truthy (quality f) = true \/
    p <> 0%N \/ (length q < 3)%nat) ->
   final run = w /\ forall k, trending_updates k (trace run) = 0%nat).
Proof.
  cbv zeta. split.
  - intros Hlen Hp Hl Hy Hq (d & rest & Hex).
    apply exact_result_Some in Hex as (pats & conds & Hpats & Hconds & Hf & Hfiles).
    rewrite searchFiles_run, Hpats, Hconds. cbv zeta. rewrite Hf, <- Hfiles.
    assert (Hdue : fallback_due q f (d :: rest) = false) by done.
    rewrite Hdue.
    assert (Htr : tracking_due q p f && negb (length q <? 3)%nat = true)
      by (by apply tracking_due_spec).
    rewrite Htr. cbn [trace final]. unfold trending_updates. cbn [List.filter].
    rewrite bool_decide_eq_true_2 by done. split; [done|]. split.
    + intros k Hk. by rewrite bool_decide_eq_false_2.
    + intros Hok. rewrite Hok. split; [done|]. split; apply counter_bump.
  - intros Hcond.
    assert (Htr : tracking_due q p f && negb (length q <? 3)%nat = false).
    { apply not_true_is_false. rewrite tracking_due_spec.
      intros (? & ? & ? & ? & ?). destruct Hcond as [?|[?|[?|[?|?]]]]; try congruence. lia. }
    rewrite searchFiles_run.
    destruct (compose q f) as [pats|]; [|done].
    destruct (compile_all RegExp pats) as [conds|]; [|done].
    cbv zeta. destruct (fails FindPage); [done|].
    destruct (fallback_due q f _); [by destruct (fails FindRecent)|].
    rewrite Htr. done.
Qed.
End ExecutorFacts.

(** A failing update of the trending counter does not change what the
    search returns. *)
Lemma outcome_ignores_trending {regexp : Type}
    (compose : jsstring -> SearchFilters -> completion (list jsstring))
    (RegExp : jsstring -> option regexp) (regexp_matches : regexp -> jsstring -> bool)
    (fuse_search : list ContentRecord -> jsstring -> list FuseResult)
    (toLowerCase : jsstring -> jsstring) (fails fails' : store_call -> bool) (now : Z)
    (q : jsstring) (p : N) (f : SearchFilters) (w : World) :
  fails' FindPage = fails FindPage -> fails' FindRecent = fails FindRecent ->
  outcome (searchFiles compose RegExp regexp_matches fuse_search toLowerCase fails' now q p f w) =
  outcome (searchFiles compose RegExp regexp_matches fuse_search toLowerCase fails now q p f w).
Proof.
  intros Hpage Hrecent. rewrite !searchFiles_run, Hpage, Hrecent.
  destruct (compose q f) as [ps|]; [|done].
  destruct (compile_all RegExp ps) as [conds|]; [|done].
  cbv zeta. destruct (fails FindPage); [done|].
  destruct (fallback_due q f _); [by destruct (fails FindRecent)|].
  by destruct (tracking_due q p f && _).
Qed.

(** C7 (as amended).  [searchFiles] always returns, never throws; when a
    query it makes to the catalog (the page query or the query for the
    working set of the fallback) fails, what it returns is the empty
    result set, with [hasNext] and [hasPrev] false; a failing update of
    the trending counter leaves what it returns as it is. *)
Theorem store_failure_gives_empty_result {regexp : Type}
    (compose : jsstring -> SearchFilters -> completion (list jsstring))
    (RegExp : jsstring -> option regexp) (regexp_matches : regexp -> jsstring -> bool)
    (fuse_search : list ContentRecord -> jsstring -> list FuseResult)
    (toLowerCase : jsstring -> jsstring) (fails : store_call -> bool) (now : Z)
    (q : jsstring) (p : N) (f : SearchFilters) (w : World) :
  let search := searchFiles compose RegExp regexp_matches fuse_search toLowerCase in
  (forall call pats skip limit,
     EvFind call pats skip limit ∈ trace (search fails now q p f w) ->
     fails call = true ->
     outcome (search fails now q p f w) = Normal empty_result) /\
  files empty_result = [] /\ hasNext empty_result = false /\
  hasPrev empty_result = false /\
  (forall e, outcome (search fails now q p f w) <> Throw e) /\
  (fails FindPage = false -> fails FindRecent = false ->
   outcome (search fails now q p f w) = outcome (search (fun _ => false) now q p f w)).
Proof.
  cbv zeta. split; [|split; [done|split; [done|split; [done|split]]]].
  - intros call pats skip limit Hin Hfail. revert Hin. rewrite searchFiles_run.
    destruct (compose q f) as [ps|]; [|done].
    destruct (compile_all RegExp ps) as [conds|]; [|done].
    cbv zeta. destruct (fails FindPage) eqn:H1; [done|].
    destruct (fallback_due q f _).
    + destruct (fails FindRecent) eqn:H2; [done|]. cbn [trace].
      intros [Hev|[Hev|[Hev|Hev%elem_of_nil]%elem_of_cons]%elem_of_cons]%elem_of_cons;
        [injection Hev as -> _ _ _; congruence|injection Hev as -> _ _ _; congruence|
         done|done].
    + destruct (tracking_due q p f && _); cbn [trace].
      * intros [Hev|[Hev|Hev%elem_of_nil]%elem_of_cons]%elem_of_cons;
          [injection Hev as -> _ _ _; congruence|done|done].
      * intros [Hev|Hev%elem_of_nil]%elem_of_cons;
          [injection Hev as -> _ _ _; congruence|done].
  - intros e. rewrite searchFiles_run.
    destruct (compose q f) as [ps|]; [|done].
    destruct (compile_all RegExp ps) as [conds|]; [|done].
    cbv zeta. destruct (fails FindPage); [done|].
    destruct (fallback_due q f _); [by destruct (fails FindRecent)|].
    by destruct (tracking_due q p f && _).
  - intros Hpage Hrecent. by apply outcome_ignores_trending.
Qed.

(** *** The executor on concrete searches *)

Lemma store_failure_gives_empty_result_witness :
  outcome (example_search always_fails (lit "inception") 2 no_filters example_world)
  = Normal empty_result.
Proof.
  refine (proj1 (store_failure_gives_empty_result condition_patterns fragment_RegExp
    (regexp_test ascii_upper) accept_all (map ascii_lower) always_fails 1700000000
    (lit "inception") 2%N no_filters example_world)
    FindPage [lit "inception"] 20%nat 11%nat _ _).
  - vm_compute. apply list_elem_of_here.
  - reflexivity.
Defined.

(** C7, the claim as stated fails: when the update of the trending
    counter, a call to the store, is the call that fails, the search
    returns its page of two records, not the empty result set. *)
Lemma trending_failure_counterexample :
  let run := example_search trending_fails (lit "Inception") 0 no_filters example_world in
  EvTrendingUpdate (lit "inception") ∈ trace run /\ trending_fails UpdateTrending = true /\
  (exists r, outcome run = Normal r /\
     map file_name (files r) = [lit "Inception.2010.4K"; lit "Inception 2010 720p"]) /\
  outcome run <> Normal empty_result.
Proof.
  cbv zeta. split; [vm_compute; apply list_elem_of_further, list_elem_of_here|].
  split; [done|]. split; [eexists; split; by vm_compute|]. by vm_compute.
Qed.

(** C9 (counterexample).  On page 1, with a failing store, the result has
    [hasPrev = false] although [1 > 0]. *)
Lemma hasPrev_store_failure_counterexample :
  exists r,
    outcome (example_search always_fails (lit "inception") 1 no_filters example_world)
    = Normal r /\
    hasPrev r = false /\ (0 <? 1)%N = true.
Proof. exists empty_result. by vm_compute. Qed.

Lemma hasPrev_unless_faulted_witness :
  exists r,
    outcome (example_search never_fails (lit "inception") 1 no_filters example_world)
    = Normal r /\
    hasPrev r = (0 <? 1)%N.
Proof.
  refine (hasPrev_unless_faulted condition_patterns fragment_RegExp (regexp_test ascii_upper) accept_all
    (map ascii_lower) never_fails 1700000000 (lit "inception") 1%N no_filters
    example_world _).
  vm_compute. by intros [? ?].
Defined.

(** C3, the claim as stated fails: the exact result is empty, the query
    is not, no language or year filter is active, and the query for the
    working set of the fallback fails: the matcher does not run and the
    result is the empty one of the error handler, not marked fuzzy. *)
Lemma fallback_without_matcher_counterexample :
  let run := example_search working_set_fails (lit "intercepton") 0 no_filters
               example_world in
  exact_result condition_patterns fragment_RegExp (regexp_test ascii_upper)
    working_set_fails (lit "intercepton") 0 no_filters example_world = Some [] /\
  lit "intercepton" <> [] /\
  truthy (file_lang no_filters) = false /\ truthy (year no_filters) = false /\
  ~ matcher_ran (trace run) /\
  outcome run = Normal empty_result /\ isFuzzy empty_result = false.
Proof.
  cbv zeta. split; [by vm_compute|]. split; [done|]. split; [done|]. split; [done|].
  split; [|by vm_compute].
  intros (query & n & Hin). apply list_elem_of_In in Hin. vm_compute in Hin.
  by destruct Hin as [Hin|[Hin|Hin]].
Qed.

(** A search with only a quality filter and no exact match triggers the
    fallback, whose result is marked fuzzy. *)
Lemma fallback_iff_witness :
  let run := example_search never_fails (lit "intercepton") 0 only_4K example_world in
  truthy (quality only_4K) = true /\
  fallback_triggered (trace run) /\ matcher_ran (trace run) /\
  exists r, outcome run = Normal r /\ isFuzzy r = true.
Proof.
  cbv zeta.
  destruct (fallback_iff condition_patterns fragment_RegExp (regexp_test ascii_upper)
    accept_all (map ascii_lower) never_fails 1700000000 (lit "intercepton") 0%N
    only_4K example_world) as (Hran & Htrig & Hfz & _).
  assert (Ht : fallback_triggered (trace (example_search never_fails (lit "intercepton")
                 0 only_4K example_world))).
  { apply Htrig. by vm_compute. }
  assert (Hr : matcher_ran (trace (example_search never_fails (lit "intercepton")
                 0 only_4K example_world))).
  { apply Hran. by vm_compute. }
  split; [done|]. split; [exact Ht|]. split; [exact Hr|]. by apply Hfz.
Defined.


(** C4 (counterexample).  An unfiltered page-0 search with a query of 3
    characters and no exact match: the fallback answers and the trending
    counter is not touched. *)
Lemma trending_not_tracked_on_fallback :
  let run := example_search never_fails (lit "abc") 0 no_filters example_world in
  let key := map ascii_lower (lit "abc") in
  (3 <= length (lit "abc"))%nat /\
  (exists r, outcome run = Normal r /\ isFuzzy r = true) /\
  trending_updates key (trace run) = 0%nat /\
  counter (final run) key = counter example_world key.
Proof.
  cbv zeta. split; [vm_compute; lia|]. split; [eexists; by vm_compute|].
  split; by vm_compute.
Qed.

Lemma trending_tracked_on_exact_hit_witness :
  let run := example_search never_fails (lit "Inception") 0 no_filters example_world in
  let key := lit "inception" in
  trending_updates key (trace run) = 1%nat /\
  counter (final run) key = counter example_world key + 1.
Proof.
  cbv zeta.
  destruct (proj1 (trending_tracked_on_exact_hit condition_patterns fragment_RegExp (regexp_test ascii_upper)
    accept_all (map ascii_lower) never_fails 1700000000 (lit "Inception") 0%N
    no_filters example_world)) as (Hone & _ & Hbump).
  - vm_compute. lia.
  - reflexivity.
  - reflexivity.
  - reflexivity.
  - reflexivity.
  - eexists _, _. vm_compute. reflexivity.
  - split; [exact Hone|]. apply Hbump. reflexivity.
Defined.

(** ** Batch-range links *)

(** The two forms of a post link. *)
Example parse_private_post :
  parsePostUrl (lit "https://t.me/c/12345/678") =
  Some {| chatId := lit "-10012345"; messageId := 678 |}.
Proof. reflexivity. Qed.

Example parse_public_post :
  parsePostUrl (lit "https://t.me/movies/678/") =
  Some {| chatId := lit "@movies"; messageId := 678 |}.
Proof. reflexivity. Qed.

Example parse_not_a_post :
  parsePostUrl (lit "https://t.me/movies/latest") = None /\ parsePostUrl (lit "678") = None.
Proof. split; reflexivity. Qed.

(** Only [NaN] is refused as a message id. *)
Lemma parsePostUrl_not_NaN (url : jsstring) (info : PostInfo) :
  parsePostUrl url = Some info -> isNaN (messageId info) = false.
Proof.
  unfold parsePostUrl. destruct url as [|ch url]; [done|].
  destruct (isNaN (parseInt_val _)) eqn:Hnan; [done|].
  destruct (last (removelast _)); [|done]. by intros [= <-].
Qed.

Lemma Math_min_Num (a b : Z) : Math_min (Num a) (Num b) = Num (Z.min a b).
Proof. unfold Math_min, num_lt. destruct (Z.ltb_spec b a); f_equal; lia. Qed.

Lemma Math_max_Num (a b : Z) : Math_max (Num a) (Num b) = Num (Z.max a b).
Proof. unfold Math_max, num_lt. destruct (Z.ltb_spec a b); f_equal; lia. Qed.

Lemma to_number_safe (z : Z) : safe_integer z -> to_number z = Num z.
Proof. apply safe_integer_representable. Qed.

(** Rounding keeps an integer from 2^53 on at 2^53 or above. *)
Lemma round_magnitude_lower (a : Z) : 2 ^ 53 <= a -> 2 ^ 53 <= round_magnitude a.
Proof.
  intros Ha. unfold round_magnitude. destruct (Z.ltb_spec a (2 ^ 53)); [lia|].
  assert (Hpos : 0 < a) by lia.
  pose proof (Z.log2_spec a Hpos) as [Hlo _].
  assert (H53 : 53 <= Z.log2 a) by (apply Z.log2_le_pow2; lia).
  set (ex := Z.log2 a - 52) in *. set (q := a / 2 ^ ex).
  assert (H2 : 2 ^ 52 * 2 ^ ex <= a).
  { rewrite <- Z.pow_add_r by lia. replace (52 + ex) with (Z.log2 a) by lia. done. }
  assert (Hex : 0 < 2 ^ ex) by (apply Z.pow_pos_nonneg; lia).
  assert (Hq52 : 2 ^ 52 <= q) by (subst q; apply Z.div_le_lower_bound; lia).
  assert (H1 : 2 ^ 1 <= 2 ^ ex) by (apply Z.pow_le_mono_r; lia).
  destruct (_ || _); nia.
Qed.

(** The guard of [/link] on the difference of two finite ids. *)
Lemma span_guard (d : Z) :
  0 <= d ->
  num_lt 100 (to_number d) = (100 <? d) /\
  (d <= 100 -> num_add (to_number d) 1 = Num (d + 1)).
Proof.
  intros Hd. split.
  - destruct (Z.ltb_spec 100 d) as [Hbig|Hsmall].
    + unfold to_number. rewrite Z.abs_eq by done.
      destruct (Z.ltb_spec d 0); [lia|].
      destruct (Z.leb_spec (2 ^ 1024) (round_magnitude d)); [done|].
      cbn [num_lt]. apply Z.ltb_lt.
      destruct (Z.lt_ge_cases d (2 ^ 53)).
      * by rewrite round_magnitude_safe.
      * pose proof (round_magnitude_lower d). lia.
    + rewrite to_number_safe by (unfold safe_integer; lia). cbn [num_lt]. apply Z.ltb_ge. lia.
  - intros Hsmall. rewrite to_number_safe by (unfold safe_integer; lia). cbn [num_add].
    apply to_number_safe. unfold safe_integer. lia.
Qed.

(** What a payload of [/link] holds: two finite ids at most 100 apart
    with their count, or the same infinity twice with a count that is
    not a number. *)
Lemma link_created_cases (isAdmin : bool) (t : jsstring) (p : RangePayload)
    (count : number) :
  link_command isAdmin t = LinkCreated p count ->
  (exists a b, s p = Num a /\ e p = Num b /\ 0 <= b - a <= 100 /\
               count = Num (b - a + 1)) \/
  (exists negative, s p = Infinity negative /\ e p = Infinity negative /\ count = NaN).
Proof.
  unfold link_command.
  destruct isAdmin; [|done]. cbn [negb].
  destruct (drop 1 (split 32%N t)) as [|a0 args]; [done|].
  destruct (parsePostUrl a0) as [startInfo|] eqn:Hstart; [|done].
  apply parsePostUrl_not_NaN in Hstart.
  set (endId := match _ !! 1%nat with Some (ch :: r) => _ | _ => _ end).
  assert (Hend : isNaN endId = false).
  { subst endId. destruct (_ !! 1%nat) as [[|ch r]|]; [done| |done].
    destruct (parsePostUrl (ch :: r)) eqn:Hp; [|done]. by apply parsePostUrl_not_NaN in Hp. }
  destruct (messageId startInfo) as [|n|a]; [done| |];
    destruct endId as [|m|b]; try done.
  - destruct n, m; cbn; try done; intros [= <- <-]; right; by eexists.
  - by destruct n.
  - by destruct m.
  - rewrite Math_min_Num, Math_max_Num. cbn [num_sub].
    destruct (span_guard (Z.max a b - Z.min a b)) as [-> Hcount]; [lia|].
    destruct (Z.ltb_spec 100 (Z.max a b - Z.min a b)); [done|].
    intros [= <- <-]. left. exists (Z.min a b), (Z.max a b). cbn [s e].
    split; [done|]. split; [done|]. split; [lia|]. by apply Hcount.
Qed.

(** C6.  On message ids that are finite numbers the command orders the
    two ids, answers "range too large" without building a payload when
    they are more than 100 apart, and builds a payload with
    [0 <= e - s <= 100] otherwise; a payload it builds either is of this
    kind or holds the same infinity for both ids, with a count that is
    not a number.  The second kind exists: an id of 400 digits is read as
    [Infinity], which [isNaN] lets through, the guard compares [NaN] with
    100, and the payload built, whose ids [JSON.stringify] writes as
    [null], is refused as corrupted by the handler of the link. *)
Theorem link_range_guard :
  let text := lit "/link https://t.me/c/1/" ++ repeat 57%N 400 in
  let payload := {| c := lit "-1001"; s := Infinity false; e := Infinity false |} in
  (link_command true text = LinkCreated payload NaN /\
   dump_data_of payload =
     Normal (JsonObject [(lit "c", JsonString (lit "-1001")); (lit "s", JsonNull);
                         (lit "e", JsonNull)]) /\
   forall fuel user env,
     handleDumpBatch_deliver fuel user (dump_data_of payload) env = Some DumpCorrupted) /\
  (forall (text arg0 arg1 : jsstring) (rest : list jsstring) (i0 i1 : PostInfo) (a b : Z),
     drop 1 (split 32%N text) = arg0 :: arg1 :: rest ->
     parsePostUrl arg0 = Some i0 -> parsePostUrl arg1 = Some i1 ->
     messageId i0 = Num a -> messageId i1 = Num b ->
     let lo := Z.min a b in
     let hi := Z.max a b in
     (100 < hi - lo -> link_command true text = LinkRangeTooLarge) /\
     (hi - lo <= 100 ->
      link_command true text =
        LinkCreated {| c := chatId i0; s := lo; e := hi |} (hi - lo + 1))) /\
  (forall isAdmin t p count,
     link_command isAdmin t = LinkCreated p count ->
     (exists a b, s p = Num a /\ e p = Num b /\ 0 <= b - a <= 100 /\
                  count = Num (b - a + 1)) \/
     (exists negative, s p = Infinity negative /\ e p = Infinity negative /\
                       count = NaN)).
Proof.
  cbv zeta. split; [|split].
  - split; [by vm_compute|]. split; [done|]. intros fuel user env. reflexivity.
  - intros text arg0 arg1 rest i0 i1 a b Hargs H0 H1 Ha Hb.
    assert (Hcmd : link_command true text =
              if 100 <? Z.max a b - Z.min a b then LinkRangeTooLarge
              else LinkCreated {| c := chatId i0; s := Z.min a b; e := Z.max a b |}
                     (num_add (to_number (Z.max a b - Z.min a b)) 1)).
    { unfold link_command. cbn [negb]. rewrite Hargs, H0.
      cbn [lookup list_lookup]. destruct arg1 as [|ch r]; [done|]. rewrite H1, Ha, Hb.
      rewrite Math_min_Num, Math_max_Num. cbn [num_sub].
      by destruct (span_guard (Z.max a b - Z.min a b)) as [-> _]; [lia|]. }
    cbv zeta. split.
    + intros Hbig. rewrite Hcmd. by destruct (Z.ltb_spec 100 (Z.max a b - Z.min a b)); [|lia].
    + intros Hsmall. rewrite Hcmd.
      destruct (Z.ltb_spec 100 (Z.max a b - Z.min a b)); [lia|].
      destruct (span_guard (Z.max a b - Z.min a b)) as [_ Hcount]; [lia|].
      by rewrite Hcount.
  - apply link_created_cases.
Qed.

Lemma link_range_guard_witness :
  link_command true (lit "/link https://t.me/c/12345/100 https://t.me/c/12345/250")
    = LinkRangeTooLarge /\
  link_command true (lit "/link https://t.me/c/12345/260 https://t.me/c/12345/250")
    = LinkCreated {| c := lit "-10012345"; s := 250; e := 260 |} 11.
Proof.
  split.
  - refine (proj1 (proj1 (proj2 link_range_guard)
      (lit "/link https://t.me/c/12345/100 https://t.me/c/12345/250")
      (lit "https://t.me/c/12345/100") (lit "https://t.me/c/12345/250") []
      {| chatId := lit "-10012345"; messageId := 100 |}
      {| chatId := lit "-10012345"; messageId := 250 |} 100 250 _ _ _ _ _) _);
      [reflexivity..|vm_compute; reflexivity].
  - refine (proj2 (proj1 (proj2 link_range_guard)
      (lit "/link https://t.me/c/12345/260 https://t.me/c/12345/250")
      (lit "https://t.me/c/12345/260") (lit "https://t.me/c/12345/250") []
      {| chatId := lit "-10012345"; messageId := 260 |}
      {| chatId := lit "-10012345"; messageId := 250 |} 260 250 _ _ _ _ _) _);
      [reflexivity..|vm_compute; discriminate].
Defined.

(** An id above 2^53 is rounded: the link of message 9007199254740993
    covers message 9007199254740992. *)
Example link_rounds_large_id :
  link_command true (lit "/link https://t.me/c/1/9007199254740993") =
  LinkCreated {| c := lit "-1001"; s := 9007199254740992; e := 9007199254740992 |} 1.
Proof. by vm_compute. Qed.

(** ** Ephemeral delivery *)

Lemma delete_each_quiet (tg : Transport) (chat : Z) (msgs : list Z) :
  notices (delete_each tg chat msgs) = [] /\ armed (delete_each tg chat msgs) = [].
Proof. induction msgs as [|m msgs [IH1 IH2]]; [done|]. by cbn. Qed.

Lemma batch_expire_notice (tg : Transport) (chat delay n : Z) (msgs : list Z) :
  notice_id tg = Some n ->
  notices (delete_each tg chat msgs ++ notify_and_arm tg chat delay) = [Some n] /\
  armed (delete_each tg chat msgs ++ notify_and_arm tg chat delay) = [(delay, n)].
Proof.
  intros Hn. destruct (delete_each_quiet tg chat msgs) as [H1 H2].
  unfold notices, armed in *. rewrite !omap_app, H1, H2.
  unfold notify_and_arm. by rewrite Hn.
Qed.

(** C8 (amended).  When the deletion step of a path has run (for the
    single file: has succeeded) and the notice is sent, exactly one notice
    is sent and exactly one deletion of it is armed, after a delay fixed
    for the path: 10 seconds for the single file, the [getall_] batch and
    the stateless batch link, 8 seconds for the dump-channel range link and
    5 seconds for the [gall:] batch; the content timer is 3600 seconds on
    every path. *)
Theorem notice_expiry_per_path (tg : Transport) (n chat msg : Z) (msgs : list Z) :
  notice_id tg = Some n ->
  (delete_ok tg chat msg = true ->
   notices (sendFile_expire tg chat msg) = [Some n] /\
   armed (sendFile_expire tg chat msg) = [(10000, n)]) /\
  (notices (getall_expire tg chat msgs) = [Some n] /\
   armed (getall_expire tg chat msgs) = [(10000, n)]) /\
  (notices (handleStatelessBatch_expire tg chat msgs) = [Some n] /\
   armed (handleStatelessBatch_expire tg chat msgs) = [(10000, n)]) /\
  (notices (handleDumpBatch_expire tg chat msgs) = [Some n] /\
   armed (handleDumpBatch_expire tg chat msgs) = [(8000, n)]) /\
  (notices (gall_expire tg chat msgs) = [Some n] /\
   armed (gall_expire tg chat msgs) = [(5000, n)]) /\
  (forall t, t ∈ [sendFile_timer chat msg; getall_timer chat msgs;
                  handleStatelessBatch_timer chat msgs;
                  handleDumpBatch_timer chat msgs; gall_timer chat msgs] ->
             forall timer, t = Some timer -> delay_ms timer = 3600 * 1000).
Proof.
  intros Hn.
  split; [|split; [|split; [|split; [|split]]]]; try by apply batch_expire_notice.
  - intros Hdel. unfold sendFile_expire, notify_and_arm. by rewrite Hdel, Hn.
  - intros t Ht timer Heq.
    repeat (apply elem_of_cons in Ht as [Ht|Ht];
            [rewrite Ht in Heq;
             unfold sendFile_timer, getall_timer, handleStatelessBatch_timer,
               handleDumpBatch_timer, gall_timer in Heq;
             destruct msgs; by simplify_eq|]).
    by apply elem_of_nil in Ht.
Qed.

Lemma notice_expiry_per_path_witness :
  armed (gall_expire (reliable 900) 42 [7; 8]) = [(5000, 900)] /\
  armed (handleDumpBatch_expire (reliable 900) 42 [7; 8]) = [(8000, 900)] /\
  armed (sendFile_expire (reliable 900) 42 7) = [(10000, 900)].
Proof.
  destruct (notice_expiry_per_path (reliable 900) 900 42 7 [7; 8] eq_refl)
    as (Hs & _ & _ & [_ Hd] & [_ Hg] & _).
  split; [exact Hg|]. split; [exact Hd|]. exact (proj2 (Hs eq_refl)).
Defined.

(** C8 (counterexample).  On the [gall:] path the notice is deleted after
    5 seconds, which is not between 8 and 10 seconds. *)
Lemma gall_notice_delay_counterexample :
  exists timer, gall_timer 42 [7; 8] = Some timer /\
    notices (callback timer (reliable 900)) = [Some 900] /\
    armed (callback timer (reliable 900)) = [(5000, 900)] /\
    ~ (8000 <= 5000 <= 10000).
Proof. eexists. split; [reflexivity|]. split; [reflexivity|]. split; [reflexivity|lia]. Qed.
(** ** The result keyboard and the filter menus *)

Lemma join_cons (sep p : jsstring) (ps : list jsstring) :
  ps <> [] -> join sep (p :: ps) = p ++ sep ++ join sep ps.
Proof. by destruct ps. Qed.

(** Joining the parts of a split gives the string back. *)
Lemma join_split (sep : N) (str : jsstring) : join [sep] (split sep str) = str.
Proof.
  induction str as [|ch str IH]; [done|]. cbn [split].
  destruct (N.eqb_spec ch sep) as [->|_].
  - rewrite join_cons by apply split_not_nil. by rewrite IH.
  - destruct (split sep str) as [|p ps] eqn:Hs; [by destruct (split_not_nil sep str)|].
    destruct ps as [|p' ps].
    + cbn [join] in *. by rewrite IH.
    + change (join [sep] ((ch :: p) :: p' :: ps)) with (ch :: join [sep] (p :: p' :: ps)).
      by rewrite IH.
Qed.

(** No part of a split holds the separator. *)
Lemma split_parts (sep : N) (str : jsstring) : Forall (fun p => sep ∉ p) (split sep str).
Proof.
  induction str as [|ch str IH]; cbn [split].
  - apply Forall_singleton. by intros ?%elem_of_nil.
  - destruct (N.eqb_spec ch sep) as [->|Hne].
    + constructor; [|done]. by intros ?%elem_of_nil.
    + destruct (split sep str) as [|p ps] eqn:Hs; [by destruct (split_not_nil sep str)|].
      apply Forall_cons in IH as [Hp Hps]. constructor; [|done].
      by intros [->|?]%elem_of_cons.
Qed.

(** The token without its page field. *)
Lemma state_rest (page : Z) (fs : SearchFilters) :
  join [colon] (drop 1 (split colon (serializeFilters page fs))) =
  or_else (file_lang fs) placeholder ++ [colon] ++ or_else (year fs) placeholder
    ++ [colon] ++ or_else (quality fs) placeholder.
Proof.
  unfold serializeFilters. cbn [app].
  rewrite split_app by (apply number_to_string_not_elem, numeral_sep; by left).
  cbn [drop]. apply join_split.
Qed.

Lemma serializeFilters_present (z : Z) (fs : SearchFilters) :
  serializeFilters z (present_filters fs) = serializeFilters z fs.
Proof.
  unfold serializeFilters, present_filters, falsy_as_null. cbn [file_lang year quality].
  by destruct (file_lang fs) as [| |[|??]], (year fs) as [| |[|??]],
    (quality fs) as [| |[|??]].
Qed.

Lemma decoded_field_safe (v : jsval) :
  decoded_field v -> field_safe colon (falsy_as_null v).
Proof.
  intros [Hph Hcol]. destruct v as [| |[|ch str]]; [done..|]. cbn.
  repeat split; [done| |by apply Hcol]. by intros [= -> ->].
Qed.

Lemma field_of_part_decoded (parts : list jsstring) (i : nat) :
  Forall (fun p => colon ∉ p) parts -> decoded_field (field_of_part (index parts i)).
Proof.
  intros Hparts. unfold field_of_part, index.
  destruct (parts !! i) as [p|] eqn:Hp.
  - case_bool_decide as Heq; [by split|]. split; [done|].
    intros str [= <-]. by eapply Forall_lookup_1 in Hparts.
  - by case_bool_decide.
Qed.

Lemma deserializeFilters_decoded (data : jsstring) :
  let fs := filters (deserializeFilters data) in
  decoded_field (file_lang fs) /\ decoded_field (year fs) /\ decoded_field (quality fs).
Proof.
  cbn. repeat split; try apply field_of_part_decoded, split_parts;
    try (eapply field_of_part_decoded; [apply split_parts|done]).
Qed.

Lemma present_normal (fs : SearchFilters) :
  normalize_filters (present_filters fs) = present_filters fs.
Proof.
  unfold normalize_filters, present_filters, falsy_as_null. cbn [file_lang year quality].
  by destruct (file_lang fs) as [| |[|??]], (year fs) as [| |[|??]],
    (quality fs) as [| |[|??]].
Qed.

(** The token of filters that came out of the decoder decodes to them. *)
Lemma roundtrip_decoded (z : Z) (fs : SearchFilters) :
  representable z -> - 10 ^ 21 < z < 10 ^ 21 ->
  decoded_field (file_lang fs) -> decoded_field (year fs) -> decoded_field (quality fs) ->
  deserializeFilters (serializeFilters z fs) = {| page := z; filters := present_filters fs |}.
Proof.
  intros Hz Hr Hl Hy Hq. rewrite <- serializeFilters_present.
  rewrite compact_roundtrip_safe by (done || by apply decoded_field_safe).
  by rewrite present_normal.
Qed.

Lemma roundtrip_decoded_first_page (fs : SearchFilters) :
  decoded_field (file_lang fs) -> decoded_field (year fs) -> decoded_field (quality fs) ->
  deserializeFilters (serializeFilters 0 fs) = {| page := 0; filters := present_filters fs |}.
Proof. intros Hl Hy Hq. apply roundtrip_decoded; [reflexivity|lia|done..]. Qed.

Lemma file_buttons_not (P : button -> bool) username (files : list ContentRecord) :
  (forall file data, P {| btn_kind := BFile file; btn_data := data |} = false) ->
  List.filter P (concat (map (fun file =>
    [ {| btn_kind := BFile file;
         btn_data := lit "https://t.me/" ++ username ++ lit "?start=file_"
                       ++ or_else (file_ref file) (_id file) |} ]) files)) = [].
Proof.
  intros HP. induction files as [|file files IH]; [done|].
  cbn [map concat app List.filter]. by rewrite HP.
Qed.

(** The pagination buttons of the keyboard, as the function builds
    them. *)
Lemma generateKeyboard_filter
    (username : jsstring) (ADMIN_IDS : list Z) (files : list ContentRecord)
    (page : Z) (hasNext hasPrev : bool) (filters : SearchFilters) (userId : option Z) :
  let rest := join [colon] (drop 1 (split colon (serializeFilters page filters))) in
  List.filter is_pagination
    (concat (generateKeyboard username ADMIN_IDS files page hasNext hasPrev filters userId)) =
  (if hasPrev
   then [ {| btn_kind := BPrev;
             btn_data := lit "p:" ++ number_to_string (page - 1) ++ [colon] ++ rest |} ]
   else [])
  ++ (if hasNext
      then [ {| btn_kind := BNext;
                btn_data := lit "p:" ++ number_to_string (page + 1) ++ [colon] ++ rest |} ]
      else []).
Proof.
  unfold generateKeyboard. cbv zeta.
  rewrite !concat_app, !List.filter_app.
  rewrite (file_buttons_not is_pagination) by done.
  assert (Hrow : forall row : list button,
            concat (match row with [] => [] | _ => [row] end) = row).
  { intros [|b row]; [done|]. cbn [concat]. by rewrite app_nil_r. }
  rewrite Hrow.
  assert (Hact : List.filter is_pagination (concat
            (match files with
             | [] => []
             | _ => [ {| btn_kind := BGetAll;
                         btn_data := lit "gall:" ++ serializeFilters page filters |}
                      :: (if admin_user ADMIN_IDS userId
                          then [ {| btn_kind := BSharePage;
                                    btn_data := lit "s:" ++ serializeFilters page filters |} ]
                          else []) ]
             end)) = []).
  { destruct files; [done|]. by destruct (admin_user ADMIN_IDS userId). }
  rewrite Hact.
  assert (Hclr : List.filter is_pagination (concat
            (if truthy (file_lang filters) || truthy (year filters)
                || truthy (quality filters)
             then [ [ {| btn_kind := BClearFilters; btn_data := lit "p:0:-:-:-" |} ] ]
             else [])) = []).
  { by destruct (_ || _). }
  rewrite Hclr, !app_nil_r.
  by destruct hasPrev, hasNext.
Qed.


(** X2.  Whatever callback data reaches the decoder, a field of the state
    it returns is never the placeholder and holds no colon; so the token
    the keyboard builds from that state, for a page that is a number
    below 10^21 in magnitude, decodes to that page and to the same
    filters, a falsy one reading as [null]. *)
Theorem decoded_state_reencodes (data : jsstring) (z : Z) :
  representable z -> - 10 ^ 21 < z < 10 ^ 21 ->
  let st := deserializeFilters data in
  deserializeFilters (serializeFilters z (filters st)) =
    {| page := z; filters := present_filters (filters st) |} /\
  Forall (fun v => v <> JStr placeholder /\ forall str, v = JStr str -> colon ∉ str)
    [file_lang (filters st); year (filters st); quality (filters st)].
Proof.
  intros Hz Hr. cbv zeta. destruct (deserializeFilters_decoded data) as (Hl & Hy & Hq).
  split; [by apply roundtrip_decoded|].
  constructor; [exact Hl|]. constructor; [exact Hy|]. constructor; [exact Hq|]. constructor.
Qed.

Lemma menu_value_decoded (enum : list jsstring) (v : jsstring) :
  Forall (wire_safe colon) enum -> v ∈ enum ->
  decoded_field (JStr v) /\ falsy_as_null (JStr v) = JStr v.
Proof.
  intros Henum Hv. rewrite Forall_forall in Henum.
  destruct (Henum v Hv) as (Hne & Hph & Hcol). split.
  - split; [by intros [= ->]|]. by intros str [= <-].
  - by destruct v.
Qed.

(** X3.  The language menu opened from any state token offers every
    language of [LANGUAGES] once, in order, under its name; the token of
    each button decodes to page 0, that language code, and the year and
    the quality of the state the menu was opened from. *)
Theorem language_menu_applies (currentYear : Z) (state : jsstring) :
  let st := deserializeFilters state in
  let tokens := map (fun code => serializeFilters 0 (with_file_lang (filters st) code))
                    language_codes in
  List.filter is_apply (concat (filter_menu currentYear MenuLang state)) =
    zip_with (fun name token => {| btn_kind := BApply name;
                                   btn_data := lit "fapl:" ++ token |})
      (map snd LANGUAGES) tokens /\
  map deserializeFilters tokens =
    map (fun code => {| page := 0;
                        filters := {| file_lang := JStr code;
                                      year := falsy_as_null (year (filters st));
                                      quality := falsy_as_null (quality (filters st)) |} |})
      language_codes.
Proof.
  cbv zeta. split; [reflexivity|].
  rewrite map_map. apply map_ext_in. intros code Hin%list_elem_of_In.
  destruct (deserializeFilters_decoded state) as (Hl & Hy & Hq).
  destruct (menu_value_decoded language_codes code) as [Hd Hp];
    [apply language_codes_safe; by left|done|].
  rewrite roundtrip_decoded_first_page by done.
  unfold present_filters, with_file_lang. cbn [file_lang year quality]. by rewrite Hp.
Qed.

(** X4.  The quality menu opened from any state token offers the five
    quality tags, one button each; the token of each button decodes to
    page 0, that tag, and the language and the year of the state the
    menu was opened from. *)
Theorem quality_menu_applies (currentYear : Z) (state : jsstring) :
  let st := deserializeFilters state in
  let tokens := map (fun q => serializeFilters 0 (with_quality (filters st) q))
                    quality_menu in
  List.filter is_apply (concat (filter_menu currentYear MenuQual state)) =
    zip_with (fun q token => {| btn_kind := BApply q; btn_data := lit "fapl:" ++ token |})
      quality_menu tokens /\
  map deserializeFilters tokens =
    map (fun q => {| page := 0;
                     filters := {| file_lang := falsy_as_null (file_lang (filters st));
                                   year := falsy_as_null (year (filters st));
                                   quality := JStr q |} |})
      quality_menu.
Proof.
  cbv zeta. split; [reflexivity|].
  rewrite map_map. apply map_ext_in. intros q Hin%list_elem_of_In.
  destruct (deserializeFilters_decoded state) as (Hl & Hy & Hq).
  destruct (menu_value_decoded quality_menu q) as [Hd Hp];
    [apply quality_menu_safe; by left|done|].
  rewrite roundtrip_decoded_first_page by done.
  unfold present_filters, with_quality. cbn [file_lang year quality]. by rewrite Hp.
Qed.

(** The rows of the year menu hold one button for each year of the
    slice. *)
Lemma year_rows_flat (fs : SearchFilters) (n : nat) : forall ys : list jsstring,
  (length ys <= n)%nat -> Forall (fun y => y <> []) ys ->
  concat (year_rows fs ys) = map (fun y => apply_button y (with_year fs y)) ys.
Proof.
  induction n as [n IH] using lt_wf_ind. intros ys Hlen Hys.
  destruct ys as [|y0 [|y1 [|y2 ys]]]; [done..| |].
  - apply Forall_cons in Hys as [_ [H1 _]%Forall_cons]. by destruct y1.
  - apply Forall_cons in Hys as [_ [H1 [H2 Hys]%Forall_cons]%Forall_cons].
    cbn [year_rows concat map]. rewrite (IH (n - 3)%nat); [|cbn in Hlen; lia..|done].
    by destruct y1, y2.
Qed.

Lemma YEARS_nonempty (currentYear : Z) : Forall (fun y => y <> []) (YEARS currentYear).
Proof.
  unfold YEARS. apply Forall_map, Forall_forall. intros k _. simpl.
  by destruct (number_to_string_wire (currentYear - Z.of_nat k)).
Qed.

Lemma lookup_slice {A : Type} (l : list A) (i k : nat) :
  (k * 12 <= i < k * 12 + 12)%nat ->
  slice (k * 12) (k * 12 + 12) l !! (i - k * 12)%nat = l !! i.
Proof.
  intros Hi. unfold slice. rewrite lookup_take_lt by lia. rewrite lookup_drop.
  f_equal. lia.
Qed.

Lemma nav_row_concat (row : list button) :
  concat (match row with [] => [] | _ => [row] end) = row.
Proof. destruct row as [|b row]; [done|]. cbn [concat]. by rewrite app_nil_r. Qed.

(** X5.  No year is lost by the paging of the year menu: the year at
    index [i] of [YEARS] has its button on page [i / 12]; the token of
    that button decodes to page 0, that year, and the language and the
    quality of the state the menu was opened from; and every earlier
    page has a Next button, which leads to the page after it with the
    state unchanged. *)
Theorem year_menu_complete (currentYear : Z) (state : jsstring) (i : nat) (y : jsstring) :
  YEARS currentYear !! i = Some y ->
  let st := deserializeFilters state in
  apply_button y (with_year (filters st) y)
    ∈ concat (showYearMenu currentYear (i / 12) state) /\
  deserializeFilters (serializeFilters 0 (with_year (filters st) y)) =
    {| page := 0;
       filters := {| file_lang := falsy_as_null (file_lang (filters st));
                     year := JStr y;
                     quality := falsy_as_null (quality (filters st)) |} |} /\
  (forall j : nat, (j < i / 12)%nat ->
     {| btn_kind := BYearsNext;
        btn_data := lit "yrm:" ++ number_to_string (Z.of_nat j + 1) ++ [colon] ++ state |}
       ∈ concat (showYearMenu currentYear j state)).
Proof.
  intros Hy. cbv zeta.
  assert (Hi : (i < length (YEARS currentYear))%nat) by (by eapply lookup_lt_Some).
  assert (Hk : (i / 12 * 12 <= i < i / 12 * 12 + 12)%nat).
  { pose proof (Nat.div_mod_eq i 12). pose proof (Nat.mod_upper_bound i 12). lia. }
  split; [|split].
  - unfold showYearMenu. cbv zeta. rewrite concat_app. apply elem_of_app. left.
    rewrite (year_rows_flat _ 12).
    + apply (list_elem_of_fmap_2 (fun y => apply_button y (with_year _ y))).
      apply list_elem_of_lookup. exists (i - i / 12 * 12)%nat.
      by rewrite lookup_slice.
    + unfold slice. rewrite length_take. lia.
    + unfold slice. apply Forall_take, Forall_drop, YEARS_nonempty.
  - destruct (deserializeFilters_decoded state) as (Hl & _ & Hq).
    destruct (menu_value_decoded (YEARS currentYear) y) as [Hd Hp];
      [apply YEARS_safe; by left|by eapply list_elem_of_lookup_2|].
    rewrite roundtrip_decoded_first_page by done.
    unfold present_filters, with_year. cbn [file_lang year quality]. by rewrite Hp.
  - intros j Hj. unfold showYearMenu. cbv zeta. rewrite !concat_app.
    apply elem_of_app. right. apply elem_of_app. left. rewrite nav_row_concat.
    apply elem_of_app. right.
    assert (Hnext : (j * 12 + 12 <? length (YEARS currentYear))%nat = true).
    { apply Nat.ltb_lt. lia. }
    rewrite Hnext. apply list_elem_of_singleton. reflexivity.
Qed.

Lemma year_menu_complete_witness :
  apply_button (lit "2013") (with_year (filters (deserializeFilters (lit "3:HI:-:720p")))
                               (lit "2013"))
    ∈ concat (showYearMenu 2026 1 (lit "3:HI:-:720p")).
Proof.
  refine (proj1 (year_menu_complete 2026 (lit "3:HI:-:720p") 13 (lit "2013") _)).
  reflexivity.
Defined.

(** ** Text helpers *)

Lemma escapeMarkdown_head (text : jsstring) (ch : N) (rest : jsstring) :
  escapeMarkdown_text text = ch :: rest -> ch ∉ escapeMarkdown_class.
Proof.
  destruct text as [|u text]; [done|]. cbn [escapeMarkdown_text].
  case_bool_decide as Hu.
  - intros [= <- _]. by apply (bool_decide_unpack _).
  - by intros [= <- _].
Qed.

Lemma escapeMarkdown_preceded (text : jsstring) : forall pre ch post,
  escapeMarkdown_text text = pre ++ ch :: post -> ch ∈ escapeMarkdown_class ->
  exists pre', pre = pre' ++ [backslash].
Proof.
  induction text as [|u text IH]; intros pre ch post Heq Hch.
  - by destruct pre.
  - cbn [escapeMarkdown_text] in Heq. case_bool_decide as Hu.
    + destruct pre as [|b0 [|b1 pre]].
      * injection Heq as <- _. exfalso. revert Hch. by apply (bool_decide_unpack _).
      * injection Heq as <- <- _. by exists [].
      * injection Heq as <- <- Heq. destruct (IH _ _ _ Heq Hch) as [pre' ->].
        by exists (backslash :: u :: pre').
    + destruct pre as [|b0 pre].
      * injection Heq as <- _. done.
      * injection Heq as <- Heq. destruct (IH _ _ _ Heq Hch) as [pre' ->].
        by exists (u :: pre').
Qed.

Lemma escapeMarkdown_inj (s1 : jsstring) : forall s2 : jsstring,
  escapeMarkdown_text s1 = escapeMarkdown_text s2 -> s1 = s2.
Proof.
  induction s1 as [|u1 s1 IH]; intros [|u2 s2]; cbn [escapeMarkdown_text].
  - done.
  - by case_bool_decide.
  - by case_bool_decide.
  - case_bool_decide as H1; case_bool_decide as H2.
    + intros [= -> Heq]. by rewrite (IH _ Heq).
    + intros [= <- Heq]. symmetry in Heq. by apply escapeMarkdown_head in Heq.
    + intros [= -> Heq]. by apply escapeMarkdown_head in Heq.
    + intros [= -> Heq]. by rewrite (IH _ Heq).
Qed.

(** X6.  [escapeMarkdown] gives the empty string for a falsy argument;
    in its result every character of its class stands directly after a
    backslash; and two different texts never have the same result. *)
Theorem escapeMarkdown_escapes_every_special :
  (forall text, truthy text = false -> escapeMarkdown text = []) /\
  (forall text pre ch post,
     escapeMarkdown text = pre ++ ch :: post -> ch ∈ escapeMarkdown_class ->
     exists pre', pre = pre' ++ [backslash]) /\
  (forall s1 s2, escapeMarkdown (JStr s1) = escapeMarkdown (JStr s2) -> s1 = s2).
Proof.
  split; [|split].
  - by intros [| |[|??]].
  - intros text pre ch post Heq Hch.
    destruct text as [| |[|u text]]; try (by destruct pre).
    by eapply escapeMarkdown_preceded.
  - intros s1 s2 Heq. apply escapeMarkdown_inj.
    by destruct s1, s2.
Qed.

(** X7.  Once the clock has passed the start time, the uptime is reported
    as a number of days, of hours below 24 and of minutes below 60 that
    account for the elapsed time to within a minute. *)
Theorem getUptime_fields (now BOT_START_TIME : Z) :
  BOT_START_TIME <= now ->
  let uptimeMs := now - BOT_START_TIME in
  let d := uptime_days uptimeMs in
  let h := uptime_hours uptimeMs in
  let m := uptime_minutes uptimeMs in
  getUptime now BOT_START_TIME =
    number_to_string d ++ lit "d " ++ number_to_string h ++ lit "h "
    ++ number_to_string m ++ lit "m" /\
  0 <= d /\ 0 <= h < 24 /\ 0 <= m < 60 /\
  0 <= uptimeMs - (d * 86400000 + h * 3600000 + m * 60000) < 60000.
Proof.
  intros Hle. cbv zeta. split; [done|].
  unfold uptime_days, uptime_hours, uptime_minutes.
  set (u := now - BOT_START_TIME). assert (Hu : 0 <= u) by lia. clearbody u.
  rewrite !Z.rem_mod_nonneg by lia.
  change (1000 * 60 * 60 * 24) with 86400000. change (1000 * 60 * 60) with 3600000.
  change (1000 * 60) with 60000.
  lia.
Qed.

Lemma getUptime_fields_witness :
  getUptime 1700090061000 1700000000000 = lit "1d 1h 1m".
Proof.
  refine (eq_trans (proj1 (getUptime_fields 1700090061000 1700000000000 _)) _).
  - lia.
  - reflexivity.
Defined.


Lemma flat_map_flat_map {A B C : Type} (f : A -> list B) (g : B -> list C) (l : list A) :
  flat_map g (flat_map f l) = flat_map (fun x => flat_map g (f x)) l.
Proof.
  induction l as [|x l IH]; [done|]. cbn [flat_map]. by rewrite flat_map_app, IH.
Qed.

Lemma html_safe_pass (text : jsstring) : html_safe text = flat_map html_entity text.
Proof.
  unfold html_safe, replace_char. rewrite !flat_map_flat_map.
  apply flat_map_ext. intros u. unfold html_entity.
  destruct (N.eqb_spec u 38) as [->|H1]; [reflexivity|].
  cbn [flat_map]. destruct (N.eqb_spec u 60) as [->|H2]; [reflexivity|].
  cbn [flat_map]. rewrite app_nil_r. destruct (N.eqb_spec u 62) as [->|H3]; [reflexivity|].
  cbn [flat_map]. by destruct (N.eqb_spec u 62).
Qed.

Lemma html_entity_cases (u : N) :
  (u = 38%N /\ html_entity u = 38%N :: lit "amp;") \/
  (u = 60%N /\ html_entity u = 38%N :: lit "lt;") \/
  (u = 62%N /\ html_entity u = 38%N :: lit "gt;") \/
  (u <> 38%N /\ u <> 60%N /\ u <> 62%N /\ html_entity u = [u]).
Proof.
  unfold html_entity.
  destruct (N.eqb_spec u 38) as [->|H1]; [by left|].
  destruct (N.eqb_spec u 60) as [->|H2]; [by right; left|].
  destruct (N.eqb_spec u 62) as [->|H3]; [by right; right; left|].
  by right; right; right.
Qed.

(** Where a character that a prefix does not hold can stand. *)
Lemma app_split_fresh (ch : N) (l rest pre post : jsstring) :
  ch ∉ l -> l ++ rest = pre ++ ch :: post ->
  exists pre', pre = l ++ pre' /\ rest = pre' ++ ch :: post.
Proof.
  revert pre. induction l as [|u l IH]; intros pre Hl Heq.
  - by exists pre.
  - apply not_elem_of_cons in Hl as [Hu Hl]. destruct pre as [|b pre].
    + injection Heq as -> _. done.
    + injection Heq as <- Heq. destruct (IH pre Hl Heq) as (pre' & -> & ->).
      by exists pre'.
Qed.

Lemma html_amp (text : jsstring) : forall pre post,
  flat_map html_entity text = pre ++ 38%N :: post ->
  exists rest, post = lit "amp;" ++ rest \/ post = lit "lt;" ++ rest
               \/ post = lit "gt;" ++ rest.
Proof.
  induction text as [|u text IH]; intros pre post Heq.
  - by destruct pre.
  - cbn [flat_map] in Heq.
    destruct (html_entity_cases u) as
      [(-> & He)|[(-> & He)|[(-> & He)|(H1 & H2 & H3 & He)]]]; rewrite He in Heq.
    + destruct pre as [|b pre].
      * injection Heq as <-. eexists. by left.
      * injection Heq as <- Heq.
        apply (app_split_fresh 38 (lit "amp;")) in Heq as (pre' & -> & Heq);
          [by eapply IH|by apply (bool_decide_unpack _)].
    + destruct pre as [|b pre].
      * injection Heq as <-. eexists. by right; left.
      * injection Heq as <- Heq.
        apply (app_split_fresh 38 (lit "lt;")) in Heq as (pre' & -> & Heq);
          [by eapply IH|by apply (bool_decide_unpack _)].
    + destruct pre as [|b pre].
      * injection Heq as <-. eexists. by right; right.
      * injection Heq as <- Heq.
        apply (app_split_fresh 38 (lit "gt;")) in Heq as (pre' & -> & Heq);
          [by eapply IH|by apply (bool_decide_unpack _)].
    + destruct pre as [|b pre].
      * injection Heq as -> _. done.
      * injection Heq as <- Heq. by eapply IH.
Qed.

Lemma html_no_bracket (text : jsstring) (ch : N) :
  ch = 60%N \/ ch = 62%N -> ch ∉ flat_map html_entity text.
Proof.
  intros Hch. induction text as [|u text IH]; [by intros ?%elem_of_nil|].
  cbn [flat_map]. intros [Hin|Hin]%elem_of_app; [|done].
  destruct (html_entity_cases u) as
    [(-> & He)|[(-> & He)|[(-> & He)|(H1 & H2 & H3 & He)]]]; rewrite He in Hin.
  - revert Hin. destruct Hch as [-> | ->]; by apply (bool_decide_unpack _).
  - revert Hin. destruct Hch as [-> | ->]; by apply (bool_decide_unpack _).
  - revert Hin. destruct Hch as [-> | ->]; by apply (bool_decide_unpack _).
  - apply list_elem_of_singleton in Hin. lia.
Qed.

(** X8.  The title and the labels [sendWebResults] puts in its HTML
    message hold no [<] and no [>], and every [&] in them begins one of
    the entities [&amp;], [&lt;] and [&gt;]: an ampersand of the text is
    escaped before the brackets are, so no entity is escaped twice. *)
Theorem html_safe_has_no_markup (text : jsstring) :
  (60%N ∉ html_safe text) /\ (62%N ∉ html_safe text) /\
  (forall pre post, html_safe text = pre ++ 38%N :: post ->
     exists rest, post = lit "amp;" ++ rest \/ post = lit "lt;" ++ rest
                  \/ post = lit "gt;" ++ rest).
Proof.
  rewrite html_safe_pass. split; [|split].
  - apply html_no_bracket. by left.
  - apply html_no_bracket. by right.
  - apply html_amp.
Qed.

(** X9.  [sendWebResults] sends a page only when it is one of the cached
    topics, and the navigation buttons of a page it sends lead to pages
    it would send as well: Previous, to the page before, on every page
    but the first, and Next, to the page after, on every page but the
    last. *)
Theorem web_navigation_stays_in_range
    (searchId : jsstring) (page totalPages : Z) (rows : list (list button)) :
  sendWebResults_buttons searchId page totalPages = Some rows ->
  0 <= page < totalPages /\
  List.filter is_web_nav (concat rows) =
    (if 0 <? page
     then [ {| btn_kind := BWebPrev;
               btn_data := lit "wsrp:" ++ searchId ++ [colon]
                             ++ number_to_string (page - 1) |} ]
     else [])
    ++ (if page <? totalPages - 1
        then [ {| btn_kind := BWebNext;
                  btn_data := lit "wsrp:" ++ searchId ++ [colon]
                                ++ number_to_string (page + 1) |} ]
        else []) /\
  ((0 <? page) = true ->
   exists rows', sendWebResults_buttons searchId (page - 1) totalPages = Some rows') /\
  ((page <? totalPages - 1) = true ->
   exists rows', sendWebResults_buttons searchId (page + 1) totalPages = Some rows').
Proof.
  unfold sendWebResults_buttons.
  destruct (Z.ltb_spec page 0) as [?|H0]; [done|].
  destruct (Z.leb_spec totalPages page) as [?|H1]; [done|]. cbn [orb].
  intros [= <-]. split; [lia|]. split; [|split].
  - rewrite concat_app, nav_row_concat, List.filter_app. cbn [concat app List.filter].
    rewrite app_nil_r. by destruct (0 <? page), (page <? totalPages - 1).
  - intros Hp%Z.ltb_lt.
    destruct (Z.ltb_spec (page - 1) 0) as [?|_]; [lia|].
    destruct (Z.leb_spec totalPages (page - 1)) as [?|_]; [lia|]. by eexists.
  - intros Hp%Z.ltb_lt.
    destruct (Z.ltb_spec (page + 1) 0) as [?|_]; [lia|].
    destruct (Z.leb_spec totalPages (page + 1)) as [?|_]; [lia|]. by eexists.
Qed.

Lemma web_navigation_stays_in_range_witness :
  0 <= 1 < 3.
Proof.
  refine (proj1 (web_navigation_stays_in_range (lit "ws_1700000000000_42") 1 3 _ _)).
  reflexivity.
Defined.

(** ** Post links and the delivery of a batch-range link *)

Lemma last_app_cons {A : Type} (l : list A) (x : A) (l' : list A) :
  last (l ++ x :: l') = last (x :: l').
Proof.
  induction l as [|a l IH]; [done|]. cbn [app]. rewrite <- IH.
  destruct (l ++ x :: l') eqn:Happ; [by destruct l|done].
Qed.

Lemma last_Forall {A : Type} (P : A -> Prop) (l : list A) (x : A) :
  Forall P l -> last l = Some x -> P x.
Proof.
  intros Hl Hx. apply last_Some in Hx as [l' ->]. by apply Forall_app in Hl as [_ [? _]%Forall_cons].
Qed.

(** A run of the characters of a number does not end in a slash. *)
Lemma numeral_chars_keep_their_end (prefix ds : jsstring) :
  Forall numeral_char ds -> ds <> [] ->
  strip_trailing_slash (prefix ++ ds) = prefix ++ ds.
Proof.
  intros Hall Hne. unfold strip_trailing_slash.
  destruct ds as [|d ds]; [done|].
  rewrite last_app_cons. destruct (last (d :: ds)) as [u|] eqn:Hlast; [|done].
  assert (Hu : numeral_char u) by (by eapply last_Forall).
  destruct (N.eqb_spec u slash) as [->|_]; [|done].
  apply numeral_char_plain in Hu. unfold slash in Hu. lia.
Qed.

Lemma numeral_keeps_its_end (prefix : jsstring) (x : number) :
  strip_trailing_slash (prefix ++ number_to_string x) = prefix ++ number_to_string x.
Proof.
  apply numeral_chars_keep_their_end; [apply number_to_string_chars|].
  by destruct (number_to_string_wire x).
Qed.

Lemma numeral_no_slash (x : number) : slash ∉ number_to_string x.
Proof.
  apply number_to_string_not_elem. intros Hc%numeral_char_plain. unfold slash in Hc. lia.
Qed.

Lemma to_number_not_NaN (z : Z) : isNaN (to_number z) = false.
Proof. unfold to_number. by destruct (_ <=? _). Qed.

(** A post link whose last part is a run of digits. *)
Lemma parsePostUrl_digits (front : list jsstring) (chat ds : jsstring) :
  Forall (fun part => slash ∉ part) front -> slash ∉ chat ->
  Forall is_digit ds -> ds <> [] ->
  parsePostUrl (join [slash] (front ++ [chat; ds])) =
  Some {| chatId := if bool_decide (last front = Some (lit "c")) then lit "-100" ++ chat
                    else if startsWith (lit "@") chat then chat else lit "@" ++ chat;
          messageId := to_number (Z.of_N (dec_value 0 ds)) |}.
Proof.
  intros Hfront Hchat Hds Hne.
  assert (Hnum : Forall numeral_char ds).
  { eapply Forall_impl; [exact Hds|]. by left. }
  assert (Hslash : slash ∉ ds).
  { intros Hin. rewrite Forall_forall in Hnum. apply Hnum, numeral_char_plain in Hin.
    unfold slash in Hin. lia. }
  assert (Hjoin : forall parts : list jsstring, Forall (fun part => slash ∉ part) parts ->
            parts <> [] -> split slash (join [slash] parts) = parts).
  { induction parts as [|part parts IH]; [done|]. intros [Hp Hps]%Forall_cons _.
    destruct parts as [|part' parts]; [by apply split_no_sep|].
    change (join [slash] (part :: part' :: parts))
      with (part ++ slash :: join [slash] (part' :: parts)).
    rewrite split_app by done. by rewrite IH. }
  assert (Hall : Forall (fun part => slash ∉ part) (front ++ [chat; ds])).
  { apply Forall_app. split; [done|]. by repeat constructor. }
  assert (Hend : exists pre, join [slash] (front ++ [chat; ds]) = pre ++ ds).
  { clear -Hne. induction front as [|part front [pre IH]].
    - exists (chat ++ [slash]). cbn. by rewrite <- app_assoc.
    - cbn [app].
      destruct (front ++ [chat; ds]) as [|part' rest] eqn:Hrest; [by destruct front|].
      change (join [slash] (part :: part' :: rest))
        with (part ++ [slash] ++ join [slash] (part' :: rest)).
      rewrite IH. exists (part ++ [slash] ++ pre). by rewrite <- !app_assoc. }
  destruct Hend as [pre Hpre].
  unfold parsePostUrl.
  remember (join [slash] (front ++ [chat; ds])) as url eqn:Hurl.
  destruct url as [|ch rest].
  { symmetry in Hpre. by apply app_eq_nil in Hpre as [_ ->]. }
  cbv iota. rewrite Hpre, numeral_chars_keep_their_end by done.
  rewrite <- Hpre, Hurl, Hjoin by (done || by destruct front).
  replace (front ++ [chat; ds]) with ((front ++ [chat]) ++ [ds])
    by (by rewrite <- app_assoc).
  rewrite last_snoc, removelast_last. cbn [from_option parseInt_val].
  rewrite parseInt_digits, to_number_not_NaN by done.
  by rewrite last_snoc, removelast_last.
Qed.

(** X10.  The two forms of a post link parse to the chat and the message
    they name: [https://t.me/c/<channel>/<id>] to the chat [-100<channel>]
    and [https://t.me/<name>/<id>] to the chat [@<name>], the [@] being
    added only when the name does not start with one.  The message id is
    the number nearest to the numeral of the link: the id itself below
    2^53. *)
Theorem post_links_parse (name : jsstring) (id : N) :
  slash ∉ name ->
  parsePostUrl (lit "https://t.me/c/" ++ name ++ [slash] ++ N_to_string id) =
    Some {| chatId := lit "-100" ++ name; messageId := to_number (Z.of_N id) |} /\
  parsePostUrl (lit "https://t.me/" ++ name ++ [slash] ++ N_to_string id) =
    Some {| chatId := if startsWith (lit "@") name then name else lit "@" ++ name;
            messageId := to_number (Z.of_N id) |} /\
  ((id < 2 ^ 53)%N -> to_number (Z.of_N id) = Num (Z.of_N id)).
Proof.
  intros Hname. destruct (N_to_string_spec id) as (Hds & Hne & Hval).
  assert (Hfront : forall parts : list jsstring,
            bool_decide (Forall (fun part => slash ∉ part) parts) = true ->
            Forall (fun part => slash ∉ part) parts).
  { intros parts. apply bool_decide_eq_true. }
  split; [|split].
  - change (lit "https://t.me/c/" ++ name ++ [slash] ++ N_to_string id)
      with (join [slash] ([lit "https:"; []; lit "t.me"; lit "c"] ++ [name; N_to_string id])).
    rewrite parsePostUrl_digits by (done || by apply Hfront). by rewrite Hval.
  - change (lit "https://t.me/" ++ name ++ [slash] ++ N_to_string id)
      with (join [slash] ([lit "https:"; []; lit "t.me"] ++ [name; N_to_string id])).
    rewrite parsePostUrl_digits by (done || by apply Hfront). by rewrite Hval.
  - intros Hid. apply safe_integer_representable. unfold safe_integer.
    assert (Z.of_N id < 2 ^ 53); [|lia].
    change (2 ^ 53) with (Z.of_N (2 ^ 53)). lia.
Qed.

Lemma post_links_parse_witness :
  parsePostUrl (lit "https://t.me/c/" ++ lit "12345" ++ [slash] ++ N_to_string 678) =
    Some {| chatId := lit "-100" ++ lit "12345"; messageId := 678 |}.
Proof.
  refine (proj1 (post_links_parse (lit "12345") 678 _)).
  by apply (bool_decide_unpack _).
Defined.

Lemma last_snoc_slash (url : jsstring) :
  strip_trailing_slash (url ++ [slash]) = url.
Proof.
  unfold strip_trailing_slash. rewrite last_snoc, N.eqb_refl.
  apply removelast_last.
Qed.

(** X11.  A slash at the very end of a post link is not part of it: the
    link parses as it does without the slash.  Whatever parses names a
    chat that starts with [-100] or with [@]. *)
Theorem parsePostUrl_shape (url : jsstring) :
  (last url <> Some slash -> parsePostUrl (url ++ [slash]) = parsePostUrl url) /\
  (forall info, parsePostUrl url = Some info ->
     startsWith (lit "-100") (chatId info) = true \/
     startsWith (lit "@") (chatId info) = true).
Proof.
  split.
  - intros Hlast. destruct url as [|ch url]; [reflexivity|].
    unfold parsePostUrl. cbn [app]. change (ch :: url ++ [slash]) with ((ch :: url) ++ [slash]).
    rewrite last_snoc_slash. f_equal.
    unfold strip_trailing_slash. destruct (last (ch :: url)) as [u|]; [|done].
    destruct (N.eqb_spec u slash) as [->|_]; [done|done].
  - intros info. unfold parsePostUrl. destruct url as [|ch url]; [done|].
    destruct (isNaN (parseInt_val _)); [done|].
    destruct (last (removelast _)) as [lastPart|]; [|done].
    case_bool_decide as Hc.
    + intros [= <-]. by left.
    + destruct (startsWith (lit "@") lastPart) eqn:Hat; intros [= <-]; right; [done|].
      reflexivity.
Qed.

Lemma parsePostUrl_shape_witness :
  parsePostUrl (lit "https://t.me/movies/678" ++ [slash]) =
  parsePostUrl (lit "https://t.me/movies/678").
Proof.
  refine (proj1 (parsePostUrl_shape (lit "https://t.me/movies/678")) _).
  vm_compute. discriminate.
Defined.

(** X12.  [/link] with a start post only, or with a second argument that
    is empty or is not a post link, builds the link of the start post
    alone: the second argument is not reported as invalid.  For a message
    id that is a finite number the link counts one file; for one that
    was read as an infinity the link holds that infinity twice and its
    count is not a number. *)
Theorem link_without_end_covers_start
    (text arg0 : jsstring) (args : list jsstring) (i0 : PostInfo) :
  drop 1 (split 32%N text) = arg0 :: args ->
  parsePostUrl arg0 = Some i0 ->
  (forall arg1, args !! 0%nat = Some arg1 -> parsePostUrl arg1 = None) ->
  (forall id : Z, messageId i0 = Num id ->
     link_command true text = LinkCreated {| c := chatId i0; s := id; e := id |} 1) /\
  (forall negative, messageId i0 = Infinity negative ->
     link_command true text =
       LinkCreated {| c := chatId i0; s := Infinity negative; e := Infinity negative |}
                   NaN).
Proof.
  intros Hargs H0 H1.
  assert (Hcmd : link_command true text =
            let id := messageId i0 in
            if num_lt 100 (num_sub (Math_max id id) (Math_min id id)) then LinkRangeTooLarge
            else LinkCreated {| c := chatId i0; s := Math_min id id; e := Math_max id id |}
                   (num_add (num_sub (Math_max id id) (Math_min id id)) 1)).
  { unfold link_command. cbn [negb]. rewrite Hargs, H0.
    change ((arg0 :: args) !! 1%nat) with (args !! 0%nat).
    set (endId := match args !! 0%nat with Some (ch :: r) => _ | _ => _ end).
    assert (Hend : endId = messageId i0).
    { subst endId. destruct (args !! 0%nat) as [[|ch rest]|] eqn:Ha; [done| |done].
      by rewrite (H1 _ eq_refl). }
    by rewrite Hend. }
  split.
  - intros id Hid. rewrite Hcmd, Hid. cbv zeta.
    rewrite Math_min_Num, Math_max_Num, Z.min_id, Z.max_id. cbn [num_sub].
    rewrite Z.sub_diag. reflexivity.
  - intros negative Hid. rewrite Hcmd, Hid. by destruct negative.
Qed.

Lemma link_without_end_covers_start_witness :
  link_command true (lit "/link https://t.me/c/12345/100 tomorrow") =
    LinkCreated {| c := lit "-10012345"; s := 100; e := 100 |} 1.
Proof.
  refine (proj1 (link_without_end_covers_start
    (lit "/link https://t.me/c/12345/100 tomorrow") (lit "https://t.me/c/12345/100")
    [lit "tomorrow"] {| chatId := lit "-10012345"; messageId := 100 |} _ _ _) 100 _).
  - reflexivity.
  - reflexivity.
  - intros arg1 [= <-]. reflexivity.
  - reflexivity.
Defined.

(** *** The copy loop *)

Lemma to_number_succ (mid : Z) : safe_integer mid -> to_number (mid + 1) = Num (mid + 1).
Proof.
  unfold safe_integer. intros Hmid.
  destruct (Z.eq_dec (mid + 1) (2 ^ 53)) as [->|Hne]; [reflexivity|].
  apply to_number_safe. unfold safe_integer. lia.
Qed.

(** On safe integers the loop visits the ids from [start] to [end_] in
    ascending order and ends. *)
Lemma copy_attempts_safe (copyMessage : number -> option Z) (n : nat) :
  forall (fuel : nat) (start end_ : Z),
  - 2 ^ 53 < start <= 2 ^ 53 -> safe_integer end_ ->
  Z.to_nat (end_ - start + 1) = n -> (n < fuel)%nat ->
  copy_attempts fuel copyMessage (Num start) (Num end_) =
  Some (map (fun mid => (Num mid, copyMessage (Num mid))) (seqZ start (end_ - start + 1))).
Proof.
  induction n as [|n IH]; intros fuel start end_ Hs He Hn Hfuel;
    (destruct fuel as [|fuel]; [lia|]); cbn [copy_attempts].
  - assert (Hle : num_le start end_ = false).
    { unfold num_le. cbn [isNaN negb andb num_lt]. apply negb_false_iff, Z.ltb_lt. lia. }
    rewrite Hle. unfold seqZ. by replace (Z.to_nat (end_ - start + 1)) with O by lia.
  - assert (Hle : num_le start end_ = true).
    { unfold num_le. cbn [isNaN negb andb num_lt]. apply negb_true_iff, Z.ltb_ge. lia. }
    rewrite Hle. cbn [num_add].
    rewrite to_number_succ by (unfold safe_integer in *; lia).
    rewrite (IH fuel (start + 1) end_); [|unfold safe_integer in *; lia|done|lia|lia].
    rewrite (seqZ_cons start (end_ - start + 1)) by lia. cbn [map].
    by replace (Z.pred (end_ - start + 1)) with (end_ - (start + 1) + 1) by lia.
Qed.

(** A safe integer in the payload is read back as it is. *)
Lemma parseInt_member_number (z : Z) :
  safe_integer z -> parseInt_member (Some (JsonNumber z)) = Num z.
Proof.
  intros Hz. unfold parseInt_member. cbn [from_option json_to_string].
  apply parseInt_number_to_string; [by apply safe_integer_representable|].
  unfold safe_integer in Hz. lia.
Qed.

(** What happens once the ids are read and the user is let through. *)
Lemma handleDumpBatch_delivers (fuel : nat) (user : Z) (data : json) (env : DumpEnv)
    (start end_ : number) (attempts : list (number * option Z)) :
  data <> JsonNull ->
  dump_ids data = (start, end_) ->
  isNaN start = false -> isNaN end_ = false ->
  env_replied env = true ->
  env_subscribed env = true \/ env_fsub env = false ->
  (env_monetized env = true -> env_premium env <> None) ->
  copy_attempts fuel (env_copy env) start end_ = Some attempts ->
  handleDumpBatch_deliver fuel user (Normal data) env =
    Some match omap snd attempts with
         | [] => DumpNothing attempts
         | sent => DumpDelivered attempts sent (handleDumpBatch_timer user sent)
         end.
Proof.
  intros Hdata Hids Hs He Hreply Hsub Hprem Hcopy. unfold handleDumpBatch_deliver.
  unfold dump_ids in Hids.
  assert (Hc : exists chatId, get_member data (lit "c") = Normal chatId).
  { destruct data; try done; by eexists. }
  destruct Hc as [chatId ->].
  destruct (get_member data (lit "s")) as [data_s|]; [|by injection Hids as <- _].
  destruct (get_member data (lit "e")) as [data_e|]; [|by injection Hids as <- _].
  injection Hids as -> ->. rewrite Hs, He, Hreply. cbn [orb negb].
  assert (Hgate : negb (env_subscribed env) && env_fsub env = false).
  { destruct Hsub as [-> | ->]; [done|]. by rewrite andb_false_r. }
  rewrite Hgate.
  assert (Hp : exists b, (if env_monetized env then env_premium env else Some true) = Some b).
  { destruct (env_monetized env); [|by eexists].
    destruct (env_premium env) as [b|]; [by eexists|]. by destruct Hprem. }
  destruct Hp as [b ->]. rewrite Hcopy. by destruct (omap snd attempts).
Qed.

Lemma dump_ids_of_link (chat : jsstring) (first final : Z) :
  safe_integer first -> safe_integer final ->
  dump_ids (JsonObject [(lit "c", JsonString chat); (lit "s", JsonNumber first);
                        (lit "e", JsonNumber final)]) = (Num first, Num final).
Proof.
  intros Hfirst Hfinal.
  change (dump_ids _) with (parseInt_member (Some (JsonNumber first)),
                            parseInt_member (Some (JsonNumber final))).
  by rewrite !parseInt_member_number.
Qed.

Lemma omap_snd_attempts (copyMessage : number -> option Z) (ids : list Z) :
  omap snd (map (fun mid => (Num mid, copyMessage (Num mid))) ids) =
  omap (fun mid => copyMessage (Num mid)) ids.
Proof.
  induction ids as [|mid ids IH]; [done|]. cbn [map omap list_omap snd].
  fold (omap (M := list) (@snd number (option Z))).
  fold (omap (M := list) (fun mid => copyMessage (Num mid))). by rewrite IH.
Qed.

(** X13.  A link that [/link] built from safe message ids delivers what
    the command announced: for a user who is let through, the handler
    tries to copy exactly [count] messages, the ids from [s] to [e] in
    ascending order, between 1 and 101 of them, and its loop ends; the
    messages it schedules for deletion are the copies that succeeded, and
    when none did it arms no timer. *)
Theorem link_delivers_its_count
    (isAdmin : bool) (text : jsstring) (payload : RangePayload) (count : number)
    (first final user : Z) (env : DumpEnv) :
  link_command isAdmin text = LinkCreated payload count ->
  s payload = Num first -> e payload = Num final ->
  safe_integer first -> safe_integer final ->
  env_replied env = true ->
  env_subscribed env = true \/ env_fsub env = false ->
  (env_monetized env = true -> env_premium env <> None) ->
  let ids := seqZ first (final - first + 1) in
  let attempts := map (fun mid => (Num mid, env_copy env (Num mid))) ids in
  let sent := omap (fun mid => env_copy env (Num mid)) ids in
  count = Num (final - first + 1) /\ 1 <= final - first + 1 <= 101 /\
  Z.of_nat (length attempts) = final - first + 1 /\
  forall fuel, (Z.to_nat (final - first + 1) < fuel)%nat ->
    handleDumpBatch_deliver fuel user (dump_data_of payload) env =
      Some match sent with
           | [] => DumpNothing attempts
           | _ => DumpDelivered attempts sent
                    (Some {| delay_ms := 3600000;
                             callback := fun tg => handleDumpBatch_expire tg user sent |})
           end.
Proof.
  intros Hlink Hs He Hfirst Hfinal Hreply Hsub Hprem. cbv zeta.
  assert (Hrange : 0 <= final - first <= 100 /\ count = Num (final - first + 1)).
  { apply link_created_cases in Hlink as [(a & b & Ha & Hb & Hr & Hc)|(n & Hn & _)].
    - rewrite Hs in Ha. rewrite He in Hb. injection Ha as <-. injection Hb as <-. done.
    - by rewrite Hs in Hn. }
  destruct Hrange as [Hr ->].
  split; [done|]. split; [lia|]. split; [rewrite length_map, length_seqZ; lia|].
  intros fuel Hfuel. unfold dump_data_of. rewrite Hs, He. cbn [json_of_number].
  rewrite (handleDumpBatch_delivers fuel user _ env (Num first) (Num final)
             (map (fun mid => (Num mid, env_copy env (Num mid)))
                  (seqZ first (final - first + 1))));
    [|done|by apply dump_ids_of_link|done|done|done|done|done|].
  - rewrite omap_snd_attempts. by destruct (omap _ _).
  - eapply copy_attempts_safe; [unfold safe_integer in *; lia|done|done|done].
Qed.

Lemma link_delivers_its_count_witness :
  let env := {| env_replied := true; env_subscribed := true; env_fsub := true;
                env_monetized := false; env_premium := None;
                env_copy := fun mid => match mid with
                                       | Num z => if z =? 255 then None else Some (z + 1000)
                                       | _ => None
                                       end |} in
  exists attempts,
    map fst attempts = map Num (seqZ 250 11) /\
    handleDumpBatch_deliver 12 42
      (dump_data_of {| c := lit "-10012345"; s := 250; e := 260 |}) env =
      Some (DumpDelivered attempts
              [1250; 1251; 1252; 1253; 1254; 1256; 1257; 1258; 1259; 1260]
              (Some {| delay_ms := 3600000;
                       callback := fun tg => handleDumpBatch_expire tg 42
                         [1250; 1251; 1252; 1253; 1254; 1256; 1257; 1258; 1259; 1260] |})).
Proof.
  cbv zeta. eexists. split; [|
    refine (proj2 (proj2 (proj2 (link_delivers_its_count true
      (lit "/link https://t.me/c/12345/260 https://t.me/c/12345/250")
      {| c := lit "-10012345"; s := 250; e := 260 |} 11 250 260 42 _ _ _ _ _ _ _ _ _)))
      12%nat _)].
  - reflexivity.
  - reflexivity.
  - reflexivity.
  - reflexivity.
  - unfold safe_integer. lia.
  - unfold safe_integer. lia.
  - reflexivity.
  - by left.
  - done.
  - vm_compute. lia.
Defined.

(** The loop does not end on a range that reaches 2^53: the step from
    2^53 is rounded back to 2^53. *)
Example copy_loop_stalls_at_2_53 (fuel : nat) (copyMessage : number -> option Z) :
  num_add (Num (2 ^ 53)) 1 = Num (2 ^ 53) /\
  copy_attempts fuel copyMessage (Num (2 ^ 53)) (Num (2 ^ 53)) = None.
Proof.
  split; [by vm_compute|]. induction fuel as [|fuel IH]; [done|].
  cbn [copy_attempts]. change (num_le (2 ^ 53) (2 ^ 53)) with true. cbv iota.
  change (num_add (2 ^ 53) 1) with (Num (2 ^ 53)). by rewrite IH.
Qed.

(** X14.  [handleDumpBatch] copies nothing for a payload that is no JSON
    text or is [null], for one whose ids do not both read as numbers, when
    its first reply fails, for a user who has not joined the sponsor
    channel when one is configured, and when the premium lookup fails; a
    range whose start is after its end is let through but holds no
    message, so it ends in the "could not retrieve" reply with no timer
    armed.  An id is read through ToString and [parseInt]: the text
    [12abc] and the array [[12]] both read as 12. *)
Theorem dump_batch_refusals (fuel : nat) (user : Z) (data : json) (env : DumpEnv) :
  (forall err, handleDumpBatch_deliver fuel user (Throw err) env = Some DumpCorrupted) /\
  handleDumpBatch_deliver fuel user (Normal JsonNull) env = Some DumpCorrupted /\
  (data <> JsonNull ->
   let start := (dump_ids data).1 in
   let end_ := (dump_ids data).2 in
   (isNaN start = true \/ isNaN end_ = true ->
    handleDumpBatch_deliver fuel user (Normal data) env = Some DumpCorrupted) /\
   (isNaN start = false -> isNaN end_ = false ->
    (env_replied env = false ->
     handleDumpBatch_deliver fuel user (Normal data) env = Some DumpCorrupted) /\
    (env_replied env = true -> env_subscribed env = false -> env_fsub env = true ->
     handleDumpBatch_deliver fuel user (Normal data) env = Some DumpRestricted) /\
    (env_replied env = true -> env_subscribed env = true \/ env_fsub env = false ->
     env_monetized env = true -> env_premium env = None ->
     handleDumpBatch_deliver fuel user (Normal data) env = Some DumpCorrupted) /\
    (env_replied env = true -> env_subscribed env = true \/ env_fsub env = false ->
     (env_monetized env = true -> env_premium env <> None) ->
     num_lt end_ start = true -> fuel <> O ->
     handleDumpBatch_deliver fuel user (Normal data) env = Some (DumpNothing [])))) /\
  parseInt_member (Some (JsonString (lit "12abc"))) = Num 12 /\
  parseInt_member (Some (JsonArray [JsonNumber 12])) = Num 12 /\
  parseInt_member (Some (JsonBool true)) = NaN /\
  parseInt_member None = NaN.
Proof.
  split; [done|]. split; [done|]. split; [|by vm_compute].
  intros Hdata. cbv zeta.
  assert (Hc : exists chatId, get_member data (lit "c") = Normal chatId).
  { destruct data; try done; by eexists. }
  destruct Hc as [chatId Hc].
  assert (Hrun : handleDumpBatch_deliver fuel user (Normal data) env =
            let start := (dump_ids data).1 in
            let end_ := (dump_ids data).2 in
            if isNaN start || isNaN end_ then Some DumpCorrupted
            else if negb (env_replied env) then Some DumpCorrupted
            else if negb (env_subscribed env) && env_fsub env then Some DumpRestricted
            else match (if env_monetized env then env_premium env else Some true) with
                 | None => Some DumpCorrupted
                 | Some _ =>
                     match copy_attempts fuel (env_copy env) start end_ with
                     | None => None
                     | Some attempts =>
                         match omap snd attempts with
                         | [] => Some (DumpNothing attempts)
                         | sent => Some (DumpDelivered attempts sent
                                           (handleDumpBatch_timer user sent))
                         end
                     end
                 end).
  { unfold handleDumpBatch_deliver, dump_ids. rewrite Hc.
    destruct (get_member data (lit "s")) as [data_s|]; [|by destruct data].
    destruct (get_member data (lit "e")) as [data_e|]; [|by destruct data].
    cbn [fst snd]. cbv zeta.
    repeat case_match; done. }
  rewrite Hrun. cbv zeta. clear Hrun. split.
  - intros [-> | ->]; [done|]. by rewrite orb_true_r.
  - intros -> ->. cbn [orb]. split; [by intros ->|]. split; [by intros -> -> ->|]. split.
    + intros -> Hsub -> ->. cbn [negb]. destruct Hsub as [-> | ->]; [done|].
      by rewrite andb_false_r.
    + intros -> Hsub Hprem Hlt Hfuel. cbn [negb].
      assert (Hgate : negb (env_subscribed env) && env_fsub env = false).
      { destruct Hsub as [-> | ->]; [done|]. by rewrite andb_false_r. }
      rewrite Hgate.
      assert (Hp : exists b, (if env_monetized env then env_premium env else Some true) = Some b).
      { destruct (env_monetized env); [|by eexists].
        destruct (env_premium env) as [b|]; [by eexists|]. by destruct Hprem. }
      destruct Hp as [b ->]. destruct fuel as [|fuel]; [done|]. cbn [copy_attempts].
      unfold num_le. by rewrite Hlt, andb_false_r.
Qed.

Lemma dump_batch_refusals_witness :
  handleDumpBatch_deliver 5 42
    (Normal (JsonObject [(lit "c", JsonString (lit "-1001")); (lit "s", JsonNumber 9);
                         (lit "e", JsonNumber 3)]))
    {| env_replied := true; env_subscribed := true; env_fsub := true;
       env_monetized := false; env_premium := None; env_copy := fun _ => Some 7 |}
  = Some (DumpNothing []).
Proof.
  destruct (dump_batch_refusals 5 42
    (JsonObject [(lit "c", JsonString (lit "-1001")); (lit "s", JsonNumber 9);
                 (lit "e", JsonNumber 3)])
    {| env_replied := true; env_subscribed := true; env_fsub := true;
       env_monetized := false; env_premium := None; env_copy := fun _ => Some 7 |})
    as (_ & _ & Hdata & _).
  destruct Hdata as [_ Hread]; [done|].
  destruct Hread as (_ & _ & _ & Hempty); [reflexivity..|].
  apply Hempty; [reflexivity|by left|done|reflexivity|done].
Defined.

(** ** The pages of a search *)

Lemma insert_desc_perm (d : ContentRecord) (l : list ContentRecord) :
  insert_desc d l ≡ₚ d :: l.
Proof.
  induction l as [|x l IH]; [done|]. cbn [insert_desc].
  destruct (str_compare (_id d) (_id x)); [done| |done].
  by rewrite IH, Permutation_swap.
Qed.

(** Sorting keeps the records. *)
Lemma sort_desc_perm (l : list ContentRecord) : sort_desc l ≡ₚ l.
Proof.
  unfold sort_desc. induction l as [|d l IH]; [done|]. cbn [foldr].
  by rewrite insert_desc_perm, IH.
Qed.

Section PageFacts.
Context {regexp : Type}.
Variable compose : jsstring -> SearchFilters -> completion (list jsstring).
Variable RegExp : jsstring -> option regexp.
Variable regexp_matches : regexp -> jsstring -> bool.
Variable fuse_search : list ContentRecord -> jsstring -> list FuseResult.
Variable toLowerCase : jsstring -> jsstring.
Variable fails : store_call -> bool.
Variable now : Z.

Local Abbreviation search :=
  (searchFiles compose RegExp regexp_matches fuse_search toLowerCase fails now).

(** The trimmed page is the window of ten. *)
Lemma trimmed_window (skip : nat) (found : list ContentRecord) :
  trimmed (take (RESULTS_PER_PAGE + 1) (drop skip found)) =
    take RESULTS_PER_PAGE (drop skip found) /\
  ((RESULTS_PER_PAGE <? length (take (RESULTS_PER_PAGE + 1) (drop skip found)))%nat = true
   <-> (skip + RESULTS_PER_PAGE < length found)%nat).
Proof.
  unfold trimmed, slice, RESULTS_PER_PAGE. cbn [Nat.add Nat.sub drop].
  rewrite length_take, length_drop. split.
  - destruct (Nat.ltb_spec 10 (11 `min` (length found - skip))) as [Hlt|Hge].
    + rewrite drop_0, take_take. f_equal.
    + rewrite take_ge by (rewrite length_drop; lia).
      rewrite (take_ge (drop skip found)) by (rewrite length_drop; lia). done.
  - rewrite Nat.ltb_lt. lia.
Qed.

(** X15.  When the conditions compile and the page query succeeds, the
    exact result is the window of ten of page [p] over the matching
    records in descending [_id] order, every record of it is a record of
    the catalog that satisfies every condition, and [hasNext] tells
    exactly whether a matching record lies beyond the window. *)
Theorem exact_page_is_window
    (q : jsstring) (p : N) (f : SearchFilters) (w : World)
    (pats : list jsstring) (conds : list regexp) :
  compose q f = Normal pats ->
  compile_all RegExp pats = Normal conds ->
  fails FindPage = false ->
  let found := sort_desc (List.filter (satisfies regexp_matches conds) (filesCollection w)) in
  let window := take RESULTS_PER_PAGE (drop (page_skip p) found) in
  fallback_due q f window = false ->
  exists r,
    outcome (search q p f w) = Normal r /\ isFuzzy r = false /\
    files r = window /\
    (hasNext r = true <-> (page_skip p + RESULTS_PER_PAGE < length found)%nat) /\
    Forall (fun d => d ∈ filesCollection w /\ satisfies regexp_matches conds d = true)
      (files r).
Proof.
  intros Hpats Hconds Hfind found window Hdue.
  rewrite searchFiles_run, Hpats, Hconds. cbv zeta. rewrite Hfind.
  unfold fetched. fold found.
  destruct (trimmed_window (page_skip p) found) as [Htrim Hnext].
  rewrite Htrim. fold window. rewrite Hdue.
  assert (Hall : Forall (fun d => d ∈ filesCollection w
                                  /\ satisfies regexp_matches conds d = true) window).
  { apply Forall_forall. intros d Hd. subst window found.
    eapply elem_of_sublist in Hd; [|apply sublist_take].
    eapply elem_of_sublist in Hd; [|apply sublist_drop].
    rewrite sort_desc_perm in Hd. apply list_elem_of_In, filter_In in Hd as [Hd ?].
    by apply list_elem_of_In in Hd. }
  destruct (tracking_due q p f && _); eexists; cbn [outcome];
    (split; [reflexivity|]); unfold exact_page; cbn [files hasNext isFuzzy];
    rewrite Htrim; by repeat split; try apply Hnext.
Qed.

(** X16.  A page of results holds ten records at most, in the exact
    result, in the fallback and after a failure alike. *)
Theorem search_page_holds_ten_at_most
    (q : jsstring) (p : N) (f : SearchFilters) (w : World) :
  exists r, outcome (search q p f w) = Normal r /\
            (length (files r) <= RESULTS_PER_PAGE)%nat.
Proof.
  assert (Hexact : forall results : list ContentRecord,
            (length (trimmed results) <= RESULTS_PER_PAGE)%nat).
  { intros results. unfold trimmed, slice, RESULTS_PER_PAGE.
    destruct (Nat.ltb_spec 10 (length results)); [rewrite length_take|]; lia. }
  assert (Hfuzzy : (length (files (fuzzy_page regexp_matches fuse_search q p w))
                    <= RESULTS_PER_PAGE)%nat).
  { unfold fuzzy_page, slice. cbn [files]. rewrite length_map, length_take. lia. }
  assert (Hempty : (length (files empty_result) <= RESULTS_PER_PAGE)%nat).
  { unfold RESULTS_PER_PAGE. cbn. lia. }
  rewrite searchFiles_run.
  destruct (compose q f) as [pats|]; [|by eexists].
  destruct (compile_all RegExp pats) as [conds|]; [|by eexists].
  cbv zeta. destruct (fails FindPage); [by eexists|].
  destruct (fallback_due q f _).
  - destruct (fails FindRecent); by eexists.
  - destruct (tracking_due q p f && _); eexists; (split; [reflexivity|]); apply Hexact.
Qed.

(** X17.  A search never changes the catalog, and the only trending
    counter it can change is the one keyed by the lowercased query,
    which it leaves as it was or raises by one. *)
Theorem search_is_read_only (q : jsstring) (p : N) (f : SearchFilters) (w : World) :
  let run := search q p f w in
  filesCollection (final run) = filesCollection w /\
  (forall key, key <> toLowerCase q ->
     trendingCollection (final run) !! key = trendingCollection w !! key) /\
  (counter (final run) (toLowerCase q) = counter w (toLowerCase q) \/
   counter (final run) (toLowerCase q) = counter w (toLowerCase q) + 1).
Proof.
  cbv zeta.
  assert (Hbump : forall w' : World, w' = w \/ w' = bump now (toLowerCase q) w ->
    filesCollection w' = filesCollection w /\
    (forall key, key <> toLowerCase q ->
       trendingCollection w' !! key = trendingCollection w !! key) /\
    (counter w' (toLowerCase q) = counter w (toLowerCase q) \/
     counter w' (toLowerCase q) = counter w (toLowerCase q) + 1)).
  { intros w' [-> | ->]; [by repeat split; try left|].
    split; [done|]. split.
    - intros key Hkey. unfold bump. cbn [trendingCollection]. by rewrite lookup_insert_ne.
    - right. unfold counter at 1, bump. cbn [trendingCollection].
      by rewrite lookup_insert_eq. }
  apply Hbump. rewrite searchFiles_run.
  destruct (compose q f) as [pats|]; [|by left].
  destruct (compile_all RegExp pats) as [conds|]; [|by left].
  cbv zeta. destruct (fails FindPage); [by left|].
  destruct (fallback_due q f _); [destruct (fails FindRecent); by left|].
  destruct (tracking_due q p f && _); [|by left]. cbn [final].
  destruct (fails UpdateTrending); [by left|by right].
Qed.

(** X18.  [trackSearch] never fails its caller: it returns normally
    whatever the store does.  A query of fewer than three characters
    asks nothing of the store; a failed update leaves the counters as
    they were; an update that succeeds raises the counter of the
    lowercased query by one and stamps it. *)
Theorem trackSearch_is_best_effort (query : jsstring) (w : World) :
  let run := trackSearch toLowerCase fails now query w in
  outcome run = Normal tt /\
  ((length query < 3)%nat -> final run = w /\ trace run = []) /\
  ((3 <= length query)%nat ->
   trace run = [EvTrendingUpdate (toLowerCase query)] /\
   final run = if fails UpdateTrending then w else bump now (toLowerCase query) w).
Proof.
  cbv zeta. unfold trackSearch.
  destruct (Nat.ltb_spec (length query) 3) as [Hshort|Hlong].
  - rewrite orb_true_r. split; [done|]. split; [done|]. lia.
  - rewrite orb_false_r. rewrite bool_decide_eq_false_2 by (intros ->; simpl in Hlong; lia).
    unfold try_catch, trending_updateOne, emit, throw, mbind, M_bind, mret, M_ret.
    cbn [outcome final trace].
    destruct (fails UpdateTrending); (split; [done|]); (split; [lia|]); intros _;
      by split.
Qed.
End PageFacts.

(** ** Sending a page of results *)

Section ResultsFacts.
Context {regexp : Type}.
Variable compose : jsstring -> SearchFilters -> completion (list jsstring).
Variable RegExp : jsstring -> option regexp.
Variable regexp_matches : regexp -> jsstring -> bool.
Variable fuse_search : list ContentRecord -> jsstring -> list FuseResult.
Variable toLowerCase : jsstring -> jsstring.
Variable fails : store_call -> bool.
Variable now : Z.
Variable username : jsstring.
Variable ADMIN_IDS : list Z.

Local Abbreviation search :=
  (searchFiles compose RegExp regexp_matches fuse_search toLowerCase fails now).
Local Abbreviation send :=
  (sendSearchResults compose RegExp regexp_matches fuse_search toLowerCase fails now
     username ADMIN_IDS).

(** A search returns, and offers a previous page on a later page only. *)
Lemma search_returns (q : jsstring) (p : N) (f : SearchFilters) (w : World) :
  exists r w' t,
    search q p f w = {| outcome := Normal r; final := w'; trace := t |} /\
    (hasPrev r = true -> (0 < p)%N).
Proof.
  assert (Hprev : forall b : bool, (if b then (0 <? p)%N else false) = true -> (0 < p)%N).
  { intros [|]; [by intros ?%N.ltb_lt|done]. }
  rewrite searchFiles_run.
  destruct (compose q f) as [pats|]; [|by eexists _, _, _].
  destruct (compile_all RegExp pats) as [conds|]; [|by eexists _, _, _].
  cbv zeta. destruct (fails FindPage); [by eexists _, _, _|].
  destruct (fallback_due q f _).
  - destruct (fails FindRecent); [by eexists _, _, _|].
    eexists _, _, _. split; [reflexivity|]. cbn [fuzzy_page hasPrev]. by intros ?%N.ltb_lt.
  - destruct (tracking_due q p f && _); eexists _, _, _; (split; [reflexivity|]);
      cbn [exact_page hasPrev]; by intros ?%N.ltb_lt.
Qed.

End ResultsFacts.

(** ** The catalog *)

Section CatalogFacts.
Variable cfails : catalog_call -> bool.

Lemma find_same_id_None (id : jsstring) (l : list ContentRecord) :
  List.find (same_id id) l = None <-> id ∉ map _id l.
Proof.
  induction l as [|d l IH]; cbn [List.find map].
  - split; [by intros _ ?%elem_of_nil|done].
  - unfold same_id at 1. case_bool_decide as Hd.
    + split; [done|]. intros Hn. destruct Hn. subst id. by left.
    + rewrite IH, not_elem_of_cons. split; [by intros ?|by intros [_ ?]].
Qed.

Lemma existsb_same_id (id : jsstring) (l : list ContentRecord) :
  existsb (same_id id) l = false <-> id ∉ map _id l.
Proof.
  induction l as [|d l IH]; cbn [existsb map].
  - split; [by intros _ ?%elem_of_nil|done].
  - unfold same_id at 1. case_bool_decide as Hd; cbn [orb].
    + split; [done|]. intros Hn. destruct Hn. subst id. by left.
    + rewrite IH, not_elem_of_cons. split; [by intros ?|by intros [_ ?]].
Qed.

(** What [indexFile] answers and leaves, case by case. *)
Lemma indexFile_cases (fileData : FileData) (w : World) :
  indexFile cfails fileData w =
  if cfails CallFindOne then (IndexFailed, w)
  else if bool_decide (file_id fileData ∈ map _id (filesCollection w))
  then (AlreadyIndexed, w)
  else if cfails CallInsertOne then (IndexFailed, w)
  else (IndexedOk, with_files w (filesCollection w ++ [index_document fileData])).
Proof.
  unfold indexFile, findOne, insertOne. cbv zeta. cbn [index_document _id].
  destruct (cfails CallFindOne); [done|].
  destruct (List.find _ _) as [d|] eqn:Hfind.
  - rewrite bool_decide_eq_true_2; [done|].
    destruct (decide (file_id fileData ∈ map _id (filesCollection w))) as [|Hn]; [done|].
    apply find_same_id_None in Hn. congruence.
  - apply find_same_id_None in Hfind. rewrite bool_decide_eq_false_2 by done.
    apply existsb_same_id in Hfind. rewrite Hfind, orb_false_r.
    by destruct (cfails CallInsertOne).
Qed.

(** X20.  Indexing keeps the [_id] of the catalog unique.  A file whose
    [file_id] is already there is reported as a duplicate and changes
    nothing; otherwise, unless the store fails, the catalog gains
    exactly the record of the file, at its end, under a name that is
    never empty. *)
Theorem indexFile_keeps_ids_unique (fileData : FileData) (w : World) :
  ids_unique w ->
  let result := indexFile cfails fileData w in
  ids_unique (snd result) /\
  (fst result = AlreadyIndexed ->
   snd result = w /\ file_id fileData ∈ map _id (filesCollection w)) /\
  (fst result = IndexFailed -> snd result = w) /\
  (fst result = IndexedOk ->
   (file_id fileData ∉ map _id (filesCollection w)) /\
   filesCollection (snd result) = filesCollection w ++ [index_document fileData] /\
   file_name (index_document fileData) <> []).
Proof.
  intros Huniq. cbv zeta. rewrite indexFile_cases.
  destruct (cfails CallFindOne); [by repeat split|].
  case_bool_decide as Hin; [by repeat split|].
  destruct (cfails CallInsertOne); [by repeat split|]. cbn [fst snd].
  split; [|split; [done|split; [done|]]].
  - unfold ids_unique, with_files. cbn [filesCollection].
    rewrite map_app. cbn [map index_document _id].
    apply NoDup_app. split; [done|]. split; [|apply NoDup_singleton].
    intros id Hid ->%list_elem_of_singleton. done.
  - intros _. split; [done|]. split; [done|].
    cbn [index_document file_name].
    by destruct (data_file_name fileData) as [| |[|??]],
      (data_caption fileData) as [| |[|??]].
Qed.

Lemma find_app_None {A : Type} (q : A -> bool) (l1 l2 : list A) :
  List.find q l1 = None -> List.find q (l1 ++ l2) = List.find q l2.
Proof.
  induction l1 as [|x l1 IH]; [done|]. cbn [List.find app].
  destruct (q x); [done|]. exact IH.
Qed.

Lemma find_unique (q : ContentRecord -> bool) (l : list ContentRecord) (d : ContentRecord) :
  d ∈ l -> q d = true -> (forall d', d' ∈ l -> q d' = true -> d' = d) ->
  List.find q l = Some d.
Proof.
  intros Hd Hq Hu. destruct (List.find q l) as [d'|] eqn:Hfind.
  - apply find_some in Hfind as [Hin%list_elem_of_In Hq']. by rewrite (Hu d' Hin Hq').
  - eapply find_none in Hfind; [|by apply list_elem_of_In]. congruence.
Qed.

End CatalogFacts.

Section DeletionFacts.
Variable cfails : catalog_call -> bool.

Lemma remove_first_found (q : ContentRecord -> bool) (l : list ContentRecord)
    (d : ContentRecord) :
  List.find q l = Some d -> l ≡ₚ d :: remove_first q l.
Proof.
  induction l as [|x l IH]; [done|]. cbn [List.find remove_first].
  destruct (q x); [by intros [= ->]|]. intros Hd. by rewrite Permutation_swap, <- IH.
Qed.

Lemma remove_first_none (q : ContentRecord -> bool) (l : list ContentRecord) :
  List.find q l = None -> remove_first q l = l.
Proof.
  induction l as [|x l IH]; [done|]. cbn [List.find remove_first].
  destruct (q x); [done|]. intros Hd. by rewrite IH.
Qed.

Lemma remove_first_length (q : ContentRecord -> bool) (l : list ContentRecord) :
  (length l <= S (length (remove_first q l)))%nat.
Proof.
  induction l as [|x l IH]; [cbn; lia|]. cbn [remove_first].
  destruct (q x); cbn [length]; lia.
Qed.

(** The records of a catalog with unique ids are told apart by their
    [_id]. *)
Lemma unique_id_eq (l : list ContentRecord) (d d' : ContentRecord) :
  NoDup (map _id l) -> d ∈ l -> d' ∈ l -> _id d = _id d' -> d = d'.
Proof.
  induction l as [|x l IH]; [by intros _ ?%elem_of_nil|].
  cbn [map]. intros [Hx Hl]%NoDup_cons [->|Hd]%elem_of_cons [->|Hd']%elem_of_cons Hid.
  - done.
  - destruct Hx. rewrite Hid. by apply list_elem_of_fmap_2.
  - destruct Hx. rewrite <- Hid. by apply list_elem_of_fmap_2.
  - by apply IH.
Qed.

Lemma find_same_id_self (l : list ContentRecord) (d : ContentRecord) :
  NoDup (map _id l) -> d ∈ l -> List.find (same_id (_id d)) l = Some d.
Proof.
  intros Hl Hd. apply find_unique; [done|by apply bool_decide_eq_true_2|].
  intros d' Hd' Hq%bool_decide_eq_true. by apply (unique_id_eq l).
Qed.

(** Deleting a record of a catalog with unique ids by its [_id]. *)
Lemma delete_by_id (w : World) (d : ContentRecord) :
  ids_unique w -> d ∈ filesCollection w ->
  let rest := remove_first (same_id (_id d)) (filesCollection w) in
  filesCollection w ≡ₚ d :: rest /\ (_id d ∉ map _id rest) /\ NoDup (map _id rest).
Proof.
  intros Hu Hd. cbv zeta.
  pose proof (remove_first_found _ _ _ (find_same_id_self _ _ Hu Hd)) as Hperm.
  split; [done|]. unfold ids_unique in Hu. rewrite Hperm in Hu. cbn [map] in Hu.
  by apply NoDup_cons in Hu.
Qed.

(** X22.  [delete_execute] does nothing for a user who is not an
    admin.  For an admin it deletes the record its lookup finds, the
    first that answers to the id as its [_id] or as its [file_ref], and
    no other: in a catalog with unique ids the other records stay and no
    record with that [_id] is left.  When nothing answers, or the store
    fails, the catalog stays as it was. *)
Theorem delete_execute_removes_what_it_found
    (admin : bool) (fileId : jsstring) (w : World) :
  ids_unique w ->
  let reply := fst (delete_execute cfails admin fileId w) in
  let w' := snd (delete_execute cfails admin fileId w) in
  (admin = false -> reply = DeleteIgnored /\ w' = w) /\
  (forall file, reply = DeleteDone file ->
     List.find (by_id_or_ref fileId) (filesCollection w) = Some file /\
     filesCollection w ≡ₚ file :: filesCollection w' /\
     (_id file ∉ map _id (filesCollection w')) /\ ids_unique w') /\
  ((forall file, reply <> DeleteDone file) -> w' = w).
Proof.
  intros Hu. cbv zeta. unfold delete_execute, findOne, deleteOne.
  destruct admin; cbn [negb]; [|by repeat split].
  split; [done|].
  destruct (cfails CallFindOne); [by repeat split|].
  destruct (List.find _ _) as [file|] eqn:Hfind; [|by repeat split].
  destruct (cfails CallDeleteOne); [by repeat split|]. cbn [fst snd].
  split; [|by intros Hn; destruct (Hn file)].
  intros file' [= <-]. split; [done|].
  apply find_some in Hfind as [Hin%list_elem_of_In _].
  destruct (delete_by_id w file Hu Hin) as (Hperm & Hgone & Hnodup).
  by repeat split.
Qed.

(** X23.  A post in the delete channel removes one record at most.  The
    match by size alone is used only when no record answers to the ids
    of the media and none has its size and its name, and it deletes only
    when exactly one record of the catalog has that size: with two or
    more nothing is deleted. *)
Theorem channel_delete_is_cautious
    (name_matches : jsstring -> jsstring -> bool) (media : Media) (caption : jsval)
    (w : World) :
  let reply := fst (channel_delete cfails name_matches media caption w) in
  let w' := snd (channel_delete cfails name_matches media caption w) in
  (length (filesCollection w) <= S (length (filesCollection w')))%nat /\
  trendingCollection w' = trendingCollection w /\
  (forall file, reply = ChannelDeletedBySize file ->
     List.filter (fun d => file_size d =? media_file_size media) (filesCollection w)
       = [file] /\
     List.find (fun d => by_id_or_ref (media_file_id media) d
                         || by_id_or_ref (media_file_unique_id media) d)
       (filesCollection w) = None /\
     filesCollection w' = remove_first (same_id (_id file)) (filesCollection w)) /\
  (forall n, reply = ChannelAmbiguous n ->
     w' = w /\ (2 <= n)%nat /\
     n = length (List.filter (fun d => file_size d =? media_file_size media)
                   (filesCollection w))).
Proof.
  cbv zeta. unfold channel_delete, findOne, deleteOne. cbv zeta.
  pose proof (Nat.le_succ_diag_r (length (filesCollection w))) as Hsame.
  assert (Hlen : forall q, (length (filesCollection w)
            <= S (length (filesCollection (with_files w
                   (remove_first q (filesCollection w))))))%nat).
  { intros q. apply remove_first_length. }
  destruct (cfails CallFindOne); [by repeat split|].
  destruct (List.find (fun d => by_id_or_ref _ d || by_id_or_ref _ d) _) as [file|] eqn:H1.
  { destruct (cfails CallDeleteOne); cbn [fst snd]; by repeat split. }
  destruct (List.find (fun d => (file_size d =? _) && _) _) as [file|] eqn:H2.
  { destruct (cfails CallDeleteOne); cbn [fst snd]; by repeat split. }
  destruct (cfails CallFind); [by repeat split|].
  destruct (List.filter _ _) as [|target [|another others]] eqn:H3.
  - by repeat split.
  - destruct (cfails CallDeleteOne); cbn [fst snd]; [by repeat split|].
    split; [done|]. split; [done|]. split; [|done].
    by intros file [= <-].
  - cbn [fst snd]. split; [done|]. split; [done|]. split; [done|].
    intros n [= <-]. cbn [length]. repeat split; lia.
Qed.
End DeletionFacts.

(** ** Deep links *)

Lemma startsWith_spec (prefix text : jsstring) :
  startsWith prefix text = true <-> exists rest, text = prefix ++ rest.
Proof.
  revert text. induction prefix as [|a prefix IH]; intros text; cbn [startsWith].
  - split; [by eexists|done].
  - destruct text as [|b text]; [split; [done|by intros [rest ?]]|].
    rewrite andb_true_iff, N.eqb_eq, IH. split.
    + intros [-> [rest ->]]. by exists rest.
    + intros [rest [= -> ->]]. split; [done|by exists rest].
Qed.

Lemma remove_prefix (prefix rest : jsstring) :
  remove_first_occurrence prefix (prefix ++ rest) = rest.
Proof.
  assert (Hs : startsWith prefix (prefix ++ rest) = true)
    by (apply startsWith_spec; by exists rest).
  destruct (prefix ++ rest) as [|ch text] eqn:Heq; cbn [remove_first_occurrence];
    rewrite Hs, <- Heq; by rewrite drop_app_length.
Qed.

Lemma bot_start_admitted (env : StartEnv) (startPayload : jsval) :
  start_admitted env ->
  bot_start env startPayload =
  match startPayload with
  | JStr (ch :: rest) =>
      if startsWith (lit "file_") (ch :: rest)
      then RouteFile (remove_first_occurrence (lit "file_") (ch :: rest))
      else if startsWith (lit "get_") (ch :: rest)
      then RouteDump (remove_first_occurrence (lit "get_") (ch :: rest))
      else RouteWelcome
  | _ => RouteWelcome
  end.
Proof.
  intros [Hcheck Hsub]. unfold bot_start. rewrite Hcheck.
  by destruct Hsub as [-> | ->]; [|rewrite andb_false_r].
Qed.

Lemma bot_start_gates (env : StartEnv) (startPayload : jsval) :
  ~ start_admitted env ->
  bot_start env startPayload = RouteStopped \/ bot_start env startPayload = RouteJoinSponsor.
Proof.
  unfold start_admitted, bot_start. intros Hno.
  destruct (start_checked env) as [[|]|]; [|by left..].
  destruct (start_subscribed env), (start_fsub env); cbn; try by right.
  all: exfalso; apply Hno; split; [done|]; by (left + right).
Qed.

(** X24.  Where a [/start] link leads.  A user [checkUser] turns away,
    or for whom it throws, gets no further; one who has not joined the
    configured sponsor channel is asked to join.  A user who is let
    through is taken to the delivery of the file [<id>] exactly when the
    payload is [file_<id>], to the delivery of the batch [<payload>]
    exactly when it is [get_<payload>], and to the welcome message
    otherwise.  So the [search_<payload>] links of the share buttons
    lead to the welcome message, not to the delivery of the shared
    results; a [ref_<uid>] link leads there too, its referrer being the
    number nearest to the numeral, the user id itself below 2^53. *)
Theorem start_payload_routes (env : StartEnv) (startPayload : jsval) :
  (bot_start env startPayload = RouteStopped <-> start_checked env <> Normal true) /\
  (bot_start env startPayload = RouteJoinSponsor <->
     start_checked env = Normal true /\ start_subscribed env = false /\
     start_fsub env = true) /\
  (forall id, bot_start env startPayload = RouteFile id <->
              start_admitted env /\ startPayload = JStr (lit "file_" ++ id)) /\
  (forall payload, bot_start env startPayload = RouteDump payload <->
                   start_admitted env /\ startPayload = JStr (lit "get_" ++ payload)) /\
  (forall payload, start_admitted env ->
                   startPayload = JStr (share_start_payload payload) ->
                   bot_start env startPayload = RouteWelcome) /\
  (forall uid : N, startPayload = JStr (lit "ref_" ++ N_to_string uid) ->
     (start_admitted env -> bot_start env startPayload = RouteWelcome) /\
     start_referrer startPayload = Some (to_number (Z.of_N uid)) /\
     ((uid < 2 ^ 53)%N -> start_referrer startPayload = Some (Num (Z.of_N uid)))).
Proof.
  assert (Hroutes : forall route, route <> RouteStopped -> route <> RouteJoinSponsor ->
            bot_start env startPayload = route -> start_admitted env).
  { intros route H1 H2 Hroute.
    destruct (start_checked env) as [[|]|] eqn:Hcheck;
      [|unfold bot_start in Hroute; rewrite Hcheck in Hroute; congruence..].
    split; [done|]. unfold bot_start in Hroute. rewrite Hcheck in Hroute.
    destruct (start_subscribed env), (start_fsub env); by (left + right). }
  split; [|split; [|split; [|split; [|split]]]].
  - unfold bot_start. destruct (start_checked env) as [[|]|]; [|by split..].
    split; [|done]. destruct (negb _ && _); [done|].
    destruct startPayload as [| |[|ch text]]; try done.
    destruct (startsWith _ _); [done|]. by destruct (startsWith _ _).
  - unfold bot_start. destruct (start_checked env) as [[|]|];
      [|split; [done|by intros (? & _)]..].
    destruct (start_subscribed env), (start_fsub env); cbn [negb andb];
      try (split; [|by intros (_ & ? & ?)]);
      try (destruct startPayload as [| |[|ch text]]; try done;
           destruct (startsWith _ _); [done|]; by destruct (startsWith _ _)).
    done.
  - intros id. split.
    + intros Hroute.
      pose proof (Hroutes (RouteFile id) ltac:(done) ltac:(done) Hroute) as Hadm.
      split; [done|]. rewrite bot_start_admitted in Hroute by done.
      destruct startPayload as [| |[|ch text]]; try done.
      destruct (startsWith (lit "file_") (ch :: text)) eqn:Hfile.
      * apply startsWith_spec in Hfile as [rest Heq]. rewrite Heq in Hroute |- *.
        rewrite remove_prefix in Hroute. by injection Hroute as ->.
      * by destruct (startsWith (lit "get_") (ch :: text)).
    + intros [Hadm ->]. rewrite bot_start_admitted by done.
      change (lit "file_" ++ id) with (102%N :: lit "ile_" ++ id). cbv iota.
      change (102%N :: lit "ile_" ++ id) with (lit "file_" ++ id).
      assert (Hs : startsWith (lit "file_") (lit "file_" ++ id) = true)
        by (apply startsWith_spec; by eexists).
      by rewrite Hs, remove_prefix.
  - intros payload. split.
    + intros Hroute.
      pose proof (Hroutes (RouteDump payload) ltac:(done) ltac:(done) Hroute) as Hadm.
      split; [done|]. rewrite bot_start_admitted in Hroute by done.
      destruct startPayload as [| |[|ch text]]; try done.
      destruct (startsWith (lit "file_") (ch :: text)) eqn:Hfile; [done|].
      destruct (startsWith (lit "get_") (ch :: text)) eqn:Hget; [|done].
      apply startsWith_spec in Hget as [rest Heq]. rewrite Heq in Hroute |- *.
      rewrite remove_prefix in Hroute. by injection Hroute as ->.
    + intros [Hadm ->]. rewrite bot_start_admitted by done.
      change (lit "get_" ++ payload) with (103%N :: lit "et_" ++ payload). cbv iota.
      change (103%N :: lit "et_" ++ payload) with (lit "get_" ++ payload).
      assert (Hs : startsWith (lit "get_") (lit "get_" ++ payload) = true)
        by (apply startsWith_spec; by eexists).
      assert (Hf : startsWith (lit "file_") (lit "get_" ++ payload) = false) by done.
      by rewrite Hf, Hs, remove_prefix.
  - intros payload Hadm ->. by rewrite bot_start_admitted.
  - intros uid ->.
    assert (Href : start_referrer (JStr (lit "ref_" ++ N_to_string uid)) =
                   Some (to_number (Z.of_N uid))).
    { change (start_referrer (JStr (lit "ref_" ++ N_to_string uid)))
        with (Some (parseInt (remove_first_occurrence (lit "ref_")
                                (lit "ref_" ++ N_to_string uid)))).
      rewrite remove_prefix. destruct (N_to_string_spec uid) as (Hall & Hne & Hval).
      by rewrite parseInt_digits, Hval. }
    split; [|split; [done|]].
    + intros Hadm. by rewrite bot_start_admitted.
    + intros Huid. rewrite Href. f_equal. apply to_number_safe. unfold safe_integer.
      assert (Z.of_N uid < 2 ^ 53); [|lia]. change (2 ^ 53) with (Z.of_N (2 ^ 53)). lia.
Qed.

Section LinkFacts.
Variable cfails : catalog_call -> bool.

Lemma link_id_answers (d : ContentRecord) : by_id_or_ref (link_id d) d = true.
Proof.
  unfold by_id_or_ref, link_id. destruct (file_ref d) as [| |[|ch str]] eqn:Href; cbn [or_else].
  - by rewrite bool_decide_eq_true_2.
  - by rewrite bool_decide_eq_true_2.
  - by rewrite bool_decide_eq_true_2.
  - rewrite (bool_decide_eq_true_2 (JStr _ = JStr _)) by done. apply orb_true_r.
Qed.

(** X25.  The button of a file in the result keyboard opens that file:
    its URL carries the start payload [file_<id>], the id being the
    [file_ref] of the record, or its [_id] when it has none; [/start]
    routes that payload to the delivery of [<id>] for a user it lets
    through; and when the record is still in the catalog and no other
    record answers to that id, the record [sendFile] finds is this one,
    which it delivers unless a sponsor post is due and the premium lookup
    fails. *)
Theorem file_button_opens_its_file
    (username : jsstring) (ADMIN_IDS : list Z) (files : list ContentRecord)
    (page : Z) (hasNext hasPrev : bool) (filters : SearchFilters) (userId : option Z)
    (env : StartEnv) (monetized : bool) (premium : option bool)
    (w : World) (d : ContentRecord) :
  d ∈ files ->
  d ∈ filesCollection w ->
  (forall d', d' ∈ filesCollection w -> by_id_or_ref (link_id d) d' = true -> d' = d) ->
  cfails CallFindOne = false ->
  {| btn_kind := BFile d;
     btn_data := lit "https://t.me/" ++ username ++ lit "?start="
                   ++ lit "file_" ++ link_id d |}
    ∈ concat (generateKeyboard username ADMIN_IDS files page hasNext hasPrev filters userId) /\
  (start_admitted env ->
   bot_start env (JStr (lit "file_" ++ link_id d)) = RouteFile (link_id d)) /\
  (monetized = false \/ premium <> None ->
   exists sponsored kind,
     sendFile cfails monetized premium (link_id d) w = FileSent sponsored d kind) /\
  (monetized = true -> premium = None ->
   sendFile cfails monetized premium (link_id d) w = FileFaulted).
Proof.
  intros Hd Hin Huniq Hok.
  assert (Hfind : findOne cfails (by_id_or_ref (link_id d)) w = Normal (Some d)).
  { unfold findOne. rewrite Hok.
    by rewrite (find_unique _ _ d); [|done|apply link_id_answers|done]. }
  split; [|split; [|split]].
  - unfold generateKeyboard. cbv zeta. rewrite !concat_app.
    apply elem_of_app. right. apply elem_of_app. left.
    apply list_elem_of_lookup in Hd as [i Hi].
    apply list_elem_of_lookup. clear -Hi. revert i Hi.
    induction files as [|x l IH]; intros i Hi; [done|].
    destruct i as [|i].
    + injection Hi as ->. by exists O.
    + destruct (IH i Hi) as [j Hj]. by exists (S j).
  - intros Hadm. rewrite bot_start_admitted by done.
    change (lit "file_" ++ link_id d) with (102%N :: lit "ile_" ++ link_id d). cbv iota.
    change (102%N :: lit "ile_" ++ link_id d) with (lit "file_" ++ link_id d).
    assert (Hs : startsWith (lit "file_") (lit "file_" ++ link_id d) = true)
      by (apply startsWith_spec; by eexists).
    by rewrite Hs, remove_prefix.
  - intros Hsend. unfold sendFile. rewrite Hfind.
    destruct monetized; [|by eexists _, _].
    destruct premium as [b|]; [by eexists _, _|]. by destruct Hsend.
  - intros -> ->. unfold sendFile. by rewrite Hfind.
Qed.
End LinkFacts.

(** ** Users and referrals *)

Section UserFacts.
Variable ufails : users_call -> bool.
Variable now : Z.

Lemma credit_other (r other : Z) (users : gmap Z UserDoc) :
  other <> r -> credit_referrer r users !! other = users !! other.
Proof.
  intros Hne. unfold credit_referrer. destruct (users !! r); [|done].
  by rewrite lookup_insert_ne.
Qed.

Lemma credit_count (r : Z) (users : gmap Z UserDoc) :
  referral_count (credit_referrer r users) r =
  match users !! r with Some _ => referral_count users r + 1 | None => 0 end.
Proof.
  unfold credit_referrer, referral_count. destruct (users !! r) as [doc|] eqn:Hr.
  - by rewrite lookup_insert_eq.
  - by rewrite Hr.
Qed.

(** Saving a user who is there already touches that user only, and
    keeps the referral data. *)
Lemma saveUser_known (uid : Z) (name uname : jsval) (referredBy : option Z)
    (users : gmap Z UserDoc) (doc : UserDoc) :
  users !! uid = Some doc ->
  let users' := saveUser ufails now uid name uname referredBy users in
  (forall other, other <> uid -> users' !! other = users !! other) /\
  referral_count users' uid = referral_count users uid /\
  (referred_by <$> users' !! uid) = Some (referred_by doc) /\
  (joined_at <$> users' !! uid) = Some (joined_at doc).
Proof.
  intros Hdoc. cbv zeta. unfold saveUser. rewrite Hdoc.
  destruct (ufails UsersFindOne); [by rewrite ?Hdoc; unfold referral_count; rewrite ?Hdoc|].
  destruct (ufails UsersUpsert); [by rewrite ?Hdoc; unfold referral_count; rewrite ?Hdoc|].
  split; [|split; [|split]].
  - intros other Hne. by rewrite lookup_insert_ne.
  - unfold referral_count. by rewrite lookup_insert_eq, Hdoc.
  - by rewrite lookup_insert_eq.
  - by rewrite lookup_insert_eq.
Qed.

(** X26.  A referral is counted once.  Saving a user who is there
    already, or a new one with no referrer, with the referrer 0 or with
    the user as their own referrer, changes no other user.  Saving a new
    user with a referrer [r], the store answering, records [r] with the
    user, raises the referral counter of [r] by one when [r] is a known
    user, and changes nobody else; and saving the same user again, with
    any referrer, leaves the counter of [r] where it is. *)
Theorem referral_is_counted_once
    (uid : Z) (name uname : jsval) (referredBy : option Z) (users : gmap Z UserDoc) :
  let users' := saveUser ufails now uid name uname referredBy users in
  ((is_Some (users !! uid) \/ referredBy = None \/ referredBy = Some 0
    \/ referredBy = Some uid) ->
   forall other, other <> uid -> users' !! other = users !! other) /\
  (forall r, users !! uid = None -> referredBy = Some r -> r <> 0 -> r <> uid ->
     (forall call, ufails call = false) ->
     (referred_by <$> users' !! uid) = Some (Some r) /\
     referral_count users' uid = 0 /\
     referral_count users' r =
       match users !! r with Some _ => referral_count users r + 1 | None => 0 end /\
     (forall other, other <> uid -> other <> r -> users' !! other = users !! other) /\
     (forall name2 uname2 referredBy2,
        referral_count (saveUser ufails now uid name2 uname2 referredBy2 users') r
          = referral_count users' r)).
Proof.
  cbv zeta. split.
  - intros Hcase other Hne.
    destruct (users !! uid) as [doc|] eqn:Hdoc.
    { by apply (saveUser_known uid name uname referredBy users doc). }
    destruct Hcase as [[doc Hd]|Hcase]; [done|].
    unfold saveUser. rewrite Hdoc. destruct (ufails UsersFindOne); [done|].
    assert (Href : match referredBy with
                   | Some r => if negb (r =? 0) && negb (r =? uid) then Some r else None
                   | None => None
                   end = None).
    { destruct Hcase as [-> | [-> | ->]]; [done|done|]. by rewrite Z.eqb_refl, andb_false_r. }
    rewrite Href. destruct (ufails UsersUpsert); [done|]. by rewrite lookup_insert_ne.
  - intros r Hnew -> Hr0 Hru Hok.
    assert (Husers' : saveUser ufails now uid name uname (Some r) users =
              <[uid := {| first_name := name; username_of := uname; last_seen := now;
                          joined_at := Some now; referrals := Some 0;
                          referred_by := Some r;
                          isPremium := false; isBanned := false |}]>
                (credit_referrer r users)).
    { unfold saveUser. rewrite !Hok, Hnew.
      destruct (Z.eqb_spec r 0) as [?|_]; [done|].
      destruct (Z.eqb_spec r uid) as [?|_]; [done|]. done. }
    rewrite Husers'. split; [|split; [|split; [|split]]].
    + by rewrite lookup_insert_eq.
    + unfold referral_count. by rewrite lookup_insert_eq.
    + unfold referral_count at 1. rewrite lookup_insert_ne by done.
      apply credit_count.
    + intros other H1 H2. rewrite lookup_insert_ne by done. by apply credit_other.
    + intros name2 uname2 referredBy2. rewrite <- Husers'.
      unfold referral_count at 1 2.
      edestruct (saveUser_known uid name2 uname2 referredBy2
                   (saveUser ufails now uid name uname (Some r) users)) as (Hother & _).
      { rewrite Husers'. apply lookup_insert_eq. }
      by rewrite Hother.
Qed.
End UserFacts.

(** ** The link of the older share button *)

(** X27.  The decoder of the share link reads the two-field payload of
    the older share button as well: for a page that is a number from 0 to
    below 10^21 it gives back the query text and the page, and every
    filter comes out [undefined], which a search reads as no filter. *)
Theorem legacy_share_link_decodes (query : jsstring) (p : Z) :
  well_formed query ->
  representable p -> 0 <= p < 10 ^ 21 ->
  exists payload,
    legacy_share_payload query p = Normal payload /\
    handleStatelessBatch_decode payload =
      Normal {| shared_query := JStr query;
                shared_state :=
                  {| page := p;
                     filters := {| file_lang := JUndefined; year := JUndefined;
                                   quality := JUndefined |} |} |}.
Proof.
  intros Hwf Hrep Hrange.
  destruct (encodeURIComponent_roundtrip (length query) query) as
    (enc & items & Henc & Hchars & Hun & Hdec); [done..|].
  destruct (numeral_plain p) as (Hn1 & Hn2 & Hn3).
  assert (Hea : ascii enc).
  { eapply Forall_impl; [exact Hchars|]. intros u Hu. by apply component_char_plain. }
  assert (Heb : bar ∉ enc).
  { intros Hin. rewrite Forall_forall in Hchars.
    by destruct (component_char_plain bar (Hchars _ Hin)). }
  set (text := enc ++ [bar] ++ number_to_string p).
  assert (Htext : ascii text).
  { unfold text, ascii. rewrite !Forall_app. split; [done|]. split; [|done].
    constructor; [|constructor]. unfold bar. lia. }
  assert (Hsplit : split bar text = [enc; number_to_string p]).
  { unfold text. cbn [app]. rewrite split_app by done. by rewrite split_no_sep. }
  assert (Hparts : decode_all [enc; number_to_string p]
                   = Normal [query; number_to_string p]).
  { cbn [decode_all]. rewrite (unescape_plain (number_to_string p)) by done.
    unfold decodeURIComponent. rewrite Hun. cbn. by rewrite Hdec. }
  exists (base64url_encode (Buffer_from text)). split.
  - unfold legacy_share_payload. by rewrite Henc.
  - unfold handleStatelessBatch_decode. rewrite transport_roundtrip by done.
    rewrite Hsplit, Hparts. unfold index. cbn [lookup list_lookup parseInt_val].
    by rewrite parseInt_number_to_string, or_zero_Num by (done || lia).
Qed.

Lemma legacy_share_link_decodes_witness :
  exists payload,
    legacy_share_payload (lit "dark|knight 100%") 2 = Normal payload /\
    handleStatelessBatch_decode payload =
      Normal {| shared_query := JStr (lit "dark|knight 100%");
                shared_state :=
                  {| page := 2;
                     filters := {| file_lang := JUndefined; year := JUndefined;
                                   quality := JUndefined |} |} |}.
Proof.
  destruct (legacy_share_link_decodes (lit "dark|knight 100%") 2) as (payload & Hp & Hd).
  - vm_compute. repeat split; lia.
  - reflexivity.
  - lia.
  - exists payload. split; [exact Hp|exact Hd].
Defined.

(** ** Batch indexing *)

Section BatchFacts.
Variable cfails : catalog_call -> bool.
Variable forwardMessage : Z -> transport_result ChannelMessage.
Variable deleteMessage : Z -> transport_result unit.
Variable progress_throws : bool.

(** One call to [indexFile] leaves the catalog as it was or adds one
    record with a new [_id] at its end. *)
Lemma indexFile_step (fileData : FileData) (w : World) :
  let result := indexFile cfails fileData w in
  (fst result <> IndexedOk /\ snd result = w) \/
  (fst result = IndexedOk /\
   filesCollection (snd result) = filesCollection w ++ [index_document fileData] /\
   trendingCollection (snd result) = trendingCollection w /\
   (ids_unique w -> ids_unique (snd result))).
Proof.
  cbv zeta. rewrite indexFile_cases.
  destruct (cfails CallFindOne); [by left|].
  case_bool_decide as Hin; [by left|].
  destruct (cfails CallInsertOne); [by left|]. right. cbn [fst snd].
  split; [done|]. split; [done|]. split; [done|].
  unfold ids_unique, with_files. cbn [filesCollection]. intros Hu.
  rewrite map_app. cbn [map index_document _id].
  apply NoDup_app. split; [done|]. split; [|apply NoDup_singleton].
  by intros id Hid ->%list_elem_of_singleton.
Qed.

(** The invariant of the loop. *)
Lemma batch_loop_invariant (fuel : nat) : forall (current : Z) (n : BatchCounts) (w : World),
  let result := batch_loop cfails forwardMessage deleteMessage progress_throws
                  fuel current n w in
  let n' := batch_counts result in
  let w' := batch_world result in
  (indexed n <= indexed n' /\ duplicates n <= duplicates n' /\ errors n <= errors n')%nat /\
  (indexed n' + duplicates n' <= indexed n + duplicates n + fuel)%nat /\
  (errors n' <= errors n + fuel)%nat /\
  (progress_throws = false ->
   (indexed n' + duplicates n' + errors n'
    <= indexed n + duplicates n + errors n + fuel)%nat) /\
  (exists added, filesCollection w' = filesCollection w ++ added /\
                 length added = (indexed n' - indexed n)%nat) /\
  trendingCollection w' = trendingCollection w /\
  (ids_unique w -> ids_unique w').
Proof.
  induction fuel as [|fuel IH]; intros current n w; cbv zeta.
  { cbn [batch_loop batch_counts batch_world]. split; [lia|]. split; [lia|]. split; [lia|].
    split; [lia|]. split; [|done].
    exists []. rewrite app_nil_r. split; [done|]. cbn. lia. }
  cbn [batch_loop].
  assert (Hstop : forall n0 w0, n0 = n -> w0 = w ->
    (indexed n <= indexed n0 /\ duplicates n <= duplicates n0 /\ errors n <= errors n0)%nat /\
    (indexed n0 + duplicates n0 <= indexed n + duplicates n + S fuel)%nat /\
    (errors n0 <= errors n + S fuel)%nat /\
    (progress_throws = false ->
     (indexed n0 + duplicates n0 + errors n0
      <= indexed n + duplicates n + errors n + S fuel)%nat) /\
    (exists added, filesCollection w0 = filesCollection w ++ added /\
                   length added = (indexed n0 - indexed n)%nat) /\
    trendingCollection w0 = trendingCollection w /\
    (ids_unique w -> ids_unique w0)).
  { intros n0 w0 -> ->. split; [lia|]. split; [lia|]. split; [lia|].
    split; [lia|]. split; [|done].
    exists []. rewrite app_nil_r. split; [done|]. cbn. lia. }
  assert (Herr : forall c,
    let result := batch_loop cfails forwardMessage deleteMessage progress_throws
                    fuel c (count_error n) w in
    (indexed n <= indexed (batch_counts result) /\ duplicates n <= duplicates (batch_counts result)
     /\ errors n <= errors (batch_counts result))%nat /\
    (indexed (batch_counts result) + duplicates (batch_counts result)
     <= indexed n + duplicates n + S fuel)%nat /\
    (errors (batch_counts result) <= errors n + S fuel)%nat /\
    (progress_throws = false ->
     (indexed (batch_counts result) + duplicates (batch_counts result) + errors (batch_counts result)
      <= indexed n + duplicates n + errors n + S fuel)%nat) /\
    (exists added, filesCollection (batch_world result) = filesCollection w ++ added /\
                   length added = (indexed (batch_counts result) - indexed n)%nat) /\
    trendingCollection (batch_world result) = trendingCollection w /\
    (ids_unique w -> ids_unique (batch_world result))).
  { intros c. cbv zeta.
    destruct (IH c (count_error n) w) as (H1 & H2 & H3 & H4 & H5 & H6 & H7).
    cbn [count_error indexed duplicates errors] in *.
    split; [lia|]. split; [lia|]. split; [lia|].
    split; [intros Hp; specialize (H4 Hp); lia|]. done. }
  destruct (forwardMessage current) as [message| |]; [|by apply Hstop|by apply Herr].
  destruct (deleteMessage (message_id message)) as [[]| |]; [|by apply Hstop|by apply Herr].
  (* the message was fetched: what indexing it gives *)
  assert (Hidx : exists n1 w1,
    match message_media message with
    | Some fileData =>
        match indexFile cfails fileData w with
        | (IndexedOk, w') => (count_indexed n, w')
        | (AlreadyIndexed, _) => (count_duplicate n, w)
        | (IndexFailed, _) => (n, w)
        end
    | None => (n, w)
    end = (n1, w1) /\
    (indexed n <= indexed n1 /\ duplicates n <= duplicates n1 /\ errors n1 = errors n)%nat /\
    (indexed n1 + duplicates n1 <= indexed n + duplicates n + 1)%nat /\
    (exists added, filesCollection w1 = filesCollection w ++ added /\
                   length added = (indexed n1 - indexed n)%nat) /\
    trendingCollection w1 = trendingCollection w /\
    (ids_unique w -> ids_unique w1)).
  { assert (Hsame : forall k : BatchCounts, indexed k = indexed n ->
              exists added, filesCollection w = filesCollection w ++ added /\
                            length added = (indexed k - indexed n)%nat).
    { intros k Hk. exists []. rewrite app_nil_r. split; [done|]. cbn. lia. }
    destruct (message_media message) as [fileData|].
    - destruct (indexFile_step fileData w) as [[Hno Hw]|(Hyes & Hfiles & Htr & Hu)];
        destruct (indexFile cfails fileData w) as [[| |] w'] eqn:Hres;
        cbn [fst snd] in *; try done; subst; eexists _, _; (split; [reflexivity|]);
        cbn [count_indexed count_duplicate indexed duplicates errors];
        repeat split; try lia; try done; try (by apply Hsame).
      exists [index_document fileData]. split; [done|]. cbn. lia.
    - eexists _, _. split; [reflexivity|]. repeat split; try lia; try done.
      by apply Hsame. }
  destruct Hidx as (n1 & w1 & -> & Hn1 & Hsum1 & (added1 & Hfiles1 & Hlen1) & Htr1 & Hu1).
  assert (Hnext : forall c k, (indexed k = indexed n1 /\ duplicates k = duplicates n1
                               /\ errors n1 <= errors k <= S (errors n1))%nat ->
    (progress_throws = false -> errors k = errors n1) ->
    let result := batch_loop cfails forwardMessage deleteMessage progress_throws
                    fuel c k w1 in
    (indexed n <= indexed (batch_counts result) /\ duplicates n <= duplicates (batch_counts result)
     /\ errors n <= errors (batch_counts result))%nat /\
    (indexed (batch_counts result) + duplicates (batch_counts result)
     <= indexed n + duplicates n + S fuel)%nat /\
    (errors (batch_counts result) <= errors n + S fuel)%nat /\
    (progress_throws = false ->
     (indexed (batch_counts result) + duplicates (batch_counts result) + errors (batch_counts result)
      <= indexed n + duplicates n + errors n + S fuel)%nat) /\
    (exists added, filesCollection (batch_world result) = filesCollection w ++ added /\
                   length added = (indexed (batch_counts result) - indexed n)%nat) /\
    trendingCollection (batch_world result) = trendingCollection w /\
    (ids_unique w -> ids_unique (batch_world result))).
  { intros c k Hk Hquiet. cbv zeta.
    destruct (IH c k w1) as (H1 & H2 & H3 & H4 & (added & Hfiles & Hlen) & H6 & H7).
    split; [lia|]. split; [lia|]. split; [lia|].
    split; [intros Hp; specialize (H4 Hp); specialize (Hquiet Hp); lia|].
    split; [|split; [congruence|intros Hu; by apply H7, Hu1]].
    exists (added1 ++ added). rewrite Hfiles, Hfiles1, <- app_assoc. split; [done|].
    rewrite length_app. lia. }
  destruct ((indexed n1 + duplicates n1) mod 10 =? 0)%nat; cbn [andb].
  - destruct progress_throws eqn:Hp.
    + apply Hnext; cbn [count_error indexed duplicates errors]; [lia|done].
    + apply Hnext; [lia|done].
  - apply Hnext; [lia|done].
Qed.

(** X28.  A batch indexing run examines 1000 messages at most, so it
    counts at most 1000 files as indexed or duplicate and at most 1000
    errors; when the progress update does not raise, the three counters
    together stay within 1000.  The catalog it leaves is the one it
    found with one record added at the end for each file counted as
    indexed; its [_id]s stay unique and the trending counters are not
    touched. *)
Theorem batch_index_counts_and_catalog (fromMessageId : Z) (w : World) :
  let result := batchIndexFromChannel cfails forwardMessage deleteMessage progress_throws
                  fromMessageId w in
  let n := batch_counts result in
  let w' := batch_world result in
  (indexed n + duplicates n <= 1000)%nat /\ (errors n <= 1000)%nat /\
  (progress_throws = false -> (indexed n + duplicates n + errors n <= 1000)%nat) /\
  (exists added, filesCollection w' = filesCollection w ++ added /\
                 length added = indexed n) /\
  trendingCollection w' = trendingCollection w /\
  (ids_unique w -> ids_unique w').
Proof.
  cbv zeta. unfold batchIndexFromChannel.
  destruct (batch_loop_invariant 1000 fromMessageId
              {| indexed := 0; duplicates := 0; errors := 0 |} w)
    as (H1 & H2 & H3 & H4 & (added & Hfiles & Hlen) & H6 & H7).
  cbn [indexed duplicates errors] in *.
  split; [lia|]. split; [lia|]. split; [intros Hp; specialize (H4 Hp); lia|].
  split; [|done]. exists added. split; [done|]. lia.
Qed.

(** The messages a run asks for. *)
Lemma batch_loop_examined (fuel : nat) : forall (current : Z) (n : BatchCounts) (w : World),
  let ids := batch_examined (batch_loop cfails forwardMessage deleteMessage
                               progress_throws fuel current n w) in
  (length ids <= fuel)%nat /\
  (forall a, head ids = Some a -> a = current) /\
  ((0 < fuel)%nat -> head ids = Some current) /\
  descends (negb progress_throws) ids.
Proof.
  induction fuel as [|fuel IH]; intros current n w; cbv zeta.
  { cbn [batch_loop batch_examined]. split; [cbn; lia|]. split; [done|].
    split; [lia|done]. }
  assert (Hstep : forall c k w1,
    (c = current - 1 \/ (progress_throws = true /\ c = current - 2)) ->
    let ids := batch_examined (examined_first current
                 (batch_loop cfails forwardMessage deleteMessage progress_throws
                    fuel c k w1)) in
    (length ids <= S fuel)%nat /\
    (forall a, head ids = Some a -> a = current) /\
    ((0 < S fuel)%nat -> head ids = Some current) /\
    descends (negb progress_throws) ids).
  { intros c k w1 Hc. cbv zeta. cbn [examined_first batch_examined].
    destruct (IH c k w1) as (Hlen & Hhead & _ & Hdesc).
    split; [cbn [length]; lia|]. split; [by intros a [= <-]|]. split; [done|].
    cbn [descends]. destruct (batch_examined _) as [|b rest] eqn:Hids; [done|].
    split; [|done]. rewrite (Hhead b eq_refl).
    destruct Hc as [->|[-> ->]]; [by left|by right]. }
  cbn [batch_loop].
  assert (Hstop : let ids := [current] in
    (length ids <= S fuel)%nat /\
    (forall a, head ids = Some a -> a = current) /\
    ((0 < S fuel)%nat -> head ids = Some current) /\
    descends (negb progress_throws) ids).
  { cbv zeta. split; [cbn; lia|]. split; [by intros a [= <-]|]. done. }
  destruct (forwardMessage current) as [message| |]; [|done|by apply Hstep; left].
  destruct (deleteMessage (message_id message)) as [[]| |]; [|done|by apply Hstep; left].
  destruct (match message_media message with
            | Some fileData => _
            | None => _
            end) as [n1 w1].
  destruct ((indexed n1 + duplicates n1) mod 10 =? 0)%nat; cbn [andb].
  - destruct progress_throws eqn:Hp; apply Hstep; [right|left]; [|done].
    split; [done|lia].
  - apply Hstep. by left.
Qed.

End BatchFacts.

(** When the progress update raises, every message fetched while the
    number of files counted is a multiple of ten is followed by a step
    of 2: here no message has a file, and every second message is passed
    over. *)
Example batch_passes_over_messages :
  let run := batch_loop (fun _ => false)
               (fun mid => TDone {| message_id := 5000 + mid; message_media := None |})
               (fun _ => TDone tt) true 3 100
               {| indexed := 0; duplicates := 0; errors := 0 |} example_world in
  batch_examined run = [100; 98; 96] /\ errors (batch_counts run) = 3%nat.
Proof. split; reflexivity. Qed.

(** ** The extra properties at work *)

Lemma exact_page_is_window_witness :
  exists r,
    outcome (example_search never_fails (lit "inception") 0 no_filters example_world)
      = Normal r /\
    isFuzzy r = false /\ hasNext r = false /\
    map _id (files r) = [lit "BQAC2"; lit "BQAC1"].
Proof.
  destruct (exact_page_is_window condition_patterns fragment_RegExp
              (regexp_test ascii_upper) accept_all (map ascii_lower) never_fails
              1700000000 (lit "inception") 0 no_filters example_world
              [lit "inception"] [[literal_terms (lit "inception")]])
    as (r & Hout & Hfz & Hfiles & Hnext & _); [reflexivity..|].
  exists r. split; [exact Hout|]. split; [exact Hfz|]. split.
  - destruct (hasNext r); [|done]. destruct Hnext as [Hnext _].
    specialize (Hnext eq_refl). vm_compute in Hnext. lia.
  - by rewrite Hfiles.
Defined.


Lemma indexFile_keeps_ids_unique_witness :
  ids_unique (snd (indexFile (fun _ => false) example_file example_world)).
Proof.
  refine (proj1 (indexFile_keeps_ids_unique (fun _ => false) example_file example_world _)).
  unfold ids_unique. apply (bool_decide_unpack _). reflexivity.
Defined.


Lemma delete_execute_removes_what_it_found_witness :
  lit "BQAC3" ∉ map _id (filesCollection
    (snd (delete_execute (fun _ => false) true (lit "BQAC3") example_world))).
Proof.
  refine (proj1 (proj2 (proj2 (proj1 (proj2
    (delete_execute_removes_what_it_found (fun _ => false) true (lit "BQAC3")
       example_world _))
    (example_record "BQAC3" "Interstellar 2014 1080p") eq_refl)))).
  unfold ids_unique. apply (bool_decide_unpack _). reflexivity.
Defined.

Lemma file_button_opens_its_file_witness :
  let env := {| start_checked := Normal true; start_subscribed := true;
                start_fsub := true |} in
  bot_start env (JStr (lit "file_BQAC3")) = RouteFile (lit "BQAC3") /\
  exists sponsored kind,
    sendFile (fun _ => false) true (Some false) (lit "BQAC3") example_world =
      FileSent sponsored (example_record "BQAC3" "Interstellar 2014 1080p") kind.
Proof.
  cbv zeta.
  destruct (file_button_opens_its_file (fun _ => false) (lit "noir_bot") [42]
    [example_record "BQAC3" "Interstellar 2014 1080p"] 0 false false no_filters (Some 7)
    {| start_checked := Normal true; start_subscribed := true; start_fsub := true |}
    true (Some false)
    example_world (example_record "BQAC3" "Interstellar 2014 1080p"))
    as (_ & Hroute & Hsend & _).
  - apply list_elem_of_singleton. reflexivity.
  - apply (list_elem_of_lookup_2 _ 1%nat). reflexivity.
  - apply (proj1 (Forall_forall
      (fun d' => by_id_or_ref (link_id (example_record "BQAC3" "Interstellar 2014 1080p")) d'
                   = true -> d' = example_record "BQAC3" "Interstellar 2014 1080p") _)).
    constructor; [intros Hq; vm_compute in Hq; discriminate|].
    constructor; [done|].
    constructor; [intros Hq; vm_compute in Hq; discriminate|]. constructor.
  - reflexivity.
  - split; [apply Hroute; split; [reflexivity|by left]|]. apply Hsend. by right.
Defined.

(** With a sponsor post due and a failing premium lookup the same button
    delivers nothing. *)
Example file_button_without_premium_lookup :
  sendFile (fun _ => false) true None (lit "BQAC3") example_world = FileFaulted.
Proof. reflexivity. Qed.

Lemma decoded_state_reencodes_witness :
  deserializeFilters
    (serializeFilters 4 (filters (deserializeFilters (lit "3:HI::720p:x")))) =
  {| page := 4;
     filters := {| file_lang := JStr (lit "HI"); year := JNull;
                   quality := JStr (lit "720p") |} |}.
Proof.
  refine (proj1 (decoded_state_reencodes (lit "3:HI::720p:x") 4 _ _)).
  - reflexivity.
  - lia.
Defined.

Lemma start_payload_routes_witness :
  let env := {| start_checked := Normal true; start_subscribed := false;
                start_fsub := false |} in
  bot_start env (JStr (lit "file_BQAC3")) = RouteFile (lit "BQAC3") /\
  start_referrer (JStr (lit "ref_" ++ N_to_string 777)) = Some (Num 777).
Proof.
  cbv zeta.
  destruct (start_payload_routes
    {| start_checked := Normal true; start_subscribed := false; start_fsub := false |}
    (JStr (lit "file_BQAC3"))) as (_ & _ & Hfile & _).
  destruct (start_payload_routes
    {| start_checked := Normal true; start_subscribed := false; start_fsub := false |}
    (JStr (lit "ref_" ++ N_to_string 777))) as (_ & _ & _ & _ & _ & Href).
  split.
  - apply Hfile. split; [|reflexivity]. split; [reflexivity|by right].
  - destruct (Href 777%N eq_refl) as (_ & _ & Hsafe). apply Hsafe. reflexivity.
Defined.
